(** * trmnl-japanese: markup extraction, entry store and daily selection

    A shallow embedding of the Python sources
      - [draw.py]               (markup extractor, offset-mode selection),
      - [main.py]               (daily selection query),
      - [jishi scrape/main.py]  (scrape filter and bulk insert),
    followed by the properties of the specification that were checked
    against them. *)

From Stdlib Require Import String Ascii.
From Stdlib Require DecimalString DecimalFacts DecimalPos DecimalZ OrderedTypeEx.
From Stdlib Require Import List ZArith Lia Bool.
From Stdlib Require Import Permutation Sorted.
Import ListNotations.

Set Warnings "-register-all".

Local Open Scope Z_scope.

(* ================================================================== *)
(** * Python values *)

(** A Python [str] is a sequence of Unicode code points; [len] counts
    code points, and [list(s)] splits a string into them. *)
Definition char := Z.
Definition str := list char.

(** ASCII literals of the sources, as code points. *)
Fixpoint str_of_string (s : string) : str :=
  match s with
  | EmptyString => []
  | String a s' => Z.of_nat (nat_of_ascii a) :: str_of_string s'
  end.

Fixpoint str_eqb (a b : str) : bool :=
  match a, b with
  | [], [] => true
  | x :: a', y :: b' => (x =? y) && str_eqb a' b'
  | _, _ => false
  end.

(** [str.isspace] for one code point: the Unicode white space that
    [str.strip()] removes. *)
Definition isspace (c : char) : bool :=
  ((9 <=? c) && (c <=? 13)) || ((28 <=? c) && (c <=? 32))
  || (c =? 133) || (c =? 160) || (c =? 5760)
  || ((8192 <=? c) && (c <=? 8202))
  || (c =? 8232) || (c =? 8233) || (c =? 8239) || (c =? 8287) || (c =? 12288).

Fixpoint lstrip (s : str) : str :=
  match s with
  | c :: s' => if isspace c then lstrip s' else s
  | [] => []
  end.

Definition rstrip (s : str) : str := rev (lstrip (rev s)).

(** [s.strip()] *)
Definition strip (s : str) : str := rstrip (lstrip s).

(** Exceptions raised by the modelled code. *)
Inductive exn : Type :=
| ValueError (msg : string)
| AssertionError
| IntegrityError (msg : string)
| OperationalError (msg : string)
| UnicodeEncodeError
| IndexError.

Inductive result (A : Type) : Type :=
| Ok (a : A)
| Raise (e : exn).
Arguments Ok {A} a.
Arguments Raise {A} e.

Definition bind {A B} (r : result A) (k : A -> result B) : result B :=
  match r with
  | Ok a => k a
  | Raise e => Raise e
  end.

Notation "x <- c ;; k" := (bind c (fun x => k))
  (at level 61, c at next level, right associativity).
Notation "' p <- c ;; k" := (bind c (fun x => let 'p := x in k))
  (at level 61, p pattern, c at next level, right associativity).

(* ================================================================== *)
(** * Parsed markup (what BeautifulSoup hands to the code)

    The HTML parser itself is a library; the sources only walk the tree
    it returns.  A markup text is identified with that tree: text
    nodes, comments, and tags with their name, their [class] list and
    their children. *)

Inductive node : Type :=
| NavigableString (s : str)
| Comment (s : str)
| Tag (name : string) (classes : list string) (contents : list node).

(** A markup fragment: the top-level nodes of a parsed document. *)
Definition html := list node.

(** [BeautifulSoup(html, 'html.parser')]: the document object is itself
    a tag, named [[document]]. *)
Definition BeautifulSoup (h : html) : node := Tag "[document]" [] h.

Definition contents (n : node) : list node :=
  match n with
  | Tag _ _ cs => cs
  | _ => []
  end.

(** [getattr(n, 'name', None)] *)
Definition name_of (n : node) : option string :=
  match n with
  | Tag nm _ _ => Some nm
  | _ => None
  end.

(** All nodes below [n], in document order. *)
Fixpoint descendants (n : node) : list node :=
  match n with
  | Tag _ _ cs => flat_map (fun c => c :: descendants c) cs
  | _ => []
  end.

(** The tag filter of [find]/[find_all]: a tag name and, optionally, a
    class that must occur in the tag's class list. *)
Definition matches (name : string) (class_ : option string) (n : node) : bool :=
  match n with
  | Tag nm cl _ =>
      String.eqb nm name &&
      match class_ with
      | None => true
      | Some c => existsb (String.eqb c) cl
      end
  | _ => false
  end.

Definition find_all (n : node) (name : string) (class_ : option string) : list node :=
  filter (matches name class_) (descendants n).

Definition find (n : node) (name : string) (class_ : option string) : option node :=
  hd_error (find_all n name class_).

(** The strings [get_text] visits: every text node below (or at) [n],
    in document order; comments are not text. *)
Fixpoint all_strings (n : node) : list str :=
  match n with
  | NavigableString s => [s]
  | Comment _ => []
  | Tag _ _ cs => flat_map all_strings cs
  end.

(** [n.text] *)
Definition text (n : node) : str := concat (all_strings n).

Definition nonempty (s : str) : bool :=
  match s with [] => false | _ => true end.


(* ================================================================== *)
(** * draw.py: the markup extractor *)



Record RepresentationBlock : Type := mkRepresentationBlock {
  kanji : str;
  furigana : str;
  furigana_span : option str
}.

Record TextBlock : Type := mkTextBlock {
  tb_char : str;
  is_span : bool
}.

(** [TextBlock.__len__] *)
Definition TextBlock_len (tb : TextBlock) : nat :=
  if is_span tb then 1%nat else length (tb_char tb).

(** One child of the furigana span (lines 129-141 of draw.py). *)
Definition furigana_child (child : node) : result (str * option str) :=
  match name_of child with
  | Some nm =>
      if String.eqb nm "span" then Ok (strip (text child), None)
      else if String.eqb nm "ruby" then
        match find child "rt" None with
        | None => Raise (ValueError "Malformed ruby element: missing <rt>")
        | Some rt =>
            Ok (strip (text rt), option_map (fun rb => strip (text rb)) (find child "rb" None))
        end
      else Raise (ValueError "Unexpected element in furigana span")
  | None => Raise (ValueError "Unexpected element in furigana span")
  end.

(** The loop over the children: the lists [furigana] and
    [furigana_span] grow together; the first bad child raises. *)
Fixpoint furigana_children (children : list node) : result (list str * list (option str)) :=
  match children with
  | [] => Ok ([], [])
  | child :: rest =>
      '(f, fs) <- furigana_child child ;;
      '(fl, fsl) <- furigana_children rest ;;
      Ok (f :: fl, fs :: fsl)
  end.

(** The reading-annotation region of the container. *)
Definition furigana_region (concept_div : node) : result (list str * list (option str)) :=
  match find concept_div "span" (Some "furigana"%string) with
  | Some furigana_span_div => furigana_children (contents furigana_span_div)
  | None => Ok ([], [])
  end.

(** One child of the text span (lines 148-151). *)
Definition text_content (content : node) : list TextBlock :=
  match content with
  | NavigableString s | Comment s =>
      if nonempty (strip s) then [mkTextBlock (strip s) false] else []
  | Tag nm _ _ =>
      if String.eqb nm "span" then [mkTextBlock (strip (text content)) true] else []
  end.

(** The display-text region; the [assert] fails when it is missing. *)
Definition text_region (concept_div : node) : result (list TextBlock) :=
  match find concept_div "span" (Some "text"%string) with
  | Some text_span => Ok (flat_map text_content (contents text_span))
  | None => Raise AssertionError
  end.

(** [zip(a, b, c)] turned into blocks. *)
Fixpoint zip_blocks (ks : list str) (fs : list str) (fss : list (option str))
  : list RepresentationBlock :=
  match ks, fs, fss with
  | k :: ks', f :: fs', s :: fss' => mkRepresentationBlock k f s :: zip_blocks ks' fs' fss'
  | _, _, _ => []
  end.

(** [combined_text] of lines 156-161. *)
Definition combined_text (text : list TextBlock) : list str :=
  flat_map (fun tb => if is_span tb then [tb_char tb]
                      else map (fun c => [c]) (tb_char tb)) text.

Definition sum_len (text : list TextBlock) : nat :=
  fold_right (fun tb acc => (TextBlock_len tb + acc)%nat) 0%nat text.

(** Lines 153-164: the reconciliation of the two streams. *)
Definition reconcile (furigana : list str) (furigana_span : list (option str))
    (text : list TextBlock) : result (list RepresentationBlock) :=
  if Nat.eqb (length furigana) (length text) then
    Ok (zip_blocks (map tb_char text) furigana furigana_span)
  else if Nat.eqb (length furigana) (sum_len text) then
    Ok (zip_blocks (combined_text text) furigana furigana_span)
  else Raise (ValueError "Mismatch between furigana and text lengths").

Definition extract_representation (h : html) : result (list RepresentationBlock) :=
  let soup := BeautifulSoup h in
  match find soup "div" (Some "concept_light-representation"%string) with
  | None => Ok []
  | Some concept_div =>
      '(furigana, furigana_span) <- furigana_region concept_div ;;
      text <- text_region concept_div ;;
      reconcile furigana furigana_span text
  end.

(* ================================================================== *)
(** * jishi scrape/main.py: the scrape filter *)

(** [tag.string]: the single string of a tag with exactly one child. *)
Fixpoint string_of (n : node) : option str :=
  match n with
  | NavigableString s | Comment s => Some s
  | Tag _ _ cs =>
      match cs with
      | c :: rest => match rest with [] => string_of c | _ => None end
      | [] => None
      end
  end.

(** [for x in n.find_all(...): x.decompose()]: the matches are listed
    first, then every one of them is cut out of the tree. *)
Fixpoint decompose_all (p : node -> bool) (n : node) : node :=
  match n with
  | Tag nm cl cs =>
      Tag nm cl
        ((fix kept (l : list node) : list node :=
            match l with
            | [] => []
            | c :: l' => if p c then kept l' else decompose_all p c :: kept l'
            end) cs)
  | _ => n
  end.

Definition is_zwsp_span (n : node) : bool :=
  matches "span" None n &&
  match string_of n with
  | Some s => str_eqb s [8203]
  | None => false
  end.

(** Reading a serialised tree back: empty strings are gone and
    neighbouring strings have become one. *)
Fixpoint merge_strings (ns : list node) : list node :=
  match ns with
  | [] => []
  | NavigableString a :: rest =>
      match a, merge_strings rest with
      | [], r => r
      | _, NavigableString b :: r => NavigableString (a ++ b) :: r
      | _, r => NavigableString a :: r
      end
  | n :: rest => n :: merge_strings rest
  end.

Fixpoint reparse (n : node) : node :=
  match n with
  | Tag nm cl cs => Tag nm cl (merge_strings (map reparse cs))
  | _ => n
  end.

Definition remove_newline (s : str) : str :=
  filter (fun c => negb (c =? 10)) s.

Fixpoint remove_newlines (n : node) : node :=
  match n with
  | NavigableString s => NavigableString (remove_newline s)
  | Comment s => Comment (remove_newline s)
  | Tag nm cl cs => Tag nm cl (map remove_newlines cs)
  end.

(** [str(n).replace('\n', '')], as the markup that is stored. *)
Definition str_without_newlines (n : node) : html :=
  merge_strings [reparse (remove_newlines n)].

(** Lines 116-137: the cleaned copy of one wrapper. *)
Definition clean_wrapper (wrapper : node) : html :=
  let wrapper_copy := reparse wrapper in
  let c1 :=
    decompose_all (matches "span" (Some "meaning-definition-section_divider"%string))
      wrapper_copy in
  let c2 := decompose_all is_zwsp_span c1 in
  let c3 := decompose_all (matches "span" (Some "supplemental_info"%string)) c2 in
  str_without_newlines c3.

Definition has_sentence (wrapper : node) : bool :=
  match find wrapper "div" (Some "sentence"%string) with
  | Some _ => true
  | None => false
  end.

(** One element of the result list: the dict with the keys
    ['representation'] and ['meaning_wrappers']. *)
Record entry : Type := mkEntry {
  entry_representation : html;
  entry_meaning_wrappers : list html
}.

(** The wrappers of one word entry that carry a sentence. *)
Definition sentence_wrappers (e : node) : list node :=
  filter has_sentence (find_all e "div" (Some "meaning-wrapper"%string)).

Definition extract_entry (e : node) : list entry :=
  match find e "div" (Some "concept_light-representation"%string) with
  | None => []
  | Some representation_div =>
      match map clean_wrapper (sentence_wrappers e) with
      | [] => []
      | wrappers => [mkEntry (str_without_newlines representation_div) wrappers]
      end
  end.

Definition extract_words_with_sentences (soup : node) : list entry :=
  flat_map extract_entry (find_all soup "div" (Some "concept_light"%string)).

(* ================================================================== *)
(** * The entry store (SQLite, as the three programs use it)

    Two tables.  The contents of a table are its rows; the order of the
    list is the order in which the engine hands the rows to a query.
    SQL fixes that order only as far as an [ORDER BY] separates the
    rows, so two lists with the same rows stand for the same contents.
    The column [created_at] of [words] is written by the engine's clock
    and read by nobody; it is left out. *)

Record word_row : Type := mkWord {
  w_id : Z;
  representation_html : html
}.

Record mw_row : Type := mkMw {
  mw_id : Z;
  mw_word_id : Z;
  wrapper_html : html
}.

Record database : Type := mkDb {
  words : list word_row;
  meaning_wrappers : list mw_row;
  (** [sqlite_sequence]: the largest id ever handed out, per table *)
  seq_words : Z;
  seq_meaning_wrappers : Z
}.

Definition empty_db : database := mkDb [] [] 0 0.

Definition max_id (ids : list Z) : Z := fold_right Z.max 0 ids.

(** [INTEGER PRIMARY KEY AUTOINCREMENT]: one more than every id the
    table holds or ever held. *)
Definition next_id (seq : Z) (ids : list Z) : Z := Z.max seq (max_id ids) + 1.

(** A connection: the committed database, the working copy of an open
    transaction, the engine failures still to come (one slot per
    statement, [None] for a statement the engine carries out), and the
    [foreign_keys] pragma. *)
Record connection : Type := mkConn {
  disk : database;
  txn : option database;
  faults : list (option exn);
  foreign_keys : bool
}.

(** [sqlite3.connect(db_path)].  SQLite checks [FOREIGN KEY] clauses
    only on a connection that ran [PRAGMA foreign_keys = ON]; a fresh
    connection has it off, and none of the sources switches it on. *)
Definition sqlite3_connect (db : database) (fs : list (option exn)) : connection :=
  mkConn db None fs false.

(** Statements: state passing, with exceptions. *)
Definition M (A : Type) : Type := connection -> result A * connection.

Definition ret {A} (a : A) : M A := fun c => (Ok a, c).
Definition raise {A} (e : exn) : M A := fun c => (Raise e, c).

Definition bindM {A B} (m : M A) (k : A -> M B) : M B :=
  fun c => match m c with
           | (Ok a, c') => k a c'
           | (Raise e, c') => (Raise e, c')
           end.

Notation "x <~ m ;; k" := (bindM m (fun x => k))
  (at level 61, m at next level, right associativity).
Notation "m ;;; k" := (bindM m (fun _ => k))
  (at level 61, right associativity).

(** [try: body  except: handler; raise] *)
Definition try_except_reraise {A} (body : M A) (handler : M unit) : M A :=
  fun c => match body c with
           | (Ok a, c') => (Ok a, c')
           | (Raise e, c') =>
               match handler c' with
               | (Ok _, c'') => (Raise e, c'')
               | (Raise e', c'') => (Raise e', c'')
               end
           end.

(** Every statement first asks the engine whether it can be carried out. *)
Definition engine : M unit :=
  fun c => match faults c with
           | Some e :: fs => (Raise e, mkConn (disk c) (txn c) fs (foreign_keys c))
           | None :: fs => (Ok tt, mkConn (disk c) (txn c) fs (foreign_keys c))
           | [] => (Ok tt, c)
           end.

(** The database a statement sees. *)
Definition current (c : connection) : database :=
  match txn c with
  | Some w => w
  | None => disk c
  end.

(** A write goes to the working copy; outside a transaction the sqlite3
    module opens one first. *)
Definition write (w : database) : M unit :=
  fun c => (Ok tt, mkConn (disk c) (Some w) (faults c) (foreign_keys c)).

(** [CREATE TABLE IF NOT EXISTS], [CREATE INDEX IF NOT EXISTS]: no row
    is touched. *)
Definition create_if_not_exists : M unit := engine.

(** [conn.execute("BEGIN TRANSACTION")] *)
Definition begin_transaction : M unit :=
  engine ;;;
  fun c => match txn c with
           | Some _ =>
               (Raise (OperationalError "cannot start a transaction within a transaction"),
                c)
           | None => (Ok tt, mkConn (disk c) (Some (disk c)) (faults c) (foreign_keys c))
           end.

(** [conn.commit()] *)
Definition commit : M unit :=
  engine ;;;
  fun c => (Ok tt, mkConn (current c) None (faults c) (foreign_keys c)).

(** [conn.rollback()]; undoing is taken to succeed. *)
Definition rollback : M unit :=
  fun c => (Ok tt, mkConn (disk c) None (faults c) (foreign_keys c)).

(** The row that [INSERT INTO words (representation_html) VALUES (?)]
    adds, and its id. *)
Definition add_word (rep : html) (d : database) : Z * database :=
  let id := next_id (seq_words d) (map w_id (words d)) in
  (id, mkDb (words d ++ [mkWord id rep]) (meaning_wrappers d)
            id (seq_meaning_wrappers d)).

(** The row that [INSERT INTO meaning_wrappers (word_id, wrapper_html)
    VALUES (?, ?)] adds, and its id. *)
Definition add_meaning_wrapper (word_id : Z) (wrapper : html) (d : database)
  : Z * database :=
  let id := next_id (seq_meaning_wrappers d) (map mw_id (meaning_wrappers d)) in
  (id, mkDb (words d) (meaning_wrappers d ++ [mkMw id word_id wrapper])
            (seq_words d) id).

(** [c.execute("INSERT INTO words ...", (rep,))], giving [c.lastrowid]. *)
Definition insert_word (rep : html) : M Z :=
  engine ;;;
  fun c => let (id, d) := add_word rep (current c) in
           (write d ;;; ret id) c.

Definition word_exists (d : database) (word_id : Z) : bool :=
  existsb (fun w => w_id w =? word_id) (words d).

(** [c.execute("INSERT INTO meaning_wrappers ...", (word_id, wrapper))].
    The [FOREIGN KEY] clause of the table is checked only when the
    connection has the pragma on. *)
Definition insert_meaning_wrapper (word_id : Z) (wrapper : html) : M Z :=
  engine ;;;
  fun c =>
    if foreign_keys c && negb (word_exists (current c) word_id)
    then (Raise (IntegrityError "FOREIGN KEY constraint failed"), c)
    else let (id, d) := add_meaning_wrapper word_id wrapper (current c) in
         (write d ;;; ret id) c.

(** [for x in xs: body(x)] *)
Fixpoint for_each {A} (xs : list A) (body : A -> M unit) : M unit :=
  match xs with
  | [] => ret tt
  | x :: xs' => body x ;;; for_each xs' body
  end.

(** Lines 220-231: one entry of the batch. *)
Definition store_entry (e : entry) : M unit :=
  word_id <~ insert_word (entry_representation e) ;;
  for_each (entry_meaning_wrappers e)
    (fun wrapper => insert_meaning_wrapper word_id wrapper ;;; ret tt).

(** [with conn: body]: leaving the block commits what is still open,
    or rolls it back when the block raised. *)
Definition with_connection {A} (body : M A) : M A :=
  fun c => match body c with
           | (Ok a, c') => (Ok a, mkConn (current c') None (faults c') (foreign_keys c'))
           | (Raise e, c') => (Raise e, mkConn (disk c') None (faults c') (foreign_keys c'))
           end.

(** [store_extracted_results(results)] on a connection. *)
Definition store_extracted_results_conn (results : list (list entry)) : M unit :=
  let all_entries := concat results in
  with_connection
    (create_if_not_exists ;;;
     create_if_not_exists ;;;
     create_if_not_exists ;;;
     begin_transaction ;;;
     try_except_reraise
       (for_each all_entries store_entry ;;; commit)
       rollback).

(** [store_extracted_results(results, db_path)]: what the caller gets
    and what the database file holds afterwards. *)
Definition store_extracted_results (results : list (list entry))
    (db : database) (fs : list (option exn)) : result unit * database :=
  let (r, c) := store_extracted_results_conn results (sqlite3_connect db fs) in
  (r, disk c).

(* ================================================================== *)
(** * Library functions the selection depends on

    [hashlib.sha256], [hashlib.md5] and the generator behind
    [random.seed]/[random.sample] (MT19937), written out so that the two
    selection modes can be evaluated on concrete dates.  Bytes and
    32-bit words are integers, reduced with [Z.land]. *)

Module hashlib.

Definition mask32 : Z := 4294967295.
Definition u32 (x : Z) : Z := Z.land x mask32.
Definition not32 (x : Z) : Z := Z.lxor (u32 x) mask32.
Definition rotr (n x : Z) : Z := Z.lor (Z.shiftr x n) (u32 (Z.shiftl x (32 - n))).
Definition rotl (n x : Z) : Z := Z.lor (u32 (Z.shiftl x n)) (Z.shiftr x (32 - n)).

(** Big-endian and little-endian readings of a byte sequence. *)
Definition int_of_bytes_be (bs : list Z) : Z :=
  fold_left (fun acc b => acc * 256 + b) bs 0.
Definition int_of_bytes_le (bs : list Z) : Z :=
  fold_right (fun b acc => b + 256 * acc) 0 bs.

Fixpoint bytes_le (n : nat) (x : Z) : list Z :=
  match n with
  | O => []
  | S n' => Z.land x 255 :: bytes_le n' (Z.shiftr x 8)
  end.
Definition bytes_be (n : nat) (x : Z) : list Z := rev (bytes_le n x).

Fixpoint chunks (fuel n : nat) (l : list Z) : list (list Z) :=
  match fuel, l with
  | S fuel', _ :: _ => firstn n l :: chunks fuel' n (skipn n l)
  | _, _ => []
  end.

(** Message padding: a one bit, zeros up to 56 mod 64, the bit length
    in eight bytes. *)
Definition pad (length_bytes : nat -> Z -> list Z) (msg : list Z) : list Z :=
  let len := Z.of_nat (length msg) in
  msg ++ [128] ++ repeat 0 (Z.to_nat ((55 - len) mod 64)) ++ length_bytes 8%nat (8 * len).

Definition blocks (word : list Z -> Z) (padded : list Z) : list (list Z) :=
  map (fun blk => map word (chunks 16 4 blk)) (chunks (length padded) 64 padded).

(** ** SHA-256 (FIPS 180-4) *)

Definition K256 : list Z :=
  [1116352408; 1899447441; 3049323471; 3921009573; 961987163; 1508970993;
   2453635748; 2870763221; 3624381080; 310598401; 607225278; 1426881987;
   1925078388; 2162078206; 2614888103; 3248222580; 3835390401; 4022224774;
   264347078; 604807628; 770255983; 1249150122; 1555081692; 1996064986;
   2554220882; 2821834349; 2952996808; 3210313671; 3336571891; 3584528711;
   113926993; 338241895; 666307205; 773529912; 1294757372; 1396182291;
   1695183700; 1986661051; 2177026350; 2456956037; 2730485921; 2820302411;
   3259730800; 3345764771; 3516065817; 3600352804; 4094571909; 275423344;
   430227734; 506948616; 659060556; 883997877; 958139571; 1322822218;
   1537002063; 1747873779; 1955562222; 2024104815; 2227730452; 2361852424;
   2428436474; 2756734187; 3204031479; 3329325298].

Definition H256 : list Z :=
  [1779033703; 3144134277; 1013904242; 2773480762;
   1359893119; 2600822924; 528734635; 1541459225].

Definition Ch (x y z : Z) : Z := Z.lxor (Z.land x y) (Z.land (not32 x) z).
Definition Maj (x y z : Z) : Z :=
  Z.lxor (Z.lxor (Z.land x y) (Z.land x z)) (Z.land y z).
Definition Sigma0 (x : Z) : Z := Z.lxor (Z.lxor (rotr 2 x) (rotr 13 x)) (rotr 22 x).
Definition Sigma1 (x : Z) : Z := Z.lxor (Z.lxor (rotr 6 x) (rotr 11 x)) (rotr 25 x).
Definition sigma0 (x : Z) : Z := Z.lxor (Z.lxor (rotr 7 x) (rotr 18 x)) (Z.shiftr x 3).
Definition sigma1 (x : Z) : Z := Z.lxor (Z.lxor (rotr 17 x) (rotr 19 x)) (Z.shiftr x 10).

(** The message schedule, newest word first. *)
Fixpoint schedule (n : nat) (w : list Z) : list Z :=
  match n with
  | O => w
  | S n' =>
      schedule n'
        (u32 (sigma1 (nth 1 w 0) + nth 6 w 0 + sigma0 (nth 14 w 0) + nth 15 w 0) :: w)
  end.

Definition round256 (s : list Z) (kw : Z * Z) : list Z :=
  match s with
  | [a; b; c; d; e; f; g; h] =>
      let t1 := h + Sigma1 e + Ch e f g + fst kw + snd kw in
      let t2 := Sigma0 a + Maj a b c in
      [u32 (t1 + t2); a; b; c; u32 (d + t1); e; f; g]
  | _ => s
  end.

Definition compress256 (h : list Z) (block : list Z) : list Z :=
  let w := rev (schedule 48 (rev block)) in
  map (fun p => u32 (fst p + snd p))
      (combine h (fold_left round256 (combine K256 w) h)).

(** [hashlib.sha256(msg).digest()] *)
Definition sha256 (msg : list Z) : list Z :=
  flat_map (bytes_be 4)
    (fold_left compress256 (blocks int_of_bytes_be (pad bytes_be msg)) H256).

(** ** MD5 (RFC 1321) *)

Definition T5 : list Z :=
  [3614090360; 3905402710; 606105819; 3250441966; 4118548399; 1200080426;
   2821735955; 4249261313; 1770035416; 2336552879; 4294925233; 2304563134;
   1804603682; 4254626195; 2792965006; 1236535329; 4129170786; 3225465664;
   643717713; 3921069994; 3593408605; 38016083; 3634488961; 3889429448;
   568446438; 3275163606; 4107603335; 1163531501; 2850285829; 4243563512;
   1735328473; 2368359562; 4294588738; 2272392833; 1839030562; 4259657740;
   2763975236; 1272893353; 4139469664; 3200236656; 681279174; 3936430074;
   3572445317; 76029189; 3654602809; 3873151461; 530742520; 3299628645;
   4096336452; 1126891415; 2878612391; 4237533241; 1700485571; 2399980690;
   4293915773; 2240044497; 1873313359; 4264355552; 2734768916; 1309151649;
   4149444226; 3174756917; 718787259; 3951481745].

Definition S5 : list Z :=
  [7; 12; 17; 22; 7; 12; 17; 22; 7; 12; 17; 22; 7; 12; 17; 22;
   5; 9; 14; 20; 5; 9; 14; 20; 5; 9; 14; 20; 5; 9; 14; 20;
   4; 11; 16; 23; 4; 11; 16; 23; 4; 11; 16; 23; 4; 11; 16; 23;
   6; 10; 15; 21; 6; 10; 15; 21; 6; 10; 15; 21; 6; 10; 15; 21].

Definition H5 : list Z := [1732584193; 4023233417; 2562383102; 271733878].

Definition round5 (m : list Z) (s : list Z) (i : Z) : list Z :=
  match s with
  | [a; b; c; d] =>
      let '(f, g) :=
        if i <? 16 then (Z.lor (Z.land b c) (Z.land (not32 b) d), i)
        else if i <? 32 then (Z.lor (Z.land d b) (Z.land (not32 d) c), (5 * i + 1) mod 16)
        else if i <? 48 then (Z.lxor (Z.lxor b c) d, (3 * i + 5) mod 16)
        else (Z.lxor c (Z.lor b (not32 d)), (7 * i) mod 16) in
      let x := u32 (f + a + nth (Z.to_nat i) T5 0 + nth (Z.to_nat g) m 0) in
      [d; u32 (b + rotl (nth (Z.to_nat i) S5 0) x); b; c]
  | _ => s
  end.

Definition compress5 (h : list Z) (block : list Z) : list Z :=
  map (fun p => u32 (fst p + snd p))
      (combine h (fold_left (round5 block) (map Z.of_nat (seq 0 64)) h)).

(** [hashlib.md5(msg).digest()] *)
Definition md5 (msg : list Z) : list Z :=
  flat_map (bytes_le 4)
    (fold_left compress5 (blocks int_of_bytes_le (pad bytes_le msg)) H5).

(** [int(h.hexdigest(), 16)] *)
Definition hexdigest_int (digest : list Z) : Z := int_of_bytes_be digest.

End hashlib.

Module random.

Definition u32 (x : Z) : Z := Z.land x 4294967295.

(** The generator: 624 words and the index of the next one. *)
Record state : Type := mkState { mt : list Z; mti : nat }.

Definition N : nat := 624.
Definition M : nat := 397.

(** [l[i] = x] *)
Fixpoint set_nth {A} (i : nat) (x : A) (l : list A) : list A :=
  match l, i with
  | [], _ => []
  | _ :: l', O => x :: l'
  | y :: l', S i' => y :: set_nth i' x l'
  end.

(** [init_genrand(s)] *)
Fixpoint init_genrand_from (n : nat) (i : Z) (prev : Z) : list Z :=
  match n with
  | O => []
  | S n' =>
      let x := u32 (1812433253 * Z.lxor prev (Z.shiftr prev 30) + i) in
      x :: init_genrand_from n' (i + 1) x
  end.

Definition init_genrand (s : Z) : list Z :=
  u32 s :: init_genrand_from 623 1 (u32 s).

(** The two mixing loops of [init_by_array]. *)
Fixpoint mix_key (k : nat) (key : list Z) (i j : nat) (v : list Z) : list Z * nat :=
  match k with
  | O => (v, i)
  | S k' =>
      let p := nth (i - 1) v 0 in
      let x := u32 (Z.lxor (nth i v 0) (Z.lxor p (Z.shiftr p 30) * 1664525)
                    + nth j key 0 + Z.of_nat j) in
      let v1 := set_nth i x v in
      let i1 := S i in
      let j1 := S j in
      let v2 := if (N <=? i1)%nat then set_nth 0 (nth (N - 1) v1 0) v1 else v1 in
      let i2 := if (N <=? i1)%nat then 1%nat else i1 in
      let j2 := if (length key <=? j1)%nat then 0%nat else j1 in
      mix_key k' key i2 j2 v2
  end.

Fixpoint mix_index (k : nat) (i : nat) (v : list Z) : list Z :=
  match k with
  | O => v
  | S k' =>
      let p := nth (i - 1) v 0 in
      let x := u32 (Z.lxor (nth i v 0) (Z.lxor p (Z.shiftr p 30) * 1566083941)
                    - Z.of_nat i) in
      let v1 := set_nth i x v in
      let i1 := S i in
      let v2 := if (N <=? i1)%nat then set_nth 0 (nth (N - 1) v1 0) v1 else v1 in
      let i2 := if (N <=? i1)%nat then 1%nat else i1 in
      mix_index k' i2 v2
  end.

Definition init_by_array (key : list Z) : state :=
  let '(v, i) := mix_key (Nat.max N (length key)) key 1 0 (init_genrand 19650218) in
  mkState (set_nth 0 2147483648 (mix_index (N - 1) i v)) N.

(** The 32-bit words of a non-negative integer, lowest first; zero has
    one word. *)
Fixpoint words32 (n : nat) (a : Z) : list Z :=
  match n with
  | O => []
  | S n' => u32 a :: words32 n' (Z.shiftr a 32)
  end.

(** [random.seed(a)] for an integer [a] *)
Definition seed (a : Z) : state :=
  let a := Z.abs a in
  init_by_array (words32 (Z.to_nat (if a =? 0 then 1 else Z.log2 a / 32 + 1)) a).

(** Regeneration of the 624 words, in place. *)
Fixpoint twist (n : nat) (kk : nat) (v : list Z) : list Z :=
  match n with
  | O => v
  | S n' =>
      let y := Z.lor (Z.land (nth kk v 0) 2147483648)
                     (Z.land (nth ((kk + 1) mod N) v 0) 2147483647) in
      let x := Z.lxor (Z.lxor (nth ((kk + M) mod N) v 0) (Z.shiftr y 1))
                      (if Z.odd y then 2567483615 else 0) in
      twist n' (S kk) (set_nth kk x v)
  end.

Definition temper (y : Z) : Z :=
  let y := Z.lxor y (Z.shiftr y 11) in
  let y := Z.lxor y (Z.land (Z.shiftl y 7) 2636928640) in
  let y := Z.lxor y (Z.land (Z.shiftl y 15) 4022730752) in
  Z.lxor y (Z.shiftr y 18).

(** [genrand_uint32] *)
Definition genrand_uint32 (s : state) : Z * state :=
  let s := if (N <=? mti s)%nat then mkState (twist N 0 (mt s)) 0 else s in
  (temper (nth (mti s) (mt s) 0), mkState (mt s) (S (mti s))).

(** [getrandbits(k)] for 0 < k <= 32 *)
Definition getrandbits (k : Z) (s : state) : Z * state :=
  let (r, s') := genrand_uint32 s in (Z.shiftr r (32 - k), s').

Definition bit_length (n : Z) : Z := if n =? 0 then 0 else Z.log2 (Z.abs n) + 1.

(** [_randbelow_with_getrandbits(n)]: draw until the value is below
    [n]; [None] when the fuel is spent first. *)
Fixpoint randbelow (fuel : nat) (n : Z) (s : state) : option (Z * state) :=
  match fuel with
  | O => None
  | S fuel' =>
      let (r, s') := getrandbits (bit_length n) s in
      if n <=? r then randbelow fuel' n s' else Some (r, s')
  end.

Section Sample.
Context {A : Type}.

(** The pool branch: [for i in range(k)] with [n - i] items left. *)
Fixpoint sample_pool (fuel : nat) (k : nat) (n : nat) (pool : list A) (s : state)
  : option (list A * state) :=
  match k with
  | O => Some ([], s)
  | S k' =>
      match randbelow fuel (Z.of_nat n) s with
      | None => None
      | Some (j, s') =>
          match nth_error pool (Z.to_nat j), nth_error pool (n - 1) with
          | Some x, Some last =>
              match sample_pool fuel k' (n - 1) (set_nth (Z.to_nat j) last pool) s' with
              | Some (r, s'') => Some (x :: r, s'')
              | None => None
              end
          | _, _ => None
          end
      end
  end.

(** The set branch: positions already taken are drawn again. *)
Fixpoint fresh_index (fuel : nat) (n : Z) (selected : list Z) (s : state)
  : option (Z * state) :=
  match fuel with
  | O => None
  | S fuel' =>
      match randbelow (S fuel') n s with
      | None => None
      | Some (j, s') =>
          if existsb (Z.eqb j) selected then fresh_index fuel' n selected s'
          else Some (j, s')
      end
  end.

Fixpoint sample_set (fuel : nat) (k : nat) (population : list A) (selected : list Z)
    (s : state) : option (list A * state) :=
  match k with
  | O => Some ([], s)
  | S k' =>
      match fresh_index fuel (Z.of_nat (length population)) selected s with
      | None => None
      | Some (j, s') =>
          match nth_error population (Z.to_nat j),
                sample_set fuel k' population (j :: selected) s' with
          | Some x, Some (r, s'') => Some (x :: r, s'')
          | _, _ => None
          end
      end
  end.

End Sample.

(** [random.sample(population, k)] for [k <= 5], where the pool branch
    is taken up to 21 items.  [None]: the fuel of a redraw loop ran out. *)
Definition sample {A} (fuel : nat) (population : list A) (k : nat) (s : state)
  : option (result (list A * state)) :=
  let n := length population in
  if (n <? k)%nat
  then Some (Raise (ValueError "Sample larger than population or is negative"))
  else if (n <=? 21)%nat
       then option_map Ok (sample_pool fuel k n population s)
       else option_map Ok (sample_set fuel k population [] s).

End random.

(** [s.encode()]: UTF-8; a lone surrogate (or a value that is no code
    point) cannot be encoded. *)
Definition encode_char (c : char) : result (list Z) :=
  if (0 <=? c) && (c <? 128) then Ok [c]
  else if (128 <=? c) && (c <? 2048) then
    Ok [192 + Z.shiftr c 6; 128 + Z.land c 63]
  else if ((2048 <=? c) && (c <? 55296)) || ((57344 <=? c) && (c <? 65536)) then
    Ok [224 + Z.shiftr c 12; 128 + Z.land (Z.shiftr c 6) 63; 128 + Z.land c 63]
  else if (65536 <=? c) && (c <? 1114112) then
    Ok [240 + Z.shiftr c 18; 128 + Z.land (Z.shiftr c 12) 63;
        128 + Z.land (Z.shiftr c 6) 63; 128 + Z.land c 63]
  else Raise UnicodeEncodeError.

Fixpoint encode (s : str) : result (list Z) :=
  match s with
  | [] => Ok []
  | c :: s' =>
      b <- encode_char c ;;
      bs <- encode s' ;;
      Ok (b ++ bs)
  end.

(* ================================================================== *)
(** * main.py: the daily selection *)

(** [ORDER BY]: the rows are sorted by the listed key and by nothing
    else; rows whose keys are equal stay in the order in which the
    engine met them. *)
Section OrderBy.
Context {A : Type} (leb : A -> A -> bool).

Fixpoint insert_sorted (x : A) (l : list A) : list A :=
  match l with
  | [] => [x]
  | y :: l' => if leb x y then x :: l else y :: insert_sorted x l'
  end.

Fixpoint order_by (l : list A) : list A :=
  match l with
  | [] => []
  | x :: l' => insert_sorted x (order_by l')
  end.
End OrderBy.

(** [SELECT DISTINCT]: each value once, at its first place. *)
Fixpoint distinct (l : list Z) : list Z :=
  match l with
  | [] => []
  | x :: l' => x :: filter (fun y => negb (y =? x)) (distinct l')
  end.

(** The text SQLite gives to a REAL.  How the engine formats a floating
    point number is not modelled: [real_text a b] stands for the text
    of the REAL that [a * b] is when the integer product does not fit
    in 64 bits, as in ['1.884493844e+19']. *)
Class RealText : Type := real_text : Z -> Z -> string.

(** [SUBSTR(id * ?, 1, 15)]: the first 15 characters of the text of the
    product.  Both factors are integers, and SQLite multiplies them as
    64-bit integers: a product from [-2^63] up to [2^63 - 1] is an
    INTEGER, written in decimal; any other product is computed as a
    REAL, and the key is cut from the text of that REAL.  The keys are
    TEXT and compare as text. *)
Definition sort_key {RT : RealText} (seed id : Z) : string :=
  let product := id * seed in
  substring 0 15
    (if (- 2 ^ 63 <=? product) && (product <? 2 ^ 63)
     then DecimalString.NilZero.string_of_int (Z.to_int product)
     else real_text id seed).

Definition key_leb {A} (key : A -> string) (a b : A) : bool :=
  String.leb (key a) (key b).

(** The CTE [daily_words]. *)
Definition daily_words {RT : RealText} (seed : Z) (db : database) : list Z :=
  firstn 4 (order_by (key_leb (sort_key seed))
                     (distinct (map mw_word_id (meaning_wrappers db)))).

(** A row of the CTE [selected_wrappers], before [rn] is attached. *)
Record selected_wrapper : Type := mkSelected {
  sw_id : Z;
  sw_wrapper_html : html;
  sw_word_id : Z;
  sw_representation_html : html
}.

(** [meaning_wrappers mw JOIN words w ON mw.word_id = w.id
     JOIN daily_words dw ON mw.word_id = dw.word_id] *)
Definition joined (db : database) (dw : list Z) : list selected_wrapper :=
  flat_map (fun mw =>
    flat_map (fun w =>
      flat_map (fun d =>
        if (mw_word_id mw =? w_id w) && (mw_word_id mw =? d)
        then [mkSelected (mw_id mw) (wrapper_html mw) (mw_word_id mw)
                         (representation_html w)]
        else [])
      dw)
    (words db))
  (meaning_wrappers db).

(** [ROW_NUMBER() OVER (PARTITION BY part ORDER BY key)] *)
Definition numbered {A} (l : list A) : list (A * nat) :=
  combine l (seq 1 (length l)).

Definition row_number_over {A} (part : A -> Z) (key : A -> string) (rows : list A)
  : list (A * nat) :=
  flat_map (fun p =>
              numbered (order_by (key_leb key) (filter (fun r => part r =? p) rows)))
           (distinct (map part rows)).

(** One dict of the result. *)
Record daily_row : Type := mkDaily {
  meaning_wrapper : html;
  representation : html;
  word_id : Z
}.

(** The whole query of lines 65-90, for one seed. *)
Definition daily_query {RT : RealText} (date_seed : Z) (db : database) : list daily_row :=
  let selected_wrappers :=
    row_number_over sw_word_id (fun r => sort_key date_seed (sw_id r))
                    (joined db (daily_words date_seed db)) in
  let rn1 := filter (fun rn => Nat.eqb (snd rn) 1) selected_wrappers in
  map (fun rn => mkDaily (sw_wrapper_html (fst rn)) (sw_representation_html (fst rn))
                         (sw_word_id (fst rn)))
      (order_by (fun a b => sw_word_id (fst a) <=? sw_word_id (fst b)) rn1).

(** Line 62: [int(hashlib.sha256(date_str.encode()).hexdigest(), 16) % 2**31] *)
Definition date_seed (date_str : str) : result Z :=
  b <- encode date_str ;;
  Ok (hashlib.hexdigest_int (hashlib.sha256 b) mod 2 ^ 31).

(** Lines 53-54: the date that is hashed is the argument, or today's
    date for [""].  [today] is what
    [datetime.now().strftime("%Y-%m-%d")] gives at the call. *)
Definition effective_date (today date_str : str) : str :=
  if nonempty date_str then date_str else today.

(** [get_daily_meaning_wrappers(date_str)] on a database file that
    holds the two tables, [db].  What [sqlite3] raises when the file
    cannot be opened, or has no such tables, is outside this model. *)
Definition get_daily_meaning_wrappers {RT : RealText} (today : str) (date_str : str)
    (db : database) : result (list daily_row) :=
  let date_str := effective_date today date_str in
  seed <- date_seed date_str ;;
  Ok (daily_query seed db).

(* ================================================================== *)
(** * The order in which SQLite reads the tables

    The query names no order for rows whose sort keys are equal; they
    come out in the order in which the engine met them.  On the schema
    that [store_extracted_results] creates, the engine meets the rows
    of [words] by rowid, which is the [id], and reads [meaning_wrappers]
    through the index [idx_word_id]: by [word_id], and by rowid among
    the glosses of one word.  [as_read db] lists the rows of [db] in
    that order; it is the store as a query of the code finds it. *)

Definition rowid_leb (a b : word_row) : bool := w_id a <=? w_id b.

Definition idx_word_id_leb (a b : mw_row) : bool :=
  (mw_word_id a <? mw_word_id b)
  || ((mw_word_id a =? mw_word_id b) && (mw_id a <=? mw_id b)).

Definition as_read (db : database) : database :=
  mkDb (order_by rowid_leb (words db))
       (order_by idx_word_id_leb (meaning_wrappers db))
       (seq_words db) (seq_meaning_wrappers db).

(* ================================================================== *)
(** * draw.py: the offset-mode selection *)

(** One dict of [get_all_words]. *)
Record word_dict : Type := mkWordDict {
  wd_meaning_wrapper : html;
  wd_representation : html;
  wd_word_id : Z;
  wd_meaning_wrapper_id : Z
}.

(** [get_all_words()]: every (gloss, word) pair,
    [ORDER BY mw.word_id, mw.id]. *)
Definition get_all_words (db : database) : list word_dict :=
  order_by
    (fun a b =>
       (wd_word_id a <? wd_word_id b)
       || ((wd_word_id a =? wd_word_id b)
           && (wd_meaning_wrapper_id a <=? wd_meaning_wrapper_id b)))
    (flat_map (fun mw =>
       flat_map (fun w =>
         if mw_word_id mw =? w_id w
         then [mkWordDict (wrapper_html mw) (representation_html w)
                          (mw_word_id mw) (mw_id mw)]
         else [])
       (words db))
     (meaning_wrappers db)).

(** Line 403: [int(hashlib.md5(date_str.encode()).hexdigest(), 16) % (2**32)] *)
Definition offset_seed (date_str : str) : result Z :=
  b <- encode date_str ;;
  Ok (hashlib.hexdigest_int (hashlib.md5 b) mod 2 ^ 32).

(** [generate_word_date(date_str=..., offset=...)], up to the dict that
    is handed to [plot_word]; the drawing itself is not modelled. *)
Definition generate_word_date (fuel : nat) (date_str : str) (offset : Z) (db : database)
  : option (result word_dict) :=
  let data := get_all_words db in
  match offset_seed date_str with
  | Raise e => Some (Raise e)
  | Ok seed =>
      match random.sample fuel data 4 (random.seed seed) with
      | None => None
      | Some (Raise e) => Some (Raise e)
      | Some (Ok (data_rand, _)) =>
          match nth_error data_rand (Z.to_nat (offset mod 4)) with
          | Some d => Some (Ok d)
          | None => Some (Raise IndexError)
          end
      end
  end.

(* ================================================================== *)
(** * Sample data *)

Definition representation_container : option string :=
  Some "concept_light-representation"%string.

(** Sample markup: 読 with reading よ, then む in a span. *)
Definition yomu_html : html :=
  [Tag "div" ["concept_light-representation"%string]
     [Tag "span" ["furigana"%string]
        [Tag "span" ["kanji-1-up"%string; "kanji"%string] [NavigableString [12424]];
         Tag "span" [] []];
      Tag "span" ["text"%string]
        [NavigableString [10; 32; 35501]; Tag "span" [] [NavigableString [12416]]]]].

(** 日本 written as one string, with the readings に and ほん. *)
Definition nihon_html : html :=
  [Tag "div" ["concept_light-representation"%string]
     [Tag "span" ["furigana"%string]
        [Tag "span" [] [NavigableString [12395]];
         Tag "span" [] [NavigableString [12411; 12435]]];
      Tag "span" ["text"%string] [NavigableString [26085; 26412]]]].

(** Three readings against two characters. *)
Definition mismatch_html : html :=
  [Tag "div" ["concept_light-representation"%string]
     [Tag "span" ["furigana"%string]
        [Tag "span" [] [NavigableString [12395]];
         Tag "span" [] [NavigableString [12411]];
         Tag "span" [] [NavigableString [12435]]];
      Tag "span" ["text"%string] [NavigableString [26085; 26412]]]].


(* ================================================================== *)
(** * Vocabulary of the store properties *)

(** What the insert loop of [store_extracted_results] does to the
    tables when the engine carries out every statement. *)
Definition add_wrappers (word_id : Z) (wrappers : list html) (d : database) : database :=
  fold_left (fun d wrapper => snd (add_meaning_wrapper word_id wrapper d)) wrappers d.

Definition add_entry (d : database) (e : entry) : database :=
  let (word_id, d1) := add_word (entry_representation e) d in
  add_wrappers word_id (entry_meaning_wrappers e) d1.

Definition insert_all (entries : list entry) (d : database) : database :=
  fold_left add_entry entries d.

(** The engine carried out a run of statements: the slots used up are
    all [None]. *)
Definition quiet (slots : list (option exn)) : Prop :=
  Forall (fun x => x = None) slots.

Definition passes (fs fs' : list (option exn)) : Prop :=
  exists slots, fs = slots ++ fs' /\ quiet slots.

(** The engine failed with [e] at the first slot that holds a failure. *)
Definition raises (fs : list (option exn)) (e : exn) : Prop :=
  exists slots rest, fs = slots ++ Some e :: rest /\ quiet slots.

(** A statement sequence refines a function on the tables: inside an
    open transaction on a connection without foreign-key checks, it
    either applies the function to the working copy, or raises what
    the engine raised; the committed tables are not touched. *)
Definition refines {A} (m : M A) (f : database -> A * database) : Prop :=
  forall c w, txn c = Some w -> foreign_keys c = false ->
    match m c with
    | (Ok a, c') =>
        a = fst (f w) /\ txn c' = Some (snd (f w)) /\ disk c' = disk c /\
        foreign_keys c' = false /\ passes (faults c) (faults c')
    | (Raise e, c') =>
        (exists w', txn c' = Some w') /\ disk c' = disk c /\ raises (faults c) e
    end.

(** The schema's constraints on the rows: primary keys, and the foreign
    key of a gloss. *)
Definition primary_keys (d : database) : Prop :=
  NoDup (map w_id (words d)) /\ NoDup (map mw_id (meaning_wrappers d)).

Definition foreign_key_ok (d : database) : Prop :=
  forall g, In g (meaning_wrappers d) -> In (mw_word_id g) (map w_id (words d)).

(** The two ways in which a batch may end: every row is in the file,
    or the file is as it was and the engine's exception is the result. *)
Definition all_or_nothing (entries : list entry) (db : database)
    (fs : list (option exn)) (p : result unit * connection) : Prop :=
  (fst p = Ok tt /\ disk (snd p) = insert_all entries db /\ txn (snd p) = None)
  \/
  (exists e, fst p = Raise e /\ disk (snd p) = db /\ txn (snd p) = None /\
             raises fs e).

(** Sample batch: one word with two glosses, one word with one. *)
Definition sample_results : list (list entry) :=
  [[mkEntry [NavigableString (str_of_string "w1")]
            [[NavigableString (str_of_string "g1")];
             [NavigableString (str_of_string "g2")]]];
   [mkEntry [NavigableString (str_of_string "w2")]
            [[NavigableString (str_of_string "g3")]]]].

(** An engine that fails at the sixth statement (the first gloss). *)
Definition disk_full : list (option exn) :=
  [None; None; None; None; None; Some (OperationalError "database or disk is full")].

(** A scraped page with one word entry: a gloss with an example
    sentence and a gloss without one. *)
Definition gloss_with_sentence : node :=
  Tag "div" ["meaning-wrapper"%string]
    [Tag "span" ["meaning-meaning"%string] [NavigableString (str_of_string "to read")];
     Tag "span" ["supplemental_info"%string] [NavigableString (str_of_string "Godan")];
     Tag "div" ["sentence"%string]
       [Tag "ul" ["japanese"%string]
          [Tag "li" []
             [Tag "span" ["furigana"%string] [NavigableString [12411; 12435]];
              Tag "span" ["unlinked"%string] [NavigableString [26412]]]];
        Tag "span" ["english"%string] [NavigableString (str_of_string "I read a book.")]]].

Definition gloss_without_sentence : node :=
  Tag "div" ["meaning-wrapper"%string]
    [Tag "span" ["meaning-meaning"%string] [NavigableString (str_of_string "to recite")]].

Definition sample_page : node :=
  BeautifulSoup
    [Tag "div" ["concept_light"%string]
       (yomu_html ++ [gloss_with_sentence; gloss_without_sentence])].

(* ================================================================== *)
(** * Vocabulary of the selection properties *)

(** The word ids that have a gloss: the candidates of [daily_words]. *)
Definition qualifying_word_ids (db : database) : list Z :=
  distinct (map mw_word_id (meaning_wrappers db)).

(** No two candidates of an [ORDER BY] of the query share a sort key. *)
Definition keys_distinct {RT : RealText} (seed : Z) (db : database) : Prop :=
  NoDup (map (sort_key seed) (qualifying_word_ids db)) /\
  NoDup (map (fun g => sort_key seed (mw_id g)) (meaning_wrappers db)).

(** Every id of the tables is non-negative and its product with the
    seed is below 10^15: no sort key is cut short. *)
Definition small_products (seed : Z) (db : database) : Prop :=
  forall g, In g (meaning_wrappers db) ->
    0 <= mw_id g /\ mw_id g * seed < 10 ^ 15 /\
    0 <= mw_word_id g /\ mw_word_id g * seed < 10 ^ 15.

(** Two lists of rows of the same table contents. *)
Definition same_rows (db1 db2 : database) : Prop :=
  Permutation (words db1) (words db2) /\
  Permutation (meaning_wrappers db1) (meaning_wrappers db2).

(** Sample stores and dates.  The ids of the sample stores are small:
    no product with a seed leaves the 64-bit range, and the text of a
    REAL is never asked for.  A closed example names this engine, which
    has no such text. *)
Definition no_real : RealText := fun _ _ => EmptyString.

Definition plain (s : string) : html := [NavigableString (str_of_string s)].

(** Words 1..5, one gloss each. *)
Definition five_words : database :=
  mkDb [mkWord 1 (plain "w1"); mkWord 2 (plain "w2"); mkWord 3 (plain "w3");
        mkWord 4 (plain "w4"); mkWord 5 (plain "w5")]
       [mkMw 1 1 (plain "g1"); mkMw 2 2 (plain "g2"); mkMw 3 3 (plain "g3");
        mkMw 4 4 (plain "g4"); mkMw 5 5 (plain "g5")]
       5 5.

(** The same rows, listed backwards. *)
Definition five_words_reversed : database :=
  mkDb (rev (words five_words)) (rev (meaning_wrappers five_words)) 5 5.

(** Words 1..3, the first with two glosses. *)
Definition three_words : database :=
  mkDb [mkWord 1 (plain "w1"); mkWord 2 (plain "w2"); mkWord 3 (plain "w3")]
       [mkMw 1 1 (plain "g1"); mkMw 2 1 (plain "g2"); mkMw 3 2 (plain "g3");
        mkMw 4 3 (plain "g4")]
       3 4.

(** Five words whose ids start at 10^15; the rows of [meaning_wrappers]
    as a scan of the table meets them, by gloss id. *)
Definition tied_words : database :=
  mkDb [mkWord 1000000000000000 (plain "w0"); mkWord 1000000000000001 (plain "w1");
        mkWord 1000000000000002 (plain "w2"); mkWord 1000000000000003 (plain "w3");
        mkWord 1000000000000004 (plain "w4")]
       [mkMw 1 1000000000000004 (plain "g1"); mkMw 2 1000000000000003 (plain "g2");
        mkMw 3 1000000000000000 (plain "g3"); mkMw 4 1000000000000001 (plain "g4");
        mkMw 5 1000000000000002 (plain "g5")]
       1000000000000004 5.

(** The same rows as a scan of the index on [word_id] meets them. *)
Definition tied_words_indexed : database :=
  mkDb (words tied_words)
       [mkMw 3 1000000000000000 (plain "g3"); mkMw 4 1000000000000001 (plain "g4");
        mkMw 5 1000000000000002 (plain "g5"); mkMw 2 1000000000000003 (plain "g2");
        mkMw 1 1000000000000004 (plain "g1")]
       1000000000000004 5.

(** Five words, one gloss each; with the seed of 2024-01-01 the product
    of the last id does not fit in 64 bits. *)
Definition overflow_words : database :=
  mkDb [mkWord 6 (plain "w6"); mkWord 7 (plain "w7"); mkWord 8 (plain "w8");
        mkWord 9 (plain "w9"); mkWord 10000000000 (plain "wx")]
       [mkMw 1 6 (plain "g1"); mkMw 2 7 (plain "g2"); mkMw 3 8 (plain "g3");
        mkMw 4 9 (plain "g4"); mkMw 5 10000000000 (plain "g5")]
       10000000000 5.

Definition date_2024_01_01 : str := str_of_string "2024-01-01".
Definition date_2054_08_18 : str := str_of_string "2054-08-18".

(** The seed as the specification words it: the first (leading) 31
    bits of the 256-bit digest, as an unsigned integer, mod 2^31. *)
Definition first_31_bits (digest : list Z) : Z :=
  Z.shiftr (hashlib.hexdigest_int digest) (256 - 31).

Definition date_seed_first_bits (date_str : str) : result Z :=
  b <- encode date_str ;;
  Ok (first_31_bits (hashlib.sha256 b) mod 2 ^ 31).

(** The projection of an offset-mode dict on the keys of a batch dict. *)
Definition as_daily_row (d : word_dict) : daily_row :=
  mkDaily (wd_meaning_wrapper d) (wd_representation d) (wd_word_id d).

(* ================================================================== *)
(** * draw.py: layout helpers *)

(** [string[i]] for an index that is not negative; [None] past the end
    (where Python raises [IndexError]). *)
Definition char_at (string : str) (i : Z) : option char :=
  if i <? 0 then None else nth_error string (Z.to_nat i).

Definition is_semicolon (c : option char) : bool :=
  match c with
  | Some c => c =? 59
  | None => false
  end.

(** The [while True] loop of [get_center_semicolon_pos]: one round per
    distance from the middle, left before right. *)
Fixpoint semicolon_loop (fuel : nat) (string : str) (idx : Z) : option Z :=
  match fuel with
  | O => None
  | S fuel' =>
      let idx := idx + 1 in
      let length := Z.of_nat (length string) in
      let left_idx := length / 2 - idx in
      let right_idx := length / 2 + idx in
      if (0 <=? left_idx) && is_semicolon (char_at string left_idx) then Some left_idx
      else if (right_idx <? length) && is_semicolon (char_at string right_idx)
           then Some right_idx
      else if (left_idx <? 0) && (length <=? right_idx) then Some (-1)
      else semicolon_loop fuel' string idx
  end.

(** [get_center_semicolon_pos(string)].  The loop leaves after at most
    [len(string) // 2 + 1] rounds; that many are provided. *)
Definition get_center_semicolon_pos (string : str) : option (result Z) :=
  let length := Z.of_nat (length string) in
  match char_at string (length / 2) with
  | None => Some (Raise IndexError)
  | Some c =>
      if c =? 59 then Some (Ok (length / 2))
      else option_map Ok (semicolon_loop (S (List.length string)) string 0)
  end.

(** The loop of [get_font_size_constraint_width] and of
    [get_font_size_constraint_height].  What cairo measures at a font
    size is not modelled; [fits font_size] stands for the test of the
    loop ([extents.x_advance < max_width], or the sum of the two heights
    against [max_height]) at that size. *)
Fixpoint font_size_loop (fuel : nat) (fits : Z -> bool) (font_size min_size : Z)
  : option Z :=
  match fuel with
  | O => None
  | S fuel' =>
      if fits font_size then Some font_size
      else
        let font_size := font_size - 1 in
        if font_size <? min_size then Some font_size
        else font_size_loop fuel' fits font_size min_size
  end.

(** [get_font_size_constraint_width(ctx, text, max_width, initial_size,
    min_size)]; the loop runs at most [initial_size - min_size + 1]
    times (once when that is not positive). *)
Definition get_font_size_constraint_width (fits : Z -> bool)
    (initial_size min_size : Z) : option Z :=
  font_size_loop (S (Z.to_nat (initial_size - min_size))) fits initial_size min_size.

(** [get_font_size_constraint_height(ctx, text, furigana, max_height,
    initial_size, min_size)]: the same loop with the other test. *)
Definition get_font_size_constraint_height (fits : Z -> bool)
    (initial_size min_size : Z) : option Z :=
  font_size_loop (S (Z.to_nat (initial_size - min_size))) fits initial_size min_size.

(** [data[i]] on a list: negative indices count from the end. *)
Definition list_index {A} (data : list A) (i : Z) : result A :=
  let n := Z.of_nat (length data) in
  let j := if i <? 0 then i + n else i in
  if (j <? 0) || (n <=? j) then Raise IndexError
  else match nth_error data (Z.to_nat j) with
       | Some d => Ok d
       | None => Raise IndexError
       end.

(** [generate_word(word_id=...)], up to the dict that is handed to
    [plot_word]. *)
Definition generate_word (word_id : Z) (db : database) : result word_dict :=
  list_index (get_all_words db) word_id.

(* ================================================================== *)
(** * main.py: the delivery to the display service *)

(** [get_4_daily_words()]: representation and gloss markup of each row
    of the daily selection, joined into one string.  The markup of a
    joined string is the markup of its parts, with the strings that
    meet at the seam merged. *)
Definition get_4_daily_words {RT : RealText} (today : str) (db : database) : result (list html) :=
  words <- get_daily_meaning_wrappers today [] db ;;
  Ok (map (fun word => merge_strings (representation word ++ meaning_wrapper word))
          words).

(** What [json.load] returns. *)
Inductive json : Type :=
| JNull
| JBool (b : bool)
| JNumber (lexeme : string)
| JString (s : str)
| JArray (items : list json)
| JObject (members : list (str * json)).

(** The dict of a JSON object: of two members with the same name the
    later one counts. *)
Fixpoint dict_get (key : str) (members : list (str * json)) : option json :=
  match members with
  | [] => None
  | (k, v) :: rest =>
      match dict_get key rest with
      | Some v' => Some v'
      | None => if str_eqb k key then Some v else None
      end
  end.

Fixpoint starts_with (sub s : str) : bool :=
  match sub, s with
  | [], _ => true
  | x :: sub', y :: s' => (x =? y) && starts_with sub' s'
  | _ :: _, [] => false
  end.

(** [sub in s] for two strings *)
Fixpoint is_substring (sub s : str) : bool :=
  starts_with sub s ||
  match s with
  | [] => false
  | _ :: s' => is_substring sub s'
  end.

Definition is_string (key : str) (v : json) : bool :=
  match v with
  | JString s => str_eqb s key
  | _ => false
  end.

(** [key in v]; [None]: the value is not a container ([TypeError]). *)
Definition json_contains (key : str) (v : json) : option bool :=
  match v with
  | JObject members =>
      Some (match dict_get key members with Some _ => true | None => false end)
  | JArray items => Some (existsb (is_string key) items)
  | JString s => Some (is_substring key s)
  | JNull | JBool _ | JNumber _ => None
  end.

(** [v[key]] for a string [key] where [key in v] held; [None]: a list
    or a string, which take no string as an index ([TypeError]). *)
Definition json_subscript (key : str) (v : json) : option json :=
  match v with
  | JObject members => dict_get key members
  | _ => None
  end.

(** The history file as [open] and [json.load] find it.  A file that
    is missing, is no JSON or cannot be read raises, and each of these
    is caught: [trnml_stat] stays the empty dict. *)
Inductive history_file : Type :=
| Unreadable
| Loaded (v : json).

Definition last_datatime : str := str_of_string "last_datatime".

(** What [json.dump({"last_datatime": today_str}, fp, indent=2)] leaves
    in the file. *)
Definition sent_on (today_str : str) : history_file :=
  Loaded (JObject [(last_datatime, JString today_str)]).

Section Delivery.
(** The request body, and what builds it from the words: [json.dumps],
    [compress_text] (zlib and base64, not modelled) and the dict around
    them. *)
Context {body : Type} {RT : RealText} (payload_of : list html -> body).

(** How a call of [send_to_trmnl] ends. *)
Inductive send_outcome : Type :=
| NoKey                               (* the environment has no API key *)
| Pass                                (* sent today already *)
| Posted (payload : body) (status_code : Z)
| TypeError_raised                    (* the history is no dict *)
| Payload_raised (e : exn)
| Post_raised (payload : body)
| Write_raised (payload : body).

(** [send_to_trmnl()].  [today_str] is the date of the call, [today]
    the date [get_daily_meaning_wrappers] reads from the clock when the
    payload is built; [api_key] is the environment variable; [post]
    is [requests.post] (the status code, or [None] when it raises);
    [writable] tells whether the history file can be opened for
    writing.  The result is the outcome and the history file after
    the call. *)
Definition send_to_trmnl (today_str today : str) (api_key : option str)
    (history : history_file) (db : database)
    (post : str -> body -> option Z) (writable : bool)
  : send_outcome * history_file :=
  match api_key with
  | None => (NoKey, history)
  | Some TRMNL_API_KEY =>
      let trnml_stat :=
        match history with
        | Loaded v => v
        | Unreadable => JObject []
        end in
      let send :=
        match get_4_daily_words today db with
        | Raise e => (Payload_raised e, history)
        | Ok words =>
            let payload := payload_of words in
            match post TRMNL_API_KEY payload with
            | None => (Post_raised payload, history)
            | Some status_code =>
                if status_code =? 200 then
                  if writable then (Posted payload status_code, sent_on today_str)
                  else (Write_raised payload, history)
                else (Posted payload status_code, history)
            end
        end in
      match json_contains last_datatime trnml_stat with
      | None => (TypeError_raised, history)
      | Some false => send
      | Some true =>
          match json_subscript last_datatime trnml_stat with
          | None => (TypeError_raised, history)
          | Some v => if is_string today_str v then (Pass, history) else send
          end
      end
  end.
End Delivery.

(* ================================================================== *)
(** * Vocabulary of the layout properties *)

(** The index [len(string) // 2] the search starts from. *)
Definition middle (string : str) : Z := Z.of_nat (length string) / 2.

Definition no_semicolon (string : str) : Prop := ~ In 59 string.

(** [p] is the index of a semicolon, no semicolon is nearer to the
    middle, and of two at the same distance [p] is the left one. *)
Definition nearest_semicolon (string : str) (p : Z) : Prop :=
  char_at string p = Some 59 /\
  forall q, char_at string q = Some 59 ->
    Z.abs (p - middle string) < Z.abs (q - middle string) \/
    (Z.abs (p - middle string) = Z.abs (q - middle string) /\ p <= q).

(** What a search for a font size may return: the largest size up to
    [initial_size] that fits, when it is [initial_size] itself or at
    least [min_size]; otherwise, nothing from [initial_size] down having
    fitted, the size below the last one measured. *)
Definition largest_fitting (fits : Z -> bool) (initial_size min_size r : Z) : Prop :=
  r <= initial_size /\
  (forall s, r < s <= initial_size -> fits s = false) /\
  ((fits r = true /\ (r = initial_size \/ min_size <= r)) \/
   r = Z.min initial_size min_size - 1).

(* ================================================================== *)
(** * Vocabulary of the properties of [get_all_words] *)

(** The dict that a gloss and the word it is joined with give. *)
Definition word_dict_of (g : mw_row) (w : word_row) : word_dict :=
  mkWordDict (wrapper_html g) (representation_html w) (mw_word_id g) (mw_id g).

(** [ORDER BY mw.word_id, mw.id], as a relation and as the test the
    sort applies. *)
Definition by_word_then_id (a b : word_dict) : Prop :=
  wd_word_id a < wd_word_id b \/
  (wd_word_id a = wd_word_id b /\ wd_meaning_wrapper_id a <= wd_meaning_wrapper_id b).

Definition word_order_leb (a b : word_dict) : bool :=
  (wd_word_id a <? wd_word_id b)
  || ((wd_word_id a =? wd_word_id b)
      && (wd_meaning_wrapper_id a <=? wd_meaning_wrapper_id b)).

(** The rows of the join before they are sorted. *)
Definition gloss_word_pairs (db : database) : list word_dict :=
  flat_map (fun mw =>
    flat_map (fun w =>
      if mw_word_id mw =? w_id w then [word_dict_of mw w] else [])
    (words db))
  (meaning_wrappers db).

(** The markup of a dict, and the same pairs as a batch holds them. *)
Definition pair_of (r : word_dict) : html * html :=
  (wd_representation r, wd_meaning_wrapper r).

Definition batch_pairs (entries : list entry) : list (html * html) :=
  flat_map (fun e => map (fun w => (entry_representation e, w))
                         (entry_meaning_wrappers e))
           entries.

(** No word without a gloss. *)
Definition every_word_has_gloss (d : database) : Prop :=
  forall w, In w (words d) ->
    exists g, In g (meaning_wrappers d) /\ mw_word_id g = w_id w.

(* ================================================================== *)
(** * Vocabulary of the properties of the stored markup *)




(* ================================================================== *)
(** * Vocabulary of the rows of the daily selection *)

(** The row [r] is made of a stored gloss and the stored word it
    belongs to, and no gloss of that word has a sort key that is, as
    text, before the key of this one. *)
Definition first_gloss_of {RT : RealText} (seed : Z) (db : database) (r : daily_row) : Prop :=
  exists g w,
    In g (meaning_wrappers db) /\ In w (words db) /\
    mw_word_id g = w_id w /\ word_id r = w_id w /\
    meaning_wrapper r = wrapper_html g /\
    representation r = representation_html w /\
    forall g', In g' (meaning_wrappers db) -> mw_word_id g' = word_id r ->
      String.leb (sort_key seed (mw_id g)) (sort_key seed (mw_id g')) = true.

(** The id [a] comes before the id [b]: its sort key is, as text, not
    after the key of [b], and when the two keys are equal [a] is not
    the larger id. *)
Definition key_then_id {RT : RealText} (seed a b : Z) : Prop :=
  String.leb (sort_key seed a) (sort_key seed b) = true /\
  (String.leb (sort_key seed b) (sort_key seed a) = true -> a <= b).

(** The row [r] is made of a stored gloss and its stored word, and the
    gloss comes before every gloss of that word, by key and then by
    id. *)
Definition least_gloss_of {RT : RealText} (seed : Z) (db : database) (r : daily_row)
  : Prop :=
  exists g w,
    In g (meaning_wrappers db) /\ In w (words db) /\
    mw_word_id g = w_id w /\ word_id r = w_id w /\
    meaning_wrapper r = wrapper_html g /\
    representation r = representation_html w /\
    forall g', In g' (meaning_wrappers db) -> mw_word_id g' = word_id r ->
      key_then_id seed (mw_id g) (mw_id g').

(** The words of a generator state are not negative. *)
Definition words_nonneg (s : random.state) : Prop :=
  Forall (fun x => 0 <= x) (random.mt s).

(* ================================================================== *)
(** * Properties *)

(** ** The markup extractor *)

Lemma zip_blocks_fields (ks fs : list str) (fss : list (option str)) :
  length ks = length fs -> length fss = length fs ->
  map kanji (zip_blocks ks fs fss) = ks /\
  map furigana (zip_blocks ks fs fss) = fs /\
  map furigana_span (zip_blocks ks fs fss) = fss.
Proof.
  revert fs fss.
  induction ks as [|k ks IH]; intros [|f fs] [|s fss] Hk Hs;
    simpl in *; try discriminate; auto.
  injection Hk as Hk. injection Hs as Hs.
  destruct (IH fs fss Hk Hs) as (H1 & H2 & H3).
  now rewrite H1, H2, H3.
Qed.

Lemma furigana_children_length (children : list node) (fs : list str)
    (fss : list (option str)) :
  furigana_children children = Ok (fs, fss) -> length fss = length fs.
Proof.
  revert fs fss.
  induction children as [|c cs IH]; intros fs fss H; simpl in H.
  - now inversion H.
  - destruct (furigana_child c) as [[f s]|e]; simpl in H; [|discriminate].
    destruct (furigana_children cs) as [[fl fsl]|e]; simpl in H; [|discriminate].
    inversion H; subst. simpl. f_equal. now apply IH.
Qed.

Lemma furigana_region_length (concept_div : node) (fs : list str)
    (fss : list (option str)) :
  furigana_region concept_div = Ok (fs, fss) -> length fss = length fs.
Proof.
  unfold furigana_region.
  destruct (find concept_div "span" (Some "furigana"%string)).
  - apply furigana_children_length.
  - intros H. now inversion H.
Qed.

Lemma combined_text_length (units : list TextBlock) :
  length (combined_text units) = sum_len units.
Proof.
  induction units as [|u us IH]; simpl; [reflexivity|].
  rewrite length_app, IH. unfold TextBlock_len.
  destruct (is_span u); simpl; [reflexivity|].
  now rewrite length_map.
Qed.

(** C3: the reconciliation of readings and display units.  With [R]
    readings and the units [u_1..u_n] read from the container: if
    [R = n] the blocks pair reading [i] with unit [i], each unit kept
    whole; else if [R] is the sum of the unit lengths (1 for a span,
    the character count otherwise) the plain units are split into
    characters, the spans kept whole, and the blocks pair by position;
    otherwise the call raises the mismatch error and gives no blocks. *)
Theorem extract_representation_reconciles (h : html) (concept_div : node)
    (readings : list str) (spans : list (option str)) (units : list TextBlock) :
  find (BeautifulSoup h) "div" representation_container = Some concept_div ->
  furigana_region concept_div = Ok (readings, spans) ->
  text_region concept_div = Ok units ->
  (length readings = length units ->
     exists blocks,
       extract_representation h = Ok blocks /\
       map kanji blocks = map tb_char units /\
       map furigana blocks = readings /\
       map furigana_span blocks = spans)
  /\
  (length readings <> length units ->
   length readings = sum_len units ->
     exists blocks,
       extract_representation h = Ok blocks /\
       map kanji blocks =
         flat_map (fun u => if is_span u then [tb_char u]
                            else map (fun c => [c]) (tb_char u)) units /\
       map furigana blocks = readings /\
       map furigana_span blocks = spans)
  /\
  (length readings <> length units ->
   length readings <> sum_len units ->
     extract_representation h =
       Raise (ValueError "Mismatch between furigana and text lengths")).
Proof.
  intros Hfind Hfur Htext.
  pose proof (furigana_region_length _ _ _ Hfur) as Hlen.
  unfold extract_representation, representation_container in *.
  rewrite Hfind, Hfur. simpl. rewrite Htext. simpl.
  unfold reconcile.
  repeat split.
  - intros Heq. rewrite (proj2 (Nat.eqb_eq _ _) Heq).
    eexists; split; [reflexivity|].
    apply zip_blocks_fields; [now rewrite length_map|assumption].
  - intros Hne Hsum.
    rewrite (proj2 (Nat.eqb_neq _ _) Hne), (proj2 (Nat.eqb_eq _ _) Hsum).
    eexists; split; [reflexivity|].
    apply zip_blocks_fields; [now rewrite combined_text_length|assumption].
  - intros Hne Hnsum.
    now rewrite (proj2 (Nat.eqb_neq _ _) Hne), (proj2 (Nat.eqb_neq _ _) Hnsum).
Qed.

(** The three cases on sample markup. *)
Example extract_representation_yomu :
  extract_representation yomu_html =
    Ok [mkRepresentationBlock [35501] [12424] None;
        mkRepresentationBlock [12416] [] None].
Proof. reflexivity. Qed.

Example extract_representation_nihon :
  extract_representation nihon_html =
    Ok [mkRepresentationBlock [26085] [12395] None;
        mkRepresentationBlock [26412] [12411; 12435] None].
Proof. reflexivity. Qed.

Example extract_representation_mismatch :
  extract_representation mismatch_html =
    Raise (ValueError "Mismatch between furigana and text lengths").
Proof. reflexivity. Qed.

Lemma extract_representation_reconciles_witness :
  exists blocks,
    extract_representation nihon_html = Ok blocks /\
    map kanji blocks = [[26085]; [26412]] /\
    map furigana blocks = [[12395]; [12411; 12435]] /\
    map furigana_span blocks = [None; None].
Proof.
  refine
    (proj1 (proj2
       (extract_representation_reconciles nihon_html
          (Tag "div" ["concept_light-representation"%string]
             [Tag "span" ["furigana"%string]
                [Tag "span" [] [NavigableString [12395]];
                 Tag "span" [] [NavigableString [12411; 12435]]];
              Tag "span" ["text"%string] [NavigableString [26085; 26412]]])
          [[12395]; [12411; 12435]] [None; None]
          [mkTextBlock [26085; 26412] false]
          eq_refl eq_refl eq_refl)) _ eq_refl).
  simpl. discriminate.
Defined.





(** ** The entry store: statements refine functions on the tables *)

Lemma quiet_nil : quiet [].
Proof. constructor. Qed.

Lemma passes_refl (fs : list (option exn)) : passes fs fs.
Proof. exists []. split; [reflexivity|apply quiet_nil]. Qed.

Lemma passes_trans (fs1 fs2 fs3 : list (option exn)) :
  passes fs1 fs2 -> passes fs2 fs3 -> passes fs1 fs3.
Proof.
  intros (s1 & -> & Q1) (s2 & -> & Q2).
  exists (s1 ++ s2). split; [now rewrite app_assoc|].
  apply Forall_app; now split.
Qed.

Lemma passes_raises (fs fs' : list (option exn)) (e : exn) :
  passes fs fs' -> raises fs' e -> raises fs e.
Proof.
  intros (s1 & -> & Q1) (s2 & rest & -> & Q2).
  exists (s1 ++ s2), rest. split; [now rewrite app_assoc|].
  apply Forall_app; now split.
Qed.

(** One question to the engine. *)
Lemma engine_cases (c : connection) :
  (exists c', engine c = (Ok tt, c') /\ disk c' = disk c /\ txn c' = txn c /\
              foreign_keys c' = foreign_keys c /\ passes (faults c) (faults c'))
  \/
  (exists e c', engine c = (Raise e, c') /\ disk c' = disk c /\ txn c' = txn c /\
                foreign_keys c' = foreign_keys c /\ raises (faults c) e).
Proof.
  unfold engine.
  destruct (faults c) as [|[e|] fs] eqn:Hf.
  - left. exists c. rewrite Hf. repeat split; auto using passes_refl.
  - right. exists e. eexists. split; [reflexivity|]. simpl. repeat split.
    exists [], fs. split; [reflexivity|apply quiet_nil].
  - left. eexists. split; [reflexivity|]. simpl. repeat split.
    exists [None]. split; [reflexivity|]. now repeat constructor.
Qed.

Lemma refines_ret {A} (a : A) : refines (ret a) (fun d => (a, d)).
Proof.
  intros c w Ht Hfk. simpl. repeat split; auto using passes_refl.
Qed.

Lemma refines_bind {A B} (m : M A) (k : A -> M B)
    (f : database -> A * database) (g : A -> database -> B * database) :
  refines m f -> (forall a, refines (k a) (g a)) ->
  refines (bindM m k) (fun d => g (fst (f d)) (snd (f d))).
Proof.
  intros Hm Hk c w Ht Hfk. unfold bindM.
  specialize (Hm c w Ht Hfk).
  destruct (m c) as [[a|e] c1].
  - destruct Hm as (-> & Ht1 & Hd1 & Hfk1 & Hp1).
    specialize (Hk (fst (f w)) c1 _ Ht1 Hfk1).
    destruct (k (fst (f w)) c1) as [[b|e] c2].
    + destruct Hk as (-> & Ht2 & Hd2 & Hfk2 & Hp2).
      repeat split; auto; [congruence|eauto using passes_trans].
    + destruct Hk as (Hw & Hd2 & Hr).
      repeat split; auto; [congruence|eauto using passes_raises].
  - exact Hm.
Qed.

Lemma refines_ext {A} (m : M A) (f g : database -> A * database) :
  (forall d, f d = g d) -> refines m f -> refines m g.
Proof.
  intros Hfg Hm c w Ht Hfk. specialize (Hm c w Ht Hfk).
  destruct (m c) as [[a|e] c']; [rewrite <- Hfg|]; exact Hm.
Qed.

Lemma refines_engine : refines engine (fun d => (tt, d)).
Proof.
  intros c w Ht Hfk.
  destruct (engine_cases c) as [(c' & -> & Hd & Ht' & Hfk' & Hp)
                               |(e & c' & -> & Hd & Ht' & Hfk' & Hr)].
  - simpl. repeat split; auto; congruence.
  - repeat split; auto. exists w. congruence.
Qed.

Lemma refines_insert_word (rep : html) :
  refines (insert_word rep) (add_word rep).
Proof.
  unfold insert_word.
  refine (refines_ext _ _ _ _
            (refines_bind engine _ (fun d => (tt, d)) (fun _ => add_word rep)
               refines_engine _)); [reflexivity|].
  intros _ c w Ht Hfk. unfold current. rewrite Ht.
  unfold add_word, bindM, write, ret. simpl.
  repeat split; auto using passes_refl.
Qed.

Lemma refines_insert_meaning_wrapper (word_id : Z) (wrapper : html) :
  refines (insert_meaning_wrapper word_id wrapper)
          (add_meaning_wrapper word_id wrapper).
Proof.
  unfold insert_meaning_wrapper.
  refine (refines_ext _ _ _ _
            (refines_bind engine _ (fun d => (tt, d))
               (fun _ => add_meaning_wrapper word_id wrapper)
               refines_engine _)); [reflexivity|].
  intros _ c w Ht Hfk. rewrite Hfk. simpl. unfold current. rewrite Ht.
  unfold add_meaning_wrapper, bindM, write, ret. simpl.
  repeat split; auto using passes_refl.
Qed.

Lemma refines_for_each {A} (xs : list A) (body : A -> M unit)
    (f : A -> database -> database) :
  (forall x, refines (body x) (fun d => (tt, f x d))) ->
  refines (for_each xs body) (fun d => (tt, fold_left (fun d x => f x d) xs d)).
Proof.
  intros Hbody. induction xs as [|x xs IH]; simpl.
  - apply refines_ret.
  - refine (refines_ext _ _ _ _
              (refines_bind (body x) _ (fun d => (tt, f x d))
                 (fun _ d => (tt, fold_left (fun d x => f x d) xs d))
                 (Hbody x) (fun _ => IH))).
    reflexivity.
Qed.

Lemma refines_store_entry (e : entry) :
  refines (store_entry e) (fun d => (tt, add_entry d e)).
Proof.
  unfold store_entry.
  refine (refines_ext _ _ _ _
            (refines_bind (insert_word (entry_representation e)) _
               (add_word (entry_representation e))
               (fun word_id d =>
                  (tt, add_wrappers word_id (entry_meaning_wrappers e) d))
               (refines_insert_word _) _)); [reflexivity|].
  intros word_id.
  apply (refines_for_each (entry_meaning_wrappers e) _
           (fun wrapper d => snd (add_meaning_wrapper word_id wrapper d))).
  intros wrapper.
  refine (refines_ext _ _ _ _
            (refines_bind (insert_meaning_wrapper word_id wrapper) _
               (add_meaning_wrapper word_id wrapper)
               (fun _ d => (tt, d))
               (refines_insert_meaning_wrapper _ _) (fun _ => refines_ret tt))).
  reflexivity.
Qed.

Lemma refines_insert_loop (entries : list entry) :
  refines (for_each entries store_entry) (fun d => (tt, insert_all entries d)).
Proof.
  apply (refines_for_each entries store_entry (fun e d => add_entry d e)).
  apply refines_store_entry.
Qed.

Lemma bindM_assoc {A B C} (m : M A) (f : A -> M B) (k : B -> M C) (c : connection) :
  bindM (bindM m f) k c = bindM m (fun x => bindM (f x) k) c.
Proof.
  unfold bindM. destruct (m c) as [[a|e] c']; reflexivity.
Qed.

(** The transaction of lines 218-235: all inserts and the commit, or
    the rollback and the exception that came up. *)
Lemma insert_transaction_cases (entries : list entry) (c : connection) :
  txn c = Some (disk c) -> foreign_keys c = false ->
  all_or_nothing entries (disk c) (faults c)
    (try_except_reraise (for_each entries store_entry ;;; commit) rollback c).
Proof.
  intros Ht Hfk. unfold all_or_nothing, try_except_reraise, bindM.
  pose proof (refines_insert_loop entries c _ Ht Hfk) as Hloop.
  destruct (for_each entries store_entry c) as [[u|e] c1].
  - simpl in Hloop. destruct Hloop as (_ & Ht1 & Hd1 & Hfk1 & Hp1).
    unfold commit, bindM.
    destruct (engine_cases c1) as [(c2 & -> & Hd2 & Ht2 & _ & Hp2)
                                  |(e & c2 & -> & Hd2 & Ht2 & _ & Hr2)]; simpl.
    + left. unfold current. rewrite Ht2, Ht1. auto.
    + right. exists e. split; [reflexivity|]. split; [congruence|].
      split; [reflexivity|eauto using passes_raises].
  - destruct Hloop as (_ & Hd1 & Hr). simpl.
    right. exists e. auto.
Qed.

(** A statement in front of a block, outside any transaction. *)
Lemma all_or_nothing_engine (entries : list entry) (db : database)
    (fs : list (option exn)) (k : M unit) (c : connection) :
  disk c = db -> txn c = None -> passes fs (faults c) ->
  (forall c', disk c' = db -> txn c' = None ->
              foreign_keys c' = foreign_keys c -> passes fs (faults c') ->
              all_or_nothing entries db fs (k c')) ->
  all_or_nothing entries db fs (bindM engine (fun _ => k) c).
Proof.
  intros Hd Ht Hp Hk. unfold bindM.
  destruct (engine_cases c) as [(c' & -> & Hd' & Ht' & Hfk' & Hp')
                               |(e & c' & -> & Hd' & Ht' & _ & Hr)].
  - apply Hk; try congruence. eauto using passes_trans.
  - right. exists e. simpl. repeat split; try congruence.
    eauto using passes_raises.
Qed.

Lemma store_extracted_results_conn_cases (results : list (list entry))
    (db : database) (fs : list (option exn)) :
  all_or_nothing (concat results) db fs
    (store_extracted_results_conn results (sqlite3_connect db fs)).
Proof.
  unfold store_extracted_results_conn.
  set (body := create_if_not_exists ;;; _).
  assert (Hbody : all_or_nothing (concat results) db fs
                    (body (sqlite3_connect db fs))).
  { subst body. unfold create_if_not_exists.
    apply all_or_nothing_engine; try reflexivity; [apply passes_refl|].
    intros c1 Hd1 Ht1 Hfk1 Hp1.
    apply all_or_nothing_engine; auto.
    intros c2 Hd2 Ht2 Hfk2 Hp2.
    apply all_or_nothing_engine; auto.
    intros c3 Hd3 Ht3 Hfk3 Hp3.
    unfold begin_transaction. rewrite bindM_assoc.
    apply all_or_nothing_engine; auto.
    intros c4 Hd4 Ht4 Hfk4 Hp4.
    unfold bindM at 1. rewrite Ht4.
    set (c5 := mkConn (disk c4) (Some (disk c4)) (faults c4) (foreign_keys c4)).
    assert (Hfk5 : foreign_keys c5 = false).
    { simpl. rewrite Hfk4, Hfk3, Hfk2, Hfk1. reflexivity. }
    pose proof (insert_transaction_cases (concat results) c5 eq_refl Hfk5) as H.
    simpl in H. rewrite Hd4 in H.
    destruct H as [H|(e & He & Hd & Ht & Hr)]; [left; exact H|].
    right. exists e. repeat split; auto. eauto using passes_raises. }
  unfold with_connection, all_or_nothing in *.
  destruct (body (sqlite3_connect db fs)) as [[[]|e] c]; simpl in *.
  - destruct Hbody as [(_ & Hd & Ht)|(e & He & _)]; [|discriminate].
    left. unfold current. rewrite Ht. auto.
  - destruct Hbody as [(He & _)|(e' & He & Hd & Ht & Hr)]; [discriminate|].
    right. exists e'. auto.
Qed.

(** [store_extracted_results] as a whole: either the file holds every
    row of the batch, or it holds what it held before and the caller
    gets the exception the engine raised. *)
Lemma store_extracted_results_cases (results : list (list entry)) (db : database)
    (fs : list (option exn)) :
  store_extracted_results results db fs = (Ok tt, insert_all (concat results) db)
  \/
  (exists e, store_extracted_results results db fs = (Raise e, db) /\ raises fs e).
Proof.
  unfold store_extracted_results.
  pose proof (store_extracted_results_conn_cases results db fs) as H.
  destruct (store_extracted_results_conn results (sqlite3_connect db fs))
    as [r c].
  destruct H as [(Hr & Hd & _)|(e & Hr & Hd & _ & Hraise)]; simpl in *.
  - left. congruence.
  - right. exists e. split; [congruence|assumption].
Qed.

(** ** The rows a batch adds *)

Lemma add_wrappers_rows (word_id : Z) (wrappers : list html) (d : database) :
  exists gs,
    words (add_wrappers word_id wrappers d) = words d /\
    meaning_wrappers (add_wrappers word_id wrappers d) = meaning_wrappers d ++ gs /\
    map wrapper_html gs = wrappers /\
    Forall (fun g => mw_word_id g = word_id) gs.
Proof.
  revert d. induction wrappers as [|w ws IH]; intros d; simpl.
  - exists []. rewrite app_nil_r. auto.
  - destruct (IH (snd (add_meaning_wrapper word_id w d))) as (gs & Hw & Hg & Hm & Hf).
    unfold add_wrappers in *. simpl in *.
    eexists (_ :: gs). rewrite Hw, Hg, <- app_assoc. simpl.
    repeat split; [now rewrite Hm|]. constructor; auto.
Qed.

Lemma add_entry_rows (d : database) (e : entry) :
  exists w gs,
    words (add_entry d e) = words d ++ [w] /\
    representation_html w = entry_representation e /\
    w_id w = next_id (seq_words d) (map w_id (words d)) /\
    meaning_wrappers (add_entry d e) = meaning_wrappers d ++ gs /\
    map wrapper_html gs = entry_meaning_wrappers e /\
    Forall (fun g => mw_word_id g = w_id w) gs.
Proof.
  unfold add_entry, add_word.
  match goal with
  | |- context [add_wrappers ?i ?ws ?d1] =>
      destruct (add_wrappers_rows i ws d1) as (gs & Hw & Hg & Hm & Hf)
  end.
  simpl in *. eexists. exists gs. rewrite Hw, Hg. repeat split; auto.
Qed.

Lemma insert_all_rows (entries : list entry) (d : database) :
  exists ws gs,
    words (insert_all entries d) = words d ++ ws /\
    meaning_wrappers (insert_all entries d) = meaning_wrappers d ++ gs /\
    map representation_html ws = map entry_representation entries /\
    map wrapper_html gs = flat_map entry_meaning_wrappers entries /\
    Forall (fun g => In (mw_word_id g) (map w_id ws)) gs.
Proof.
  revert d. induction entries as [|e es IH]; intros d; simpl.
  - exists [], []. rewrite !app_nil_r. auto.
  - destruct (add_entry_rows d e) as (w & gs & Hw & Hr & _ & Hg & Hm & Hf).
    destruct (IH (add_entry d e)) as (ws' & gs' & Hw' & Hg' & Hr' & Hm' & Hf').
    unfold insert_all in *. simpl.
    exists (w :: ws'), (gs ++ gs').
    rewrite Hw', Hg', Hw, Hg, <- !app_assoc. simpl.
    repeat split.
    + now rewrite Hr, Hr'.
    + now rewrite map_app, Hm, Hm'.
    + apply Forall_app. split.
      * eapply Forall_impl; [|exact Hf]. intros g ->. now left.
      * eapply Forall_impl; [|exact Hf']. intros g Hin. now right.
Qed.

Lemma raises_not_quiet (fs : list (option exn)) (e : exn) :
  raises fs e -> quiet fs -> False.
Proof.
  intros (slots & rest & -> & _) Hq.
  apply Forall_app in Hq. destruct Hq as [_ Hq].
  inversion Hq; discriminate.
Qed.

(** C6: the bulk insert is atomic.  When the call returns, every word
    and every gloss of the batch has been added to the committed
    tables, in order; when it raises, the committed tables are what
    they were before the call and the exception is the one the engine
    raised at the failing statement; an engine without failures makes
    the call return. *)
Theorem store_extracted_results_atomic (results : list (list entry))
    (db : database) (fs : list (option exn)) :
  match store_extracted_results results db fs with
  | (Ok _, db') =>
      exists ws gs,
        words db' = words db ++ ws /\
        meaning_wrappers db' = meaning_wrappers db ++ gs /\
        map representation_html ws = map entry_representation (concat results) /\
        map wrapper_html gs = flat_map entry_meaning_wrappers (concat results)
  | (Raise e, db') => db' = db /\ raises fs e
  end
  /\
  (quiet fs -> fst (store_extracted_results results db fs) = Ok tt).
Proof.
  destruct (store_extracted_results_cases results db fs) as [H|(e & H & Hr)];
    rewrite H; simpl; split; auto.
  - destruct (insert_all_rows (concat results) db)
      as (ws & gs & Hw & Hg & Hrep & Hwrap & _).
    now exists ws, gs.
  - intros Hq. destruct (raises_not_quiet _ _ Hr Hq).
Qed.

Lemma store_extracted_results_atomic_witness :
  quiet [] /\ fst (store_extracted_results sample_results empty_db []) = Ok tt.
Proof.
  split; [constructor|].
  destruct (store_extracted_results_atomic sample_results empty_db []) as [_ H].
  apply H. constructor.
Defined.

(** The sample batch on an empty database: committed as a whole, or
    not at all when the sixth statement fails. *)
Example store_sample_batch :
  store_extracted_results sample_results empty_db [] =
    (Ok tt,
     mkDb [mkWord 1 [NavigableString (str_of_string "w1")];
           mkWord 2 [NavigableString (str_of_string "w2")]]
          [mkMw 1 1 [NavigableString (str_of_string "g1")];
           mkMw 2 1 [NavigableString (str_of_string "g2")];
           mkMw 3 2 [NavigableString (str_of_string "g3")]] 2 3).
Proof. reflexivity. Qed.

Example store_sample_batch_disk_full :
  store_extracted_results sample_results empty_db disk_full =
    (Raise (OperationalError "database or disk is full"), empty_db).
Proof. reflexivity. Qed.

(** ** The schema's constraints survive a batch *)

Lemma max_id_ge (ids : list Z) (x : Z) : In x ids -> x <= max_id ids.
Proof.
  induction ids as [|y ids IH]; simpl; [easy|].
  intros [->|H]; [lia|]. specialize (IH H). lia.
Qed.

Lemma next_id_fresh (seq : Z) (ids : list Z) : ~ In (next_id seq ids) ids.
Proof.
  intros H. apply max_id_ge in H. unfold next_id in H. lia.
Qed.

Lemma NoDup_snoc {A} (l : list A) (x : A) :
  NoDup l -> ~ In x l -> NoDup (l ++ [x]).
Proof.
  intros Hl Hx. apply NoDup_app; [assumption|repeat constructor; easy|].
  intros a Ha [<-|[]]. contradiction.
Qed.

Lemma add_word_constraints (rep : html) (d : database) :
  primary_keys d -> foreign_key_ok d ->
  primary_keys (snd (add_word rep d)) /\ foreign_key_ok (snd (add_word rep d)).
Proof.
  intros [Hw Hg] Hfk. unfold primary_keys, foreign_key_ok. simpl.
  rewrite map_app. simpl. repeat split; auto.
  - apply NoDup_snoc; [assumption|apply next_id_fresh].
  - intros g Hin. apply in_or_app. left. now apply Hfk.
Qed.

Lemma add_meaning_wrapper_constraints (word_id : Z) (wrapper : html) (d : database) :
  In word_id (map w_id (words d)) ->
  primary_keys d -> foreign_key_ok d ->
  primary_keys (snd (add_meaning_wrapper word_id wrapper d)) /\
  foreign_key_ok (snd (add_meaning_wrapper word_id wrapper d)).
Proof.
  intros Hin [Hw Hg] Hfk. unfold primary_keys, foreign_key_ok. simpl.
  rewrite map_app. simpl. repeat split; auto.
  - apply NoDup_snoc; [assumption|apply next_id_fresh].
  - intros g Hg'. apply in_app_or in Hg'.
    destruct Hg' as [Hg'|[<-|[]]]; [now apply Hfk|exact Hin].
Qed.

Lemma add_wrappers_constraints (word_id : Z) (wrappers : list html) (d : database) :
  In word_id (map w_id (words d)) ->
  primary_keys d -> foreign_key_ok d ->
  primary_keys (add_wrappers word_id wrappers d) /\
  foreign_key_ok (add_wrappers word_id wrappers d).
Proof.
  revert d. induction wrappers as [|w ws IH]; intros d Hin Hpk Hfk; simpl; auto.
  destruct (add_meaning_wrapper_constraints word_id w d Hin Hpk Hfk) as [Hpk' Hfk'].
  apply IH; auto.
Qed.

Lemma add_entry_constraints (d : database) (e : entry) :
  primary_keys d -> foreign_key_ok d ->
  primary_keys (add_entry d e) /\ foreign_key_ok (add_entry d e).
Proof.
  intros Hpk Hfk.
  destruct (add_word_constraints (entry_representation e) d Hpk Hfk) as [Hpk' Hfk'].
  unfold add_entry. simpl in *.
  apply add_wrappers_constraints; auto.
  simpl. rewrite map_app. apply in_or_app. right. now left.
Qed.

Lemma insert_all_constraints (entries : list entry) (d : database) :
  primary_keys d -> foreign_key_ok d ->
  primary_keys (insert_all entries d) /\ foreign_key_ok (insert_all entries d).
Proof.
  revert d. induction entries as [|e es IH]; intros d Hpk Hfk; simpl; auto.
  destruct (add_entry_constraints d e Hpk Hfk). now apply IH.
Qed.

(** X6: whatever the engine does, a database that met the schema's
    constraints (no id twice in a table, every gloss with its word)
    before [store_extracted_results] meets them afterwards: every gloss
    the loop inserts carries the id of the word inserted just before. *)
Lemma store_extracted_results_constraints (results : list (list entry))
    (db : database) (fs : list (option exn)) :
  primary_keys db -> foreign_key_ok db ->
  primary_keys (snd (store_extracted_results results db fs)) /\
  foreign_key_ok (snd (store_extracted_results results db fs)).
Proof.
  intros Hpk Hfk.
  destruct (store_extracted_results_cases results db fs) as [H|(e & H & _)];
    rewrite H; simpl; auto using insert_all_constraints.
Qed.

Lemma empty_db_constraints : primary_keys empty_db /\ foreign_key_ok empty_db.
Proof. repeat split; try constructor. intros g []. Qed.

Lemma store_extracted_results_constraints_witness :
  primary_keys (snd (store_extracted_results sample_results empty_db disk_full)) /\
  foreign_key_ok (snd (store_extracted_results sample_results empty_db disk_full)).
Proof.
  apply (store_extracted_results_constraints sample_results empty_db disk_full).
  - split; constructor.
  - intros g [].
Defined.

(** ** The scrape filter *)

Lemma extract_entry_wrappers (word_entry : node) (e : entry) (w : html) :
  In e (extract_entry word_entry) -> In w (entry_meaning_wrappers e) ->
  exists wrapper sentence,
    In wrapper (find_all word_entry "div" (Some "meaning-wrapper"%string)) /\
    find wrapper "div" (Some "sentence"%string) = Some sentence /\
    w = clean_wrapper wrapper.
Proof.
  unfold extract_entry.
  destruct (find word_entry "div" (Some "concept_light-representation"%string));
    [|intros []].
  destruct (map clean_wrapper (sentence_wrappers word_entry)) as [|w0 ws] eqn:Hmap;
    [intros []|].
  intros [<-|[]] Hw. cbn [entry_meaning_wrappers] in Hw. rewrite <- Hmap in Hw.
  apply in_map_iff in Hw. destruct Hw as (wrapper & <- & Hin).
  unfold sentence_wrappers in Hin. apply filter_In in Hin.
  destruct Hin as [Hin Hs]. unfold has_sentence in Hs.
  destruct (find wrapper "div" (Some "sentence"%string)) as [sentence|] eqn:Hf;
    [|discriminate].
  now exists wrapper, sentence.
Qed.

Lemma extract_words_with_sentences_wrappers (soup : node) (e : entry) (w : html) :
  In e (extract_words_with_sentences soup) -> In w (entry_meaning_wrappers e) ->
  exists word_entry wrapper sentence,
    In word_entry (find_all soup "div" (Some "concept_light"%string)) /\
    In wrapper (find_all word_entry "div" (Some "meaning-wrapper"%string)) /\
    find wrapper "div" (Some "sentence"%string) = Some sentence /\
    w = clean_wrapper wrapper.
Proof.
  unfold extract_words_with_sentences. intros He Hw.
  apply in_flat_map in He. destruct He as (word_entry & Hin & He).
  destruct (extract_entry_wrappers _ _ _ He Hw) as (wrapper & sentence & H).
  now exists word_entry, wrapper, sentence.
Qed.

(** C8: a gloss is only persisted when its source markup has an
    example sentence.  After the scrape pipeline has run over any
    pages, with any engine behaviour, each row of [meaning_wrappers]
    was there before or is the cleaned copy of a wrapper of some page
    in which a sentence block was found. *)
Theorem persisted_gloss_has_sentence (soups : list node) (db : database)
    (fs : list (option exn)) (g : mw_row) :
  In g (meaning_wrappers
          (snd (store_extracted_results
                  (map extract_words_with_sentences soups) db fs))) ->
  In g (meaning_wrappers db)
  \/
  exists soup word_entry wrapper sentence,
    In soup soups /\
    In word_entry (find_all soup "div" (Some "concept_light"%string)) /\
    In wrapper (find_all word_entry "div" (Some "meaning-wrapper"%string)) /\
    find wrapper "div" (Some "sentence"%string) = Some sentence /\
    wrapper_html g = clean_wrapper wrapper.
Proof.
  destruct (store_extracted_results_cases
              (map extract_words_with_sentences soups) db fs) as [H|(e & H & _)];
    rewrite H; simpl; [|now left].
  destruct (insert_all_rows (concat (map extract_words_with_sentences soups)) db)
    as (ws & gs & _ & Hg & _ & Hwrap & _).
  rewrite Hg. intros Hin. apply in_app_or in Hin.
  destruct Hin as [Hin|Hin]; [now left|right].
  assert (Hw : In (wrapper_html g)
                  (flat_map entry_meaning_wrappers
                     (concat (map extract_words_with_sentences soups))))
    by (rewrite <- Hwrap; now apply in_map).
  apply in_flat_map in Hw. destruct Hw as (e & He & Hw).
  apply in_concat in He. destruct He as (page & Hpage & He).
  apply in_map_iff in Hpage. destruct Hpage as (soup & <- & Hsoup).
  destruct (extract_words_with_sentences_wrappers _ _ _ He Hw)
    as (word_entry & wrapper & sentence & H1 & H2 & H3 & H4).
  now exists soup, word_entry, wrapper, sentence.
Qed.

(** The sample page: the gloss without a sentence is dropped, the other
    is stored without its supplemental info. *)
Example extract_sample_page :
  map entry_meaning_wrappers (extract_words_with_sentences sample_page) =
    [[[Tag "div" ["meaning-wrapper"%string]
         [Tag "span" ["meaning-meaning"%string]
            [NavigableString (str_of_string "to read")];
          Tag "div" ["sentence"%string]
            [Tag "ul" ["japanese"%string]
               [Tag "li" []
                  [Tag "span" ["furigana"%string] [NavigableString [12411; 12435]];
                   Tag "span" ["unlinked"%string] [NavigableString [26412]]]];
             Tag "span" ["english"%string]
               [NavigableString (str_of_string "I read a book.")]]]]]].
Proof. reflexivity. Qed.

Lemma persisted_gloss_has_sentence_witness :
  exists soup word_entry wrapper sentence,
    In soup [sample_page] /\
    In word_entry (find_all soup "div" (Some "concept_light"%string)) /\
    In wrapper (find_all word_entry "div" (Some "meaning-wrapper"%string)) /\
    find wrapper "div" (Some "sentence"%string) = Some sentence /\
    clean_wrapper gloss_with_sentence = clean_wrapper wrapper.
Proof.
  destruct (persisted_gloss_has_sentence [sample_page] empty_db []
              (mkMw 1 1 (clean_wrapper gloss_with_sentence)))
    as [[]|H].
  - vm_compute. left. reflexivity.
  - exact H.
Defined.

(** ** Foreign keys *)

(** With the pragma on, the engine rejects a gloss whose word is missing. *)
Lemma insert_meaning_wrapper_checked (db : database) (word_id : Z) (wrapper : html) :
  word_exists db word_id = false ->
  insert_meaning_wrapper word_id wrapper (mkConn db None [] true) =
    (Raise (IntegrityError "FOREIGN KEY constraint failed"), mkConn db None [] true).
Proof.
  intros H. unfold insert_meaning_wrapper, bindM, engine. simpl.
  unfold current. simpl. now rewrite H.
Qed.

(** The pragma is off on every connection the code opens, so the
    engine does not look at the [FOREIGN KEY] clause: the insert of a
    gloss whose [word_id] is not in [words] is carried out, and the
    dangling row is in the tables. *)
Lemma insert_meaning_wrapper_unchecked (db : database) (word_id : Z)
    (wrapper : html) :
  word_exists db word_id = false ->
  exists id c',
    insert_meaning_wrapper word_id wrapper (sqlite3_connect db []) = (Ok id, c') /\
    In (mkMw id word_id wrapper) (meaning_wrappers (current c')) /\
    ~ foreign_key_ok (current c').
Proof.
  intros H. unfold insert_meaning_wrapper, bindM, engine. simpl.
  do 2 eexists. split; [reflexivity|]. simpl. split.
  - apply in_or_app. right. now left.
  - intros Hfk.
    specialize (Hfk (mkMw (next_id (seq_meaning_wrappers db)
                                   (map mw_id (meaning_wrappers db)))
                          word_id wrapper)).
    simpl in Hfk.
    assert (Hin : In word_id (map w_id (words db)))
      by (apply Hfk, in_or_app; right; now left).
    apply in_map_iff in Hin. destruct Hin as (w & Hw & Hin).
    unfold word_exists in H.
    assert (Ht : existsb (fun w => w_id w =? word_id) (words db) = true)
      by (apply existsb_exists; exists w; split; [assumption|now apply Z.eqb_eq]).
    congruence.
Qed.




(** ** Sorting *)

Section OrderByFacts.
Context {A : Type} (leb : A -> A -> bool).

Let R (a b : A) : Prop := leb a b = true.

Lemma insert_sorted_perm (x : A) (l : list A) :
  Permutation (x :: l) (insert_sorted leb x l).
Proof.
  induction l as [|a l IH]; simpl; [reflexivity|].
  destruct (leb x a); [reflexivity|].
  eapply perm_trans; [apply perm_swap|]. now apply perm_skip.
Qed.

Lemma order_by_perm (l : list A) : Permutation l (order_by leb l).
Proof.
  induction l as [|x l IH]; simpl; [reflexivity|].
  eapply perm_trans; [apply perm_skip, IH|apply insert_sorted_perm].
Qed.

Lemma order_by_length (l : list A) : length (order_by leb l) = length l.
Proof. symmetry. apply Permutation_length, order_by_perm. Qed.

Lemma order_by_in (l : list A) (x : A) : In x (order_by leb l) <-> In x l.
Proof.
  split; apply Permutation_in;
    [apply Permutation_sym|]; apply order_by_perm.
Qed.

Hypothesis leb_total : forall a b, leb a b = true \/ leb b a = true.
Hypothesis leb_trans : forall a b c, leb a b = true -> leb b c = true -> leb a c = true.

Lemma insert_sorted_sorted (x : A) (l : list A) :
  StronglySorted R l -> StronglySorted R (insert_sorted leb x l).
Proof.
  induction l as [|a l IH]; intros Hs; simpl.
  - repeat constructor.
  - inversion Hs as [|a' l' Hs' Hall]; subst.
    destruct (leb x a) eqn:Hxa.
    + constructor; [assumption|]. constructor; [exact Hxa|].
      eapply Forall_impl; [|exact Hall]. intros y Hy. exact (leb_trans _ _ _ Hxa Hy).
    + constructor; [now apply IH|].
      eapply Permutation_Forall; [apply insert_sorted_perm|].
      constructor; [|assumption].
      destruct (leb_total x a) as [H|H]; [congruence|exact H].
Qed.

Lemma order_by_sorted (l : list A) : StronglySorted R (order_by leb l).
Proof.
  induction l as [|x l IH]; simpl; [constructor|now apply insert_sorted_sorted].
Qed.

Lemma sorted_perm_eq (l1 l2 : list A) :
  StronglySorted R l1 -> StronglySorted R l2 -> Permutation l1 l2 ->
  (forall a b, In a l1 -> In b l1 -> leb a b = true -> leb b a = true -> a = b) ->
  l1 = l2.
Proof.
  revert l2. induction l1 as [|a l1 IH]; intros l2 H1 H2 Hp Hanti.
  - apply Permutation_nil in Hp. now subst.
  - destruct l2 as [|b l2].
    + apply Permutation_sym, Permutation_nil in Hp. discriminate.
    + inversion H1 as [|? ? H1' Ha]; subst. inversion H2 as [|? ? H2' Hb]; subst.
      assert (Hab : a = b).
      { assert (Hina : In a (b :: l2)) by (eapply Permutation_in; [exact Hp|now left]).
        assert (Hinb : In b (a :: l1))
          by (eapply Permutation_in; [apply Permutation_sym, Hp|now left]).
        destruct Hina as [->|Hina]; [reflexivity|].
        destruct Hinb as [->|Hinb]; [reflexivity|].
        apply Hanti; [now left|now right| |].
        - rewrite Forall_forall in Ha. now apply Ha.
        - rewrite Forall_forall in Hb. now apply Hb. }
      subst b. f_equal. apply IH; auto.
      * eapply Permutation_cons_inv; exact Hp.
      * intros x y Hx Hy. apply Hanti; now right.
Qed.

(** When no two rows compare equal, the sorted list depends on the set
    of rows only. *)
Lemma order_by_perm_eq (l1 l2 : list A) :
  Permutation l1 l2 ->
  (forall a b, In a l1 -> In b l1 -> leb a b = true -> leb b a = true -> a = b) ->
  order_by leb l1 = order_by leb l2.
Proof.
  intros Hp Hanti. apply sorted_perm_eq; try apply order_by_sorted.
  - eapply perm_trans; [apply Permutation_sym, order_by_perm|].
    eapply perm_trans; [exact Hp|apply order_by_perm].
  - intros a b Ha Hb. apply Hanti; now apply order_by_in.
Qed.

End OrderByFacts.

Lemma string_leb_trans (a b c : string) :
  String.leb a b = true -> String.leb b c = true -> String.leb a c = true.
Proof.
  unfold String.leb. intros Hab Hbc.
  destruct (String.compare a b) eqn:E1; try discriminate;
    destruct (String.compare b c) eqn:E2; try discriminate.
  - apply String.compare_eq_iff in E1. subst. now rewrite E2.
  - apply String.compare_eq_iff in E1. subst. now rewrite E2.
  - apply String.compare_eq_iff in E2. subst. now rewrite E1.
  - apply OrderedTypeEx.String_as_OT.cmp_lt in E1, E2.
    pose proof (OrderedTypeEx.String_as_OT.lt_trans _ _ _ E1 E2) as H.
    apply OrderedTypeEx.String_as_OT.cmp_lt in H.
    unfold OrderedTypeEx.String_as_OT.cmp in H. now rewrite H.
Qed.

Lemma NoDup_map_inj {A B} (f : A -> B) (l : list A) (a b : A) :
  NoDup (map f l) -> In a l -> In b l -> f a = f b -> a = b.
Proof.
  induction l as [|x l IH]; simpl; intros Hnd Ha Hb Hf; [easy|].
  inversion Hnd as [|? ? Hnot Hnd']; subst.
  destruct Ha as [->|Ha], Hb as [->|Hb]; auto.
  - exfalso. apply Hnot. rewrite Hf. now apply in_map.
  - exfalso. apply Hnot. rewrite <- Hf. now apply in_map.
Qed.

(** Sorting by a text key that no two rows share. *)
Lemma order_by_key_perm_eq {A} (key : A -> string) (l1 l2 : list A) :
  Permutation l1 l2 -> NoDup (map key l1) ->
  order_by (key_leb key) l1 = order_by (key_leb key) l2.
Proof.
  intros Hp Hnd. apply order_by_perm_eq; auto.
  - intros a b. apply String.leb_total.
  - intros a b c. apply string_leb_trans.
  - intros a b Ha Hb H1 H2. apply (NoDup_map_inj key l1); auto.
    now apply String.leb_antisym.
Qed.

(** Sorting by an integer key that no two rows share. *)
Lemma order_by_Z_perm_eq {A} (key : A -> Z) (l1 l2 : list A) :
  Permutation l1 l2 -> NoDup (map key l1) ->
  order_by (fun a b => key a <=? key b) l1 = order_by (fun a b => key a <=? key b) l2.
Proof.
  intros Hp Hnd. apply order_by_perm_eq; auto.
  - intros a b. destruct (Z.leb_spec (key a) (key b)); [now left|right].
    apply Z.leb_le. lia.
  - intros a b c H1 H2. apply Z.leb_le in H1, H2. apply Z.leb_le. lia.
  - intros a b Ha Hb H1 H2. apply (NoDup_map_inj key l1); auto.
    apply Z.leb_le in H1, H2. lia.
Qed.

(** ** The pieces of the daily query *)

Lemma distinct_in (l : list Z) (x : Z) : In x (distinct l) <-> In x l.
Proof.
  induction l as [|y l IH]; simpl; [tauto|].
  rewrite filter_In, IH, negb_true_iff, Z.eqb_neq.
  destruct (Z.eq_dec x y) as [->|Hne]; [tauto|].
  split; [intros [H|[H _]]; auto|intros [H|H]; auto]; congruence.
Qed.

Lemma distinct_NoDup (l : list Z) : NoDup (distinct l).
Proof.
  induction l as [|y l IH]; simpl; constructor.
  - rewrite filter_In, negb_true_iff, Z.eqb_neq. tauto.
  - now apply NoDup_filter.
Qed.

Lemma distinct_perm (l l' : list Z) :
  Permutation l l' -> Permutation (distinct l) (distinct l').
Proof.
  intros Hp. apply NoDup_Permutation; try apply distinct_NoDup.
  intros x. rewrite !distinct_in.
  split; apply Permutation_in; [|apply Permutation_sym]; exact Hp.
Qed.

Lemma NoDup_firstn {A} (n : nat) (l : list A) : NoDup l -> NoDup (firstn n l).
Proof.
  revert n. induction l as [|x l IH]; intros [|n] Hnd; simpl; try constructor.
  - inversion Hnd as [|? ? Hnot Hnd']; subst. intros Hin. apply Hnot.
    rewrite <- (firstn_skipn n l). apply in_or_app. now left.
  - inversion Hnd; subst. now apply IH.
Qed.

Lemma daily_words_NoDup {RT : RealText} (seed : Z) (db : database) : NoDup (daily_words seed db).
Proof.
  unfold daily_words. apply NoDup_firstn.
  eapply Permutation_NoDup; [apply order_by_perm|apply distinct_NoDup].
Qed.

Lemma daily_words_qualifying {RT : RealText} (seed : Z) (db : database) (d : Z) :
  In d (daily_words seed db) -> In d (map mw_word_id (meaning_wrappers db)).
Proof.
  unfold daily_words. intros H.
  assert (H' : In d (order_by (key_leb (sort_key seed))
                       (distinct (map mw_word_id (meaning_wrappers db))))).
  { rewrite <- (firstn_skipn 4). apply in_or_app. now left. }
  apply order_by_in in H'. now apply distinct_in.
Qed.

Lemma daily_words_length {RT : RealText} (seed : Z) (db : database) :
  length (daily_words seed db) = Nat.min 4 (length (qualifying_word_ids db)).
Proof.
  unfold daily_words, qualifying_word_ids.
  now rewrite length_firstn, order_by_length.
Qed.

(** The word ids of the joined rows are the daily words that have a
    row in [words]. *)
Lemma joined_word_ids (db : database) (dw : list Z) (d : Z) :
  In d (map sw_word_id (joined db dw)) <->
  In d dw /\ In d (map mw_word_id (meaning_wrappers db)) /\ In d (map w_id (words db)).
Proof.
  unfold joined. rewrite in_map_iff. split.
  - intros (r & <- & Hr).
    apply in_flat_map in Hr. destruct Hr as (mw & Hmw & Hr).
    apply in_flat_map in Hr. destruct Hr as (w & Hw & Hr).
    apply in_flat_map in Hr. destruct Hr as (d & Hd & Hr).
    destruct ((mw_word_id mw =? w_id w) && (mw_word_id mw =? d)) eqn:E; [|easy].
    destruct Hr as [<-|[]]. simpl.
    apply andb_true_iff in E. destruct E as [E1 E2].
    apply Z.eqb_eq in E1, E2.
    repeat split.
    + now rewrite E2.
    + now apply in_map.
    + rewrite E1. now apply in_map.
  - intros (Hd & Hmw & Hw).
    apply in_map_iff in Hmw. destruct Hmw as (mw & <- & Hmw).
    apply in_map_iff in Hw. destruct Hw as (w & Hwid & Hw).
    exists (mkSelected (mw_id mw) (wrapper_html mw) (mw_word_id mw)
                       (representation_html w)).
    split; [reflexivity|].
    apply in_flat_map. exists mw. split; [assumption|].
    apply in_flat_map. exists w. split; [assumption|].
    apply in_flat_map. exists (mw_word_id mw). split; [assumption|].
    rewrite Hwid, Z.eqb_refl. simpl. now left.
Qed.

(** Numbering from 1: exactly the first row has number 1. *)
Lemma numbered_from (A : Type) (l : list A) (s : nat) :
  (2 <= s)%nat ->
  filter (fun rn : A * nat => Nat.eqb (snd rn) 1) (combine l (seq s (length l))) = [].
Proof.
  revert s. induction l as [|x l IH]; intros s Hs; simpl; [reflexivity|].
  destruct (Nat.eqb_spec s 1); [lia|]. apply IH. lia.
Qed.

Lemma numbered_first {A} (l : list A) :
  filter (fun rn : A * nat => Nat.eqb (snd rn) 1) (numbered l) =
    match l with
    | [] => []
    | x :: _ => [(x, 1%nat)]
    end.
Proof.
  unfold numbered. destruct l as [|x l]; simpl; [reflexivity|].
  now rewrite numbered_from.
Qed.

Lemma filter_flat_map {A B} (keep : B -> bool) (each : A -> list B) (xs : list A) :
  filter keep (flat_map each xs) = flat_map (fun a => filter keep (each a)) xs.
Proof.
  induction xs as [|a xs IH]; simpl; [reflexivity|].
  now rewrite filter_app, IH.
Qed.

Lemma length_flat_map_ones {A B} (f : A -> list B) (l : list A) :
  (forall x, In x l -> length (f x) = 1%nat) ->
  length (flat_map f l) = length l.
Proof.
  induction l as [|x l IH]; intros H; simpl; [reflexivity|].
  rewrite length_app, H, IH; auto; [|now left].
  intros y Hy. apply H. now right.
Qed.

(** [WHERE rn = 1] keeps one row of every partition. *)
Lemma rn1_length {A} (part : A -> Z) (key : A -> string) (rows : list A) :
  length (filter (fun rn => Nat.eqb (snd rn) 1) (row_number_over part key rows)) =
  length (distinct (map part rows)).
Proof.
  unfold row_number_over. rewrite filter_flat_map.
  apply length_flat_map_ones. intros p Hp.
  rewrite numbered_first.
  apply distinct_in, in_map_iff in Hp. destruct Hp as (r & Hr & Hin).
  destruct (order_by (key_leb key) (filter (fun r => part r =? p) rows)) eqn:E;
    [|reflexivity].
  exfalso.
  assert (Hin' : In r (order_by (key_leb key) (filter (fun r => part r =? p) rows))).
  { apply order_by_in, filter_In. split; [assumption|]. now apply Z.eqb_eq. }
  now rewrite E in Hin'.
Qed.

Lemma daily_query_length {RT : RealText} (seed : Z) (db : database) :
  foreign_key_ok db ->
  length (daily_query seed db) = Nat.min 4 (length (qualifying_word_ids db)).
Proof.
  intros Hfk. unfold daily_query.
  rewrite length_map, order_by_length, rn1_length, <- (daily_words_length seed db).
  apply Permutation_length, NoDup_Permutation;
    [apply distinct_NoDup|apply daily_words_NoDup|].
  intros d. rewrite distinct_in, joined_word_ids.
  split; [tauto|]. intros Hd.
  pose proof (daily_words_qualifying _ _ _ Hd) as Hq.
  repeat split; auto.
  apply in_map_iff in Hq. destruct Hq as (g & <- & Hg). now apply Hfk.
Qed.

(** ** The query and the order of the rows *)

Lemma Permutation_flat_map_ext {A B} (f g : A -> list B) (l l' : list A) :
  Permutation l l' -> (forall x, In x l -> Permutation (f x) (g x)) ->
  Permutation (flat_map f l) (flat_map g l').
Proof.
  intros Hp Hfg.
  eapply perm_trans; [|apply Permutation_flat_map, Hp].
  clear Hp. induction l as [|x l IH]; simpl; [reflexivity|].
  apply Permutation_app; [apply Hfg; now left|].
  apply IH. intros y Hy. apply Hfg. now right.
Qed.

Lemma filter_perm {A} (p : A -> bool) (l l' : list A) :
  Permutation l l' -> Permutation (filter p l) (filter p l').
Proof.
  induction 1 as [|x l l' _ IH|x y l|l1 l2 l3 _ IH1 _ IH2]; simpl.
  - reflexivity.
  - destruct (p x); [now apply perm_skip|assumption].
  - destruct (p x), (p y); try reflexivity. apply perm_swap.
  - eapply perm_trans; eassumption.
Qed.

Lemma NoDup_map_filter {A B} (key : A -> B) (keep : A -> bool) (rows : list A) :
  NoDup (map key rows) -> NoDup (map key (filter keep rows)).
Proof.
  induction rows as [|x rows IH]; simpl; intros Hnd; [constructor|].
  inversion Hnd as [|? ? Hnot Hnd']; subst.
  destruct (keep x); simpl; auto.
  constructor; auto.
  intros Hin. apply Hnot. apply in_map_iff in Hin.
  destruct Hin as (y & Hy & Hin). apply filter_In in Hin.
  apply in_map_iff. exists y. tauto.
Qed.

(** At most one element of a duplicate-free list yields rows. *)
Lemma flat_map_at_most_one {A B} (k : A -> Z) (a : Z) (G : A -> list B) (l : list A) :
  NoDup (map k l) ->
  (forall x, (length (G x) <= 1)%nat) ->
  (forall x, G x <> [] -> k x = a) ->
  (length (flat_map G l) <= 1)%nat.
Proof.
  intros Hnd Hle Hne.
  induction l as [|x l IH]; simpl; [lia|].
  inversion Hnd as [|? ? Hnot Hnd']; subst.
  rewrite length_app.
  destruct (G x) as [|r rs] eqn:E.
  - simpl. now apply IH.
  - assert (Hk : k x = a) by (apply Hne; rewrite E; discriminate).
    assert (Hempty : forall y, In y l -> G y = []).
    { intros y Hy. destruct (G y) as [|r' rs'] eqn:Ey; [reflexivity|].
      exfalso. apply Hnot. apply in_map_iff. exists y. split; [|exact Hy].
      rewrite Hk. apply Hne. rewrite Ey. discriminate. }
    assert (Hrest : flat_map G l = []).
    { clear - Hempty. induction l as [|y l IHl]; simpl; [reflexivity|].
      rewrite (Hempty y (or_introl eq_refl)). simpl.
      apply IHl. intros z Hz. apply Hempty. now right. }
    rewrite Hrest, <- E. simpl. specialize (Hle x). lia.
Qed.

Lemma NoDup_map_flat_map {A B C} (k : A -> C) (f : B -> C) (F : A -> list B)
    (l : list A) :
  NoDup (map k l) ->
  (forall x y, In x l -> In y (F x) -> f y = k x) ->
  (forall x, In x l -> (length (F x) <= 1)%nat) ->
  NoDup (map f (flat_map F l)).
Proof.
  induction l as [|x l IH]; simpl; intros Hnd Hf Hle; [constructor|].
  inversion Hnd as [|? ? Hnot Hnd']; subst.
  rewrite map_app. apply NoDup_app.
  - specialize (Hle x (or_introl eq_refl)).
    destruct (F x) as [|y [|z ys]]; simpl in *; try lia; repeat constructor; easy.
  - apply IH; auto.
  - intros c Hc1 Hc2.
    apply in_map_iff in Hc1. destruct Hc1 as (y & <- & Hy).
    apply in_map_iff in Hc2. destruct Hc2 as (z & Hz & Hin).
    apply in_flat_map in Hin. destruct Hin as (x' & Hx' & Hin).
    apply Hnot. rewrite <- (Hf x y (or_introl eq_refl) Hy), <- Hz.
    rewrite (Hf x' z (or_intror Hx') Hin). now apply in_map.
Qed.

(** One gloss joins with at most one word and one daily word. *)
Lemma joined_one_row (db : database) (dw : list Z) (mw : mw_row) :
  NoDup (map w_id (words db)) -> NoDup dw ->
  le (length
        (flat_map (fun w =>
           flat_map (fun d =>
             if (mw_word_id mw =? w_id w) && (mw_word_id mw =? d)
             then [mkSelected (mw_id mw) (wrapper_html mw) (mw_word_id mw)
                              (representation_html w)]
             else [])
           dw)
         (words db))) 1.
Proof.
  intros Hw Hd.
  assert (Hinner : forall w,
    le (length
          (flat_map (fun d =>
             if (mw_word_id mw =? w_id w) && (mw_word_id mw =? d)
             then [mkSelected (mw_id mw) (wrapper_html mw) (mw_word_id mw)
                              (representation_html w)]
             else [])
           dw)) 1).
  { intros w. apply (flat_map_at_most_one (fun d => d) (mw_word_id mw)).
    - now rewrite map_id.
    - intros d. destruct (_ && _); simpl; lia.
    - intros d. destruct (mw_word_id mw =? w_id w); simpl; [|easy].
      destruct (Z.eqb_spec (mw_word_id mw) d); [auto|easy]. }
  apply (flat_map_at_most_one w_id (mw_word_id mw)); auto.
  intros w Hne.
  destruct (Z.eqb_spec (mw_word_id mw) (w_id w)) as [->|Hneq]; [reflexivity|].
  exfalso. apply Hne. simpl. clear. induction dw; simpl; auto.
Qed.

Lemma joined_keys_NoDup (key : Z -> string) (db : database) (dw : list Z) :
  NoDup (map w_id (words db)) -> NoDup dw ->
  NoDup (map (fun g => key (mw_id g)) (meaning_wrappers db)) ->
  NoDup (map (fun r => key (sw_id r)) (joined db dw)).
Proof.
  intros Hw Hd Hg. unfold joined.
  apply (NoDup_map_flat_map (fun g => key (mw_id g))); auto.
  - intros mw r _ Hr.
    apply in_flat_map in Hr. destruct Hr as (w & _ & Hr).
    apply in_flat_map in Hr. destruct Hr as (d & _ & Hr).
    destruct (_ && _); [|easy]. destruct Hr as [<-|[]]. reflexivity.
  - intros mw _. now apply joined_one_row.
Qed.

Lemma joined_perm (db1 db2 : database) (dw : list Z) :
  same_rows db1 db2 -> Permutation (joined db1 dw) (joined db2 dw).
Proof.
  intros [Hw Hg]. unfold joined.
  apply Permutation_flat_map_ext; [exact Hg|].
  intros mw _. now apply Permutation_flat_map.
Qed.

Lemma row_number_over_perm {A} (part : A -> Z) (key : A -> string)
    (rows1 rows2 : list A) :
  Permutation rows1 rows2 -> NoDup (map key rows1) ->
  Permutation (row_number_over part key rows1) (row_number_over part key rows2).
Proof.
  intros Hp Hnd. unfold row_number_over.
  apply Permutation_flat_map_ext.
  - now apply distinct_perm, Permutation_map.
  - intros p _.
    rewrite (order_by_key_perm_eq key (filter (fun r => part r =? p) rows1)
                                      (filter (fun r => part r =? p) rows2));
      [reflexivity|now apply filter_perm|now apply NoDup_map_filter].
Qed.

(** The rows numbered 1 have pairwise different partition values. *)
Lemma rn1_parts_NoDup {A} (part : A -> Z) (key : A -> string) (rows : list A) :
  NoDup (map (fun rn => part (fst rn))
             (filter (fun rn => Nat.eqb (snd rn) 1) (row_number_over part key rows))).
Proof.
  unfold row_number_over. rewrite filter_flat_map.
  apply (NoDup_map_flat_map (fun p => p)).
  - rewrite map_id. apply distinct_NoDup.
  - intros p rn _ Hrn. rewrite numbered_first in Hrn.
    destruct (order_by (key_leb key) (filter (fun r => part r =? p) rows))
      as [|x l] eqn:E; [easy|].
    destruct Hrn as [<-|[]]. simpl.
    assert (Hin : In x (order_by (key_leb key) (filter (fun r => part r =? p) rows)))
      by (rewrite E; now left).
    apply order_by_in, filter_In in Hin. now apply Z.eqb_eq.
  - intros p _. rewrite numbered_first.
    destruct (order_by _ _); simpl; lia.
Qed.

Lemma daily_words_same_rows {RT : RealText} (seed : Z) (db1 db2 : database) :
  same_rows db1 db2 ->
  NoDup (map (sort_key seed) (qualifying_word_ids db1)) ->
  daily_words seed db1 = daily_words seed db2.
Proof.
  intros [_ Hg] Hnd. unfold daily_words. f_equal.
  apply order_by_key_perm_eq; [|exact Hnd].
  now apply distinct_perm, Permutation_map.
Qed.

(** Without key collisions the query depends on the rows, not on the
    order in which the tables list them. *)
Lemma daily_query_same_rows {RT : RealText} (seed : Z) (db1 db2 : database) :
  same_rows db1 db2 -> primary_keys db1 -> keys_distinct seed db1 ->
  daily_query seed db1 = daily_query seed db2.
Proof.
  intros Hsame [Hw _] [Hkw Hkg]. unfold daily_query.
  rewrite <- (daily_words_same_rows seed db1 db2 Hsame Hkw).
  f_equal.
  apply (order_by_Z_perm_eq (fun rn : selected_wrapper * nat => sw_word_id (fst rn))).
  - apply filter_perm, row_number_over_perm.
    + now apply joined_perm.
    + apply (joined_keys_NoDup (sort_key seed)); auto. apply daily_words_NoDup.
  - apply rn1_parts_NoDup.
Qed.

(** ** The size of the selection *)

Lemma rn1_parts_in {A} (part : A -> Z) (key : A -> string) (rows : list A) (p : Z) :
  In p (map (fun rn => part (fst rn))
          (filter (fun rn => Nat.eqb (snd rn) 1) (row_number_over part key rows)))
  <-> In p (map part rows).
Proof.
  unfold row_number_over. rewrite filter_flat_map, in_map_iff. split.
  - intros (rn & <- & Hrn).
    apply in_flat_map in Hrn. destruct Hrn as (q & _ & Hrn).
    rewrite numbered_first in Hrn.
    destruct (order_by (key_leb key) (filter (fun r => part r =? q) rows))
      as [|x l] eqn:E; [easy|].
    destruct Hrn as [<-|[]]. simpl. apply in_map.
    assert (Hin : In x (order_by (key_leb key) (filter (fun r => part r =? q) rows)))
      by (rewrite E; now left).
    apply order_by_in, filter_In in Hin. tauto.
  - intros Hp. pose proof Hp as Hp'.
    apply in_map_iff in Hp'. destruct Hp' as (r & Hr & Hin).
    destruct (order_by (key_leb key) (filter (fun r => part r =? p) rows))
      as [|x l] eqn:E.
    + exfalso.
      assert (Hin' : In r (order_by (key_leb key)
                             (filter (fun r => part r =? p) rows))).
      { apply order_by_in, filter_In. split; [assumption|]. now apply Z.eqb_eq. }
      now rewrite E in Hin'.
    + exists (x, 1%nat). split.
      * simpl.
        assert (Hx : In x (order_by (key_leb key)
                             (filter (fun r => part r =? p) rows)))
          by (rewrite E; now left).
        apply order_by_in, filter_In in Hx. now apply Z.eqb_eq.
      * apply in_flat_map. exists p. split; [now apply distinct_in|].
        rewrite numbered_first, E. now left.
Qed.

Lemma daily_query_word_ids {RT : RealText} (seed : Z) (db : database) :
  Permutation
    (map word_id (daily_query seed db))
    (map (fun rn : selected_wrapper * nat => sw_word_id (fst rn))
       (filter (fun rn => Nat.eqb (snd rn) 1)
          (row_number_over sw_word_id (fun r => sort_key seed (sw_id r))
             (joined db (daily_words seed db))))).
Proof.
  unfold daily_query. rewrite map_map. cbn [word_id].
  apply Permutation_map, Permutation_sym, order_by_perm.
Qed.

(** Under the foreign key, the words of the result are the daily words. *)
Lemma daily_query_words {RT : RealText} (seed : Z) (db : database) (w : Z) :
  foreign_key_ok db ->
  In w (map word_id (daily_query seed db)) <-> In w (daily_words seed db).
Proof.
  intros Hfk. split.
  - intros H. eapply Permutation_in in H; [|apply daily_query_word_ids].
    apply rn1_parts_in, joined_word_ids in H. tauto.
  - intros H.
    eapply Permutation_in; [apply Permutation_sym, daily_query_word_ids|].
    apply rn1_parts_in, joined_word_ids.
    pose proof (daily_words_qualifying _ _ _ H) as Hq.
    repeat split; auto.
    apply in_map_iff in Hq. destruct Hq as (g & <- & Hg). now apply Hfk.
Qed.

Lemma daily_query_words_NoDup {RT : RealText} (seed : Z) (db : database) :
  NoDup (map word_id (daily_query seed db)).
Proof.
  eapply Permutation_NoDup; [apply Permutation_sym, daily_query_word_ids|].
  apply rn1_parts_NoDup.
Qed.

Lemma daily_words_all {RT : RealText} (seed : Z) (db : database) (w : Z) :
  (length (qualifying_word_ids db) <= 4)%nat ->
  In w (qualifying_word_ids db) -> In w (daily_words seed db).
Proof.
  unfold daily_words, qualifying_word_ids. intros Hlen Hw.
  rewrite firstn_all2; [now apply order_by_in|now rewrite order_by_length].
Qed.

(** C5: the size of the daily selection.  For a date that can be
    hashed and tables that meet the foreign key, the call returns, and
    the list has [min(4, n)] rows where [n] is the number of distinct
    word ids that have a gloss; the rows are of pairwise different
    words that have a gloss, and of all such words when there are no
    more than four: never an error, never padding. *)
Theorem get_daily_meaning_wrappers_size {RT : RealText} (today date_str : str) (db : database)
    (bytes : list Z) :
  foreign_key_ok db ->
  encode (effective_date today date_str) = Ok bytes ->
  exists rows,
    get_daily_meaning_wrappers today date_str db = Ok rows /\
    length rows = Nat.min 4 (length (qualifying_word_ids db)) /\
    NoDup (map word_id rows) /\
    (forall w, In w (map word_id rows) -> In w (qualifying_word_ids db)) /\
    ((length (qualifying_word_ids db) <= 4)%nat ->
     forall w, In w (qualifying_word_ids db) -> In w (map word_id rows)).
Proof.
  intros Hfk Henc.
  unfold get_daily_meaning_wrappers, date_seed.
  cbv zeta. rewrite Henc. cbn [bind].
  eexists. split; [reflexivity|].
  split; [now apply daily_query_length|].
  split; [apply daily_query_words_NoDup|]. split.
  - intros w Hw. apply daily_query_words in Hw; [|assumption].
    apply distinct_in. eapply daily_words_qualifying; eassumption.
  - intros Hlen w Hw. apply daily_query_words; [assumption|].
    now apply daily_words_all.
Qed.

(** ** Products of at most 15 digits *)

Lemma substring_all (n : nat) (s : string) :
  (String.length s <= n)%nat -> substring 0 n s = s.
Proof.
  revert n. induction s as [|a s IH]; intros [|n] H; simpl in *; try reflexivity.
  - lia.
  - f_equal. apply IH. lia.
Qed.

Lemma string_of_uint_length (d : Decimal.uint) :
  String.length (DecimalString.NilEmpty.string_of_uint d) = Decimal.nb_digits d.
Proof.
  induction d; simpl; congruence.
Qed.

(** The value of a digit string grows with its number of digits. *)
Lemma of_uint_acc_ge (d : Decimal.uint) (acc : positive) :
  Z.pos acc * 10 ^ Z.of_nat (Decimal.nb_digits d) <= Z.pos (Pos.of_uint_acc d acc).
Proof.
  revert acc.
  induction d as [|d IH|d IH|d IH|d IH|d IH|d IH|d IH|d IH|d IH|d IH]; intros acc;
    cbn [Pos.of_uint_acc Decimal.nb_digits]; [simpl; lia|..];
    rewrite Nat2Z.inj_succ, Z.pow_succ_r by lia;
    pose proof (Z.pow_nonneg 10 (Z.of_nat (Decimal.nb_digits d)) ltac:(lia)) as Hp;
    (etransitivity; [|apply IH]); nia.
Qed.

Lemma to_uint_digits (p : positive) :
  10 ^ (Z.of_nat (Decimal.nb_digits (Pos.to_uint p)) - 1) <= Z.pos p.
Proof.
  pose proof (DecimalPos.Unsigned.of_to p) as Hof.
  pose proof (DecimalPos.Unsigned.to_of (Pos.to_uint p)) as Hnorm.
  rewrite Hof in Hnorm. cbn [N.to_uint] in Hnorm.
  pose proof (DecimalPos.Unsigned.to_uint_nonzero p) as Hnz.
  pose proof (DecimalPos.Unsigned.to_uint_nonnil p) as Hnn.
  destruct (Pos.to_uint p) as [|d|d|d|d|d|d|d|d|d|d] eqn:E; [easy| | | | | | | | | |].
  1:{ exfalso. unfold Decimal.unorm in Hnorm. cbn [Decimal.nzhead] in Hnorm.
      pose proof (DecimalFacts.nb_digits_nzhead d) as Hle.
      destruct (Decimal.nzhead d) as [|u|u|u|u|u|u|u|u|u|u] eqn:En;
        [exact (Hnz Hnorm)| |discriminate..].
      injection Hnorm as Hd. subst u. cbn [Decimal.nb_digits] in Hle. lia. }
  all: cbn [Pos.of_uint] in Hof; injection Hof as Hof;
    cbn [Decimal.nb_digits];
    rewrite Nat2Z.inj_succ;
    replace (Z.succ (Z.of_nat (Decimal.nb_digits d)) - 1)
      with (Z.of_nat (Decimal.nb_digits d)) by lia;
    rewrite <- Hof;
    etransitivity; [|apply of_uint_acc_ge]; lia.
Qed.

Lemma decimal_length (x : Z) :
  0 <= x < 10 ^ 15 ->
  (String.length (DecimalString.NilZero.string_of_int (Z.to_int x)) <= 15)%nat.
Proof.
  intros [H0 H15]. destruct x as [|p|p]; [simpl; lia| |lia].
  cbn [Z.to_int DecimalString.NilZero.string_of_int].
  pose proof (to_uint_digits p) as Hd.
  pose proof (DecimalPos.Unsigned.to_uint_nonnil p) as Hnn.
  unfold DecimalString.NilZero.string_of_uint.
  destruct (Pos.to_uint p) eqn:E; [easy|..];
    rewrite string_of_uint_length;
    (destruct (Nat.le_gt_cases (Decimal.nb_digits (Pos.to_uint p)) 15) as [Hle|Hgt];
     [now rewrite E in Hle|
      exfalso; rewrite <- E in Hd;
      assert (10 ^ 15 <= 10 ^ (Z.of_nat (Decimal.nb_digits (Pos.to_uint p)) - 1))
        by (apply Z.pow_le_mono_r; lia); lia]).
Qed.

Lemma decimal_inj (x y : Z) :
  DecimalString.NilZero.string_of_int (Z.to_int x) =
  DecimalString.NilZero.string_of_int (Z.to_int y) -> x = y.
Proof.
  intros H.
  assert (Hi : forall z, DecimalString.NilZero.int_of_string
                 (DecimalString.NilZero.string_of_int (Z.to_int z)) = Some (Z.to_int z)).
  { intros z. apply DecimalString.NilZero.isi.
    - destruct z; simpl; try discriminate.
      intros [= E]. now apply (DecimalPos.Unsigned.to_uint_nonnil p).
    - destruct z; simpl; try discriminate.
      intros [= E]. now apply (DecimalPos.Unsigned.to_uint_nonnil p). }
  pose proof (Hi x) as Hx. rewrite H, Hi in Hx. injection Hx as Hx.
  rewrite <- (DecimalZ.of_to x), <- (DecimalZ.of_to y). now f_equal.
Qed.

(** A product that fits in 64 bits is written in decimal, whatever the
    engine does with a REAL. *)
Lemma sort_key_integer {RT : RealText} (seed id : Z) :
  - 2 ^ 63 <= id * seed < 2 ^ 63 ->
  sort_key seed id =
    substring 0 15 (DecimalString.NilZero.string_of_int (Z.to_int (id * seed))).
Proof.
  intros [Hlow Hhigh]. unfold sort_key. cbv zeta.
  apply Z.leb_le in Hlow. apply Z.ltb_lt in Hhigh.
  now rewrite Hlow, Hhigh.
Qed.

(** Ids whose products with the seed have at most 15 digits keep
    different sort keys. *)
Lemma sort_key_inj {RT : RealText} (seed a b : Z) :
  0 < seed -> 0 <= a -> 0 <= b ->
  a * seed < 10 ^ 15 -> b * seed < 10 ^ 15 ->
  sort_key seed a = sort_key seed b -> a = b.
Proof.
  intros Hs Ha Hb Hal Hbl.
  assert (H15 : 10 ^ 15 < 2 ^ 63) by reflexivity.
  rewrite !sort_key_integer by nia.
  rewrite !substring_all by (apply decimal_length; nia).
  intros H. apply decimal_inj in H. nia.
Qed.

Lemma NoDup_map_inj_on {A B} (key : A -> B) (rows : list A) :
  NoDup rows ->
  (forall a b, In a rows -> In b rows -> key a = key b -> a = b) ->
  NoDup (map key rows).
Proof.
  induction rows as [|x rows IH]; simpl; intros Hnd Hinj; constructor.
  - inversion Hnd as [|? ? Hnot _]; subst. intros Hin.
    apply in_map_iff in Hin. destruct Hin as (y & Hy & Hin).
    apply Hnot. rewrite (Hinj x y); auto.
  - inversion Hnd; subst. apply IH; auto.
Qed.

(** In tables with small products no two sort keys collide. *)
Lemma small_products_keys_distinct {RT : RealText} (seed : Z) (db : database) :
  0 < seed -> primary_keys db -> small_products seed db -> keys_distinct seed db.
Proof.
  intros Hs [_ Hpk] Hsmall. split.
  - apply NoDup_map_inj_on; [apply distinct_NoDup|].
    unfold qualifying_word_ids. intros a b Ha Hb.
    apply distinct_in, in_map_iff in Ha. destruct Ha as (ga & <- & Ha).
    apply distinct_in, in_map_iff in Hb. destruct Hb as (gb & <- & Hb).
    destruct (Hsmall ga Ha) as (_ & _ & ? & ?).
    destruct (Hsmall gb Hb) as (_ & _ & ? & ?).
    now apply sort_key_inj.
  - rewrite <- (map_map mw_id (sort_key seed)).
    apply NoDup_map_inj_on; [exact Hpk|].
    intros a b Ha Hb.
    apply in_map_iff in Ha. destruct Ha as (ga & <- & Ha).
    apply in_map_iff in Hb. destruct Hb as (gb & <- & Hb).
    destruct (Hsmall ga Ha) as (? & ? & _).
    destruct (Hsmall gb Hb) as (? & ? & _).
    now apply sort_key_inj.
Qed.

(** ** The daily selection *)

Ltac nodup_tac :=
  repeat (constructor; [simpl; intuition (try discriminate; try lia)|]);
  try constructor.

Lemma five_words_foreign_key : foreign_key_ok five_words.
Proof.
  intros g Hg. simpl in Hg.
  repeat (destruct Hg as [<-|Hg]; [simpl; tauto|]). destruct Hg.
Qed.

Lemma get_daily_meaning_wrappers_size_witness :
  exists rows,
    get_daily_meaning_wrappers (RT := no_real) [] date_2024_01_01 five_words = Ok rows /\
    length rows = Nat.min 4 (length (qualifying_word_ids five_words)).
Proof.
  destruct (get_daily_meaning_wrappers_size (RT := no_real) [] date_2024_01_01 five_words
              [50; 48; 50; 52; 45; 48; 49; 45; 48; 49]
              five_words_foreign_key eq_refl) as (rows & H1 & H2 & _).
  exists rows. split; [exact H1|exact H2].
Defined.

(** The scenario of five words: the same four entries, in word order. *)
Example daily_five_words {RT : RealText} :
  option_map (map word_id)
    (match get_daily_meaning_wrappers [] date_2024_01_01 five_words with
     | Ok rows => Some rows
     | Raise _ => None
     end) = Some [1; 2; 3; 4].
Proof. vm_compute. reflexivity. Qed.

(** A store with three words gives three entries, one gloss per word. *)
Example daily_three_words {RT : RealText} :
  option_map (map word_id)
    (match get_daily_meaning_wrappers [] date_2024_01_01 three_words with
     | Ok rows => Some rows
     | Raise _ => None
     end) = Some [1; 2; 3].
Proof. vm_compute. reflexivity. Qed.

(** When no two sort keys collide (no two candidate word ids and no
    two gloss ids share the first 15 characters of the text of
    [id * seed]; so it is whenever the seed is not 0 and every product
    is below 10^15), the selection does not depend on the order in
    which the engine meets the rows at all. *)
Lemma get_daily_meaning_wrappers_deterministic {RT : RealText}
    (today1 today2 date_str : str) (db1 db2 : database) (seed : Z) :
  date_str <> [] ->
  date_seed date_str = Ok seed ->
  same_rows db1 db2 ->
  primary_keys db1 ->
  keys_distinct seed db1 \/ (seed <> 0 /\ small_products seed db1) ->
  get_daily_meaning_wrappers today1 date_str db1 =
  get_daily_meaning_wrappers today2 date_str db2.
Proof.
  intros Hne Hseed Hsame Hpk Hkeys.
  assert (Hdistinct : keys_distinct seed db1).
  { destruct Hkeys as [H|[Hnz Hsmall]]; [exact H|].
    apply small_products_keys_distinct; auto.
    unfold date_seed in Hseed.
    destruct (encode date_str) as [bytes|e]; [|discriminate].
    cbn [bind] in Hseed. injection Hseed as <-.
    pose proof (Z.mod_pos_bound
                  (hashlib.hexdigest_int (hashlib.sha256 bytes)) (2 ^ 31)
                  ltac:(lia)) as Hb.
    lia. }
  unfold get_daily_meaning_wrappers, effective_date.
  destruct date_str as [|c s]; [congruence|]. cbn [nonempty].
  rewrite Hseed. simpl.
  now rewrite (daily_query_same_rows seed db1 db2).
Qed.

Lemma five_words_keys_distinct {RT : RealText} : keys_distinct 1884493844 five_words.
Proof. split; vm_compute; nodup_tac. Qed.

Lemma five_words_primary_keys : primary_keys five_words.
Proof. split; simpl; nodup_tac. Qed.

(** The seed of 2054-08-18 is 4098, and the word ids 10^15 + 3 and
    10^15 + 4 then have the same sort key. *)
Example tied_sort_keys {RT : RealText} :
  date_seed date_2054_08_18 = Ok 4098 /\
  map (sort_key 4098) (qualifying_word_ids tied_words_indexed) =
    ["409800000000000"; "409800000000000"; "409800000000000";
     "409800000000001"; "409800000000001"]%string.
Proof. vm_compute. auto. Qed.

(** The order by id rests on the index.  Were [meaning_wrappers] read
    by rowid, as on a file without [idx_word_id], the glosses would be
    met by gloss id, and of the words 10^15 + 3 and 10^15 + 4, whose
    keys are equal, the second would take the fourth place. *)
Example daily_tied_words_by_rowid :
  same_rows tied_words tied_words_indexed /\
  primary_keys tied_words /\
  foreign_key_ok tied_words /\
  get_daily_meaning_wrappers (RT := no_real) [] date_2054_08_18 tied_words =
    Ok [mkDaily (plain "g3") (plain "w0") 1000000000000000;
        mkDaily (plain "g4") (plain "w1") 1000000000000001;
        mkDaily (plain "g5") (plain "w2") 1000000000000002;
        mkDaily (plain "g1") (plain "w4") 1000000000000004] /\
  get_daily_meaning_wrappers (RT := no_real) [] date_2054_08_18 tied_words_indexed =
    Ok [mkDaily (plain "g3") (plain "w0") 1000000000000000;
        mkDaily (plain "g4") (plain "w1") 1000000000000001;
        mkDaily (plain "g5") (plain "w2") 1000000000000002;
        mkDaily (plain "g2") (plain "w3") 1000000000000003] /\
  get_daily_meaning_wrappers (RT := no_real) [] date_2054_08_18 tied_words <>
  get_daily_meaning_wrappers (RT := no_real) [] date_2054_08_18 tied_words_indexed.
Proof.
  assert (H1 : get_daily_meaning_wrappers (RT := no_real) [] date_2054_08_18 tied_words =
    Ok [mkDaily (plain "g3") (plain "w0") 1000000000000000;
        mkDaily (plain "g4") (plain "w1") 1000000000000001;
        mkDaily (plain "g5") (plain "w2") 1000000000000002;
        mkDaily (plain "g1") (plain "w4") 1000000000000004])
    by (vm_compute; reflexivity).
  assert (H2 : get_daily_meaning_wrappers (RT := no_real) [] date_2054_08_18 tied_words_indexed =
    Ok [mkDaily (plain "g3") (plain "w0") 1000000000000000;
        mkDaily (plain "g4") (plain "w1") 1000000000000001;
        mkDaily (plain "g5") (plain "w2") 1000000000000002;
        mkDaily (plain "g2") (plain "w3") 1000000000000003])
    by (vm_compute; reflexivity).
  split; [|split; [|split; [|split; [exact H1|split; [exact H2|]]]]].
  - split; [reflexivity|].
    apply NoDup_Permutation; [simpl; nodup_tac..|].
    intros g. simpl. tauto.
  - split; simpl; nodup_tac.
  - intros g Hg. simpl in Hg.
    repeat (destruct Hg as [<-|Hg]; [simpl; tauto|]). destruct Hg.
  - rewrite H1, H2. intros H. discriminate H.
Qed.

(** ** The seed *)

(** C4, as the code has it: the seed is the digest, read as an unsigned
    big-endian integer and reduced mod 2^31, that is its 31 lowest
    (last) bits, and lies in [0, 2^31). *)
Theorem date_seed_low_bits (date_str : str) (bytes : list Z) :
  encode date_str = Ok bytes ->
  exists seed,
    date_seed date_str = Ok seed /\
    seed = hashlib.hexdigest_int (hashlib.sha256 bytes) mod 2 ^ 31 /\
    0 <= seed < 2 ^ 31 /\
    (forall i, 0 <= i < 31 ->
       Z.testbit seed i = Z.testbit (hashlib.hexdigest_int (hashlib.sha256 bytes)) i) /\
    (forall i, 31 <= i -> Z.testbit seed i = false).
Proof.
  intros Henc. unfold date_seed. rewrite Henc. cbn [bind].
  eexists. split; [reflexivity|]. split; [reflexivity|].
  split; [apply Z.mod_pos_bound; lia|]. split.
  - intros i Hi. apply Z.mod_pow2_bits_low. lia.
  - intros i Hi. apply Z.mod_pow2_bits_high. lia.
Qed.

Lemma date_seed_low_bits_witness :
  exists seed,
    date_seed date_2024_01_01 = Ok seed /\
    seed = hashlib.hexdigest_int
             (hashlib.sha256 [50; 48; 50; 52; 45; 48; 49; 45; 48; 49]) mod 2 ^ 31 /\
    0 <= seed < 2 ^ 31 /\
    (forall i, 0 <= i < 31 ->
       Z.testbit seed i =
       Z.testbit (hashlib.hexdigest_int
                    (hashlib.sha256 [50; 48; 50; 52; 45; 48; 49; 45; 48; 49])) i) /\
    (forall i, 31 <= i -> Z.testbit seed i = false).
Proof.
  exact (date_seed_low_bits date_2024_01_01
           [50; 48; 50; 52; 45; 48; 49; 45; 48; 49] eq_refl).
Defined.

(** C4, as stated, fails: for 2024-01-01 the leading 31 bits of the
    digest are 551229402, the seed of the code is 1884493844. *)
Lemma date_seed_first_bits_counterexample :
  date_seed date_2024_01_01 = Ok 1884493844 /\
  date_seed_first_bits date_2024_01_01 = Ok 551229402 /\
  date_seed date_2024_01_01 <> date_seed_first_bits date_2024_01_01.
Proof.
  assert (H1 : date_seed date_2024_01_01 = Ok 1884493844)
    by (vm_compute; reflexivity).
  assert (H2 : date_seed_first_bits date_2024_01_01 = Ok 551229402)
    by (vm_compute; reflexivity).
  rewrite H1, H2. repeat split. discriminate.
Qed.

(** ** The offset mode *)

(** More fuel does not change a result. *)
Lemma randbelow_mono (fuel fuel' : nat) (n : Z) (s : random.state)
    (r : Z * random.state) :
  (fuel <= fuel')%nat ->
  random.randbelow fuel n s = Some r -> random.randbelow fuel' n s = Some r.
Proof.
  revert fuel' s. induction fuel as [|fuel IH]; intros fuel' s Hle H; [discriminate|].
  destruct fuel' as [|fuel']; [lia|]. cbn [random.randbelow] in *.
  destruct (random.getrandbits (random.bit_length n) s) as [x s1].
  destruct (n <=? x); [|exact H]. apply IH; [lia|exact H].
Qed.

Lemma sample_pool_mono {A} (fuel fuel' k n : nat) (pool : list A)
    (s : random.state) (r : list A * random.state) :
  (fuel <= fuel')%nat ->
  random.sample_pool fuel k n pool s = Some r ->
  random.sample_pool fuel' k n pool s = Some r.
Proof.
  intros Hle. revert n pool s r.
  induction k as [|k IH]; intros n pool s r H; cbn [random.sample_pool] in *;
    [exact H|].
  destruct (random.randbelow fuel (Z.of_nat n) s) as [[j s1]|] eqn:E; [|discriminate].
  rewrite (randbelow_mono _ _ _ _ _ Hle E).
  destruct (nth_error pool (Z.to_nat j)) as [x|]; [|discriminate].
  destruct (nth_error pool (n - 1)) as [last|]; [|discriminate].
  destruct (random.sample_pool fuel k (n - 1)
              (random.set_nth (Z.to_nat j) last pool) s1) as [[r0 s2]|] eqn:E2;
    [|discriminate].
  now rewrite (IH _ _ _ _ E2).
Qed.

Lemma fresh_index_mono (fuel fuel' : nat) (n : Z) (selected : list Z)
    (s : random.state) (r : Z * random.state) :
  (fuel <= fuel')%nat ->
  random.fresh_index fuel n selected s = Some r ->
  random.fresh_index fuel' n selected s = Some r.
Proof.
  revert fuel' s. induction fuel as [|fuel IH]; intros fuel' s Hle H; [discriminate|].
  destruct fuel' as [|fuel']; [lia|].
  cbn [random.fresh_index] in *.
  destruct (random.randbelow (S fuel) n s) as [[j s1]|] eqn:E; [|discriminate].
  rewrite (randbelow_mono (S fuel) (S fuel') _ _ _ Hle E).
  destruct (existsb (Z.eqb j) selected); [|exact H].
  apply IH; [lia|exact H].
Qed.

Lemma sample_set_mono {A} (fuel fuel' k : nat) (population : list A)
    (selected : list Z) (s : random.state) (r : list A * random.state) :
  (fuel <= fuel')%nat ->
  random.sample_set fuel k population selected s = Some r ->
  random.sample_set fuel' k population selected s = Some r.
Proof.
  intros Hle. revert selected s r.
  induction k as [|k IH]; intros selected s r H; cbn [random.sample_set] in *;
    [exact H|].
  destruct (random.fresh_index fuel (Z.of_nat (length population)) selected s)
    as [[j s1]|] eqn:E; [|discriminate].
  rewrite (fresh_index_mono _ _ _ _ _ _ Hle E).
  destruct (nth_error population (Z.to_nat j)) as [x|]; [|discriminate].
  destruct (random.sample_set fuel k population (j :: selected) s1)
    as [[r0 s2]|] eqn:E2; [|discriminate].
  now rewrite (IH _ _ _ E2).
Qed.

Lemma sample_mono {A} (fuel fuel' k : nat) (population : list A)
    (s : random.state) (r : result (list A * random.state)) :
  (fuel <= fuel')%nat ->
  random.sample fuel population k s = Some r ->
  random.sample fuel' population k s = Some r.
Proof.
  intros Hle. unfold random.sample.
  destruct (length population <? k)%nat; [auto|].
  destruct (length population <=? 21)%nat.
  - destruct (random.sample_pool fuel k (length population) population s)
      as [x|] eqn:E; [|discriminate].
    now rewrite (sample_pool_mono _ _ _ _ _ _ _ Hle E).
  - destruct (random.sample_set fuel k population [] s) as [x|] eqn:E; [|discriminate].
    now rewrite (sample_set_mono _ _ _ _ _ _ _ Hle E).
Qed.

Lemma generate_word_date_mono (fuel fuel' : nat) (date_str : str) (offset : Z)
    (db : database) (r : result word_dict) :
  (fuel <= fuel')%nat ->
  generate_word_date fuel date_str offset db = Some r ->
  generate_word_date fuel' date_str offset db = Some r.
Proof.
  intros Hle. unfold generate_word_date.
  destruct (offset_seed date_str) as [seed|e]; [|auto].
  destruct (random.sample fuel (get_all_words db) 4 (random.seed seed))
    as [x|] eqn:E; [|discriminate].
  now rewrite (sample_mono _ _ _ _ _ _ Hle E).
Qed.

(** A sample holds items of the population only. *)
Lemma set_nth_in {A} (i : nat) (x y : A) (l : list A) :
  In y (random.set_nth i x l) -> y = x \/ In y l.
Proof.
  revert i. induction l as [|a l IH]; intros [|i]; simpl; try tauto.
  - intros [<-|H]; auto.
  - intros [<-|H]; auto. destruct (IH _ H); auto.
Qed.

Lemma sample_pool_in {A} (fuel k n : nat) (pool : list A) (s s' : random.state)
    (r : list A) :
  random.sample_pool fuel k n pool s = Some (r, s') ->
  forall y, In y r -> In y pool.
Proof.
  revert n pool s r.
  induction k as [|k IH]; intros n pool s r H y Hy; cbn [random.sample_pool] in H.
  - inversion H; subst. destruct Hy.
  - destruct (random.randbelow fuel (Z.of_nat n) s) as [[j s1]|]; [|discriminate].
    destruct (nth_error pool (Z.to_nat j)) as [x|] eqn:Ex; [|discriminate].
    destruct (nth_error pool (n - 1)) as [last|] eqn:El; [|discriminate].
    destruct (random.sample_pool fuel k (n - 1)
                (random.set_nth (Z.to_nat j) last pool) s1) as [[r0 s2]|] eqn:E2;
      [|discriminate].
    inversion H; subst. destruct Hy as [<-|Hy].
    + eapply nth_error_In; eassumption.
    + apply (IH _ _ _ _ E2), set_nth_in in Hy. destruct Hy as [->|Hy]; auto.
      eapply nth_error_In; eassumption.
Qed.

Lemma sample_set_in {A} (fuel k : nat) (population : list A) (selected : list Z)
    (s s' : random.state) (r : list A) :
  random.sample_set fuel k population selected s = Some (r, s') ->
  forall y, In y r -> In y population.
Proof.
  revert selected s r.
  induction k as [|k IH]; intros selected s r H y Hy; cbn [random.sample_set] in H.
  - inversion H; subst. destruct Hy.
  - destruct (random.fresh_index fuel (Z.of_nat (length population)) selected s)
      as [[j s1]|]; [|discriminate].
    destruct (nth_error population (Z.to_nat j)) as [x|] eqn:Ex; [|discriminate].
    destruct (random.sample_set fuel k population (j :: selected) s1)
      as [[r0 s2]|] eqn:E2; [|discriminate].
    inversion H; subst. destruct Hy as [<-|Hy].
    + eapply nth_error_In; eassumption.
    + eapply IH; eassumption.
Qed.

Lemma sample_in {A} (fuel k : nat) (population : list A) (s s' : random.state)
    (r : list A) :
  random.sample fuel population k s = Some (Ok (r, s')) ->
  (k <= length population)%nat /\ forall y, In y r -> In y population.
Proof.
  unfold random.sample.
  destruct (Nat.ltb_spec (length population) k) as [Hlt|Hge]; [discriminate|].
  intros Hs. split; [assumption|].
  destruct (length population <=? 21)%nat.
  - destruct (random.sample_pool fuel k (length population) population s)
      as [[r0 s0]|] eqn:E; [|discriminate].
    inversion Hs; subst. eapply sample_pool_in; eassumption.
  - destruct (random.sample_set fuel k population [] s) as [[r0 s0]|] eqn:E;
      [|discriminate].
    inversion Hs; subst. eapply sample_set_in; eassumption.
Qed.

Lemma sample_pool_length {A} (fuel k n : nat) (pool : list A) (s s' : random.state)
    (r : list A) :
  random.sample_pool fuel k n pool s = Some (r, s') -> length r = k.
Proof.
  revert n pool s r.
  induction k as [|k IH]; intros n pool s r H; cbn [random.sample_pool] in H.
  - now inversion H.
  - destruct (random.randbelow fuel (Z.of_nat n) s) as [[j s1]|]; [|discriminate].
    destruct (nth_error pool (Z.to_nat j)) as [x|]; [|discriminate].
    destruct (nth_error pool (n - 1)) as [last|]; [|discriminate].
    destruct (random.sample_pool fuel k (n - 1)
                (random.set_nth (Z.to_nat j) last pool) s1) as [[r0 s2]|] eqn:E2;
      [|discriminate].
    inversion H; subst. simpl. f_equal. eapply IH; eassumption.
Qed.

Lemma sample_set_length {A} (fuel k : nat) (population : list A) (selected : list Z)
    (s s' : random.state) (r : list A) :
  random.sample_set fuel k population selected s = Some (r, s') -> length r = k.
Proof.
  revert selected s r.
  induction k as [|k IH]; intros selected s r H; cbn [random.sample_set] in H.
  - now inversion H.
  - destruct (random.fresh_index fuel (Z.of_nat (length population)) selected s)
      as [[j s1]|]; [|discriminate].
    destruct (nth_error population (Z.to_nat j)) as [x|]; [|discriminate].
    destruct (random.sample_set fuel k population (j :: selected) s1)
      as [[r0 s2]|] eqn:E2; [|discriminate].
    inversion H; subst. simpl. f_equal. eapply IH; eassumption.
Qed.

Lemma sample_length {A} (fuel k : nat) (population : list A) (s s' : random.state)
    (r : list A) :
  random.sample fuel population k s = Some (Ok (r, s')) -> length r = k.
Proof.
  unfold random.sample.
  destruct (length population <? k)%nat; [discriminate|].
  destruct (length population <=? 21)%nat; intros Hs.
  - destruct (random.sample_pool fuel k (length population) population s)
      as [[r0 s0]|] eqn:E; [|discriminate].
    inversion Hs; subst. eapply sample_pool_length; eassumption.
  - destruct (random.sample_set fuel k population [] s) as [[r0 s0]|] eqn:E;
      [|discriminate].
    inversion Hs; subst. eapply sample_set_length; eassumption.
Qed.

(** C2, as the code has it: when the offset mode returns an entry, it
    is the item at position [offset mod 4] of a sample of four rows of
    [get_all_words] (each a gloss with its word) that a generator
    seeded with MD5(date) mod 2^32 draws; so it is a row of the store,
    there are at least four rows, the entry depends on the offset only
    through [offset mod 4], and it does not depend on the fuel. *)
Theorem generate_word_date_selects (fuel : nat) (date_str : str) (offset : Z)
    (db : database) (r : word_dict) :
  generate_word_date fuel date_str offset db = Some (Ok r) ->
  (exists bytes data_rand rng,
     encode date_str = Ok bytes /\
     random.sample fuel (get_all_words db) 4
       (random.seed (hashlib.hexdigest_int (hashlib.md5 bytes) mod 2 ^ 32)) =
       Some (Ok (data_rand, rng)) /\
     length data_rand = 4%nat /\
     nth_error data_rand (Z.to_nat (offset mod 4)) = Some r) /\
  In r (get_all_words db) /\
  (4 <= length (get_all_words db))%nat /\
  generate_word_date fuel date_str (offset mod 4) db = Some (Ok r) /\
  (forall fuel', (fuel <= fuel')%nat ->
     generate_word_date fuel' date_str offset db = Some (Ok r)).
Proof.
  intros H.
  assert (Hmod : generate_word_date fuel date_str (offset mod 4) db = Some (Ok r)).
  { unfold generate_word_date in *. now rewrite Z.mod_mod. }
  assert (Hmono : forall fuel', (fuel <= fuel')%nat ->
            generate_word_date fuel' date_str offset db = Some (Ok r))
    by (intros fuel' Hle; eapply generate_word_date_mono; eassumption).
  unfold generate_word_date, offset_seed in H.
  destruct (encode date_str) as [bytes|e]; [|discriminate]. cbn [bind] in H.
  destruct (random.sample fuel (get_all_words db) 4
              (random.seed (hashlib.hexdigest_int (hashlib.md5 bytes) mod 2 ^ 32)))
    as [[[data_rand rng]|e]|] eqn:E; try discriminate.
  destruct (nth_error data_rand (Z.to_nat (offset mod 4))) as [d|] eqn:En;
    [|discriminate].
  inversion H; subst d. clear H.
  destruct (sample_in _ _ _ _ _ _ E) as [Hlen Hin].
  repeat split; auto.
  - exists bytes, data_rand, rng. repeat split; auto.
    eapply sample_length; eassumption.
  - apply Hin. eapply nth_error_In; eassumption.
Qed.

Lemma generate_word_date_selects_witness :
  In (mkWordDict (plain "g3") (plain "w3") 3 3) (get_all_words five_words) /\
  generate_word_date 64 date_2024_01_01 (0 mod 4) five_words =
    Some (Ok (mkWordDict (plain "g3") (plain "w3") 3 3)).
Proof.
  assert (H : generate_word_date 64 date_2024_01_01 0 five_words =
              Some (Ok (mkWordDict (plain "g3") (plain "w3") 3 3)))
    by (vm_compute; reflexivity).
  destruct (generate_word_date_selects 64 date_2024_01_01 0 five_words _ H)
    as (_ & H1 & _ & H2 & _).
  split; [exact H1|exact H2].
Defined.

(** The four offsets on the store of five words: words 3, 2, 5 and 1,
    where the batch mode gives the words 1, 2, 3 and 4. *)
Example generate_word_date_five_words :
  map (fun k => match generate_word_date 64 date_2024_01_01 k five_words with
                | Some (Ok r) => wd_word_id r
                | _ => -1
                end) [0; 1; 2; 3] = [3; 2; 5; 1].
Proof. vm_compute. reflexivity. Qed.

(** C2, as stated, fails: on the store of five words and the date
    2024-01-01 the two modes derive different seeds, offset 0 selects
    word 3 where the batch list starts with word 1, and offset 2
    selects word 5, which is not in the batch list at all. *)
Lemma generate_word_date_counterexample :
  (4 <= length (qualifying_word_ids five_words))%nat /\
  date_seed date_2024_01_01 = Ok 1884493844 /\
  offset_seed date_2024_01_01 = Ok 730403084 /\
  (forall (RT : RealText) fuel r rows,
     generate_word_date fuel date_2024_01_01 0 five_words = Some (Ok r) ->
     get_daily_meaning_wrappers [] date_2024_01_01 five_words = Ok rows ->
     nth_error rows 0 <> Some (as_daily_row r)) /\
  (forall (RT : RealText) fuel r rows,
     generate_word_date fuel date_2024_01_01 2 five_words = Some (Ok r) ->
     get_daily_meaning_wrappers [] date_2024_01_01 five_words = Ok rows ->
     ~ In (as_daily_row r) rows).
Proof.
  assert (Hbatch : forall RT : RealText,
            get_daily_meaning_wrappers [] date_2024_01_01 five_words =
            Ok [mkDaily (plain "g1") (plain "w1") 1; mkDaily (plain "g2") (plain "w2") 2;
                mkDaily (plain "g3") (plain "w3") 3; mkDaily (plain "g4") (plain "w4") 4])
    by (intros RT; vm_compute; reflexivity).
  assert (H0 : generate_word_date 64 date_2024_01_01 0 five_words =
               Some (Ok (mkWordDict (plain "g3") (plain "w3") 3 3)))
    by (vm_compute; reflexivity).
  assert (H2 : generate_word_date 64 date_2024_01_01 2 five_words =
               Some (Ok (mkWordDict (plain "g5") (plain "w5") 5 5)))
    by (vm_compute; reflexivity).
  split; [vm_compute; lia|].
  split; [vm_compute; reflexivity|].
  split; [vm_compute; reflexivity|].
  split.
  - intros RT fuel r rows Hr Hrows.
    rewrite Hbatch in Hrows. inversion Hrows; subst rows. clear Hrows.
    assert (Hr' := generate_word_date_mono _ (Nat.max fuel 64) _ _ _ _
                     (Nat.le_max_l fuel 64) Hr).
    rewrite (generate_word_date_mono _ (Nat.max fuel 64) _ _ _ _
               (Nat.le_max_r fuel 64) H0) in Hr'.
    inversion Hr'; subst r. vm_compute. intros H. discriminate H.
  - intros RT fuel r rows Hr Hrows.
    rewrite Hbatch in Hrows. inversion Hrows; subst rows. clear Hrows.
    assert (Hr' := generate_word_date_mono _ (Nat.max fuel 64) _ _ _ _
                     (Nat.le_max_l fuel 64) Hr).
    rewrite (generate_word_date_mono _ (Nat.max fuel 64) _ _ _ _
               (Nat.le_max_r fuel 64) H2) in Hr'.
    inversion Hr'; subst r. vm_compute.
    intros [H|[H|[H|[H|[]]]]]; discriminate H.
Qed.

(** X16: with fewer than four rows in [get_all_words] the sample of
    four cannot be drawn: [generate_word_date] raises the [ValueError] of
    [random.sample], for every date that can be encoded and every
    offset. *)
Lemma generate_word_date_small_store (fuel : nat) (date_str : str) (offset : Z)
    (db : database) (bytes : list Z) :
  encode date_str = Ok bytes ->
  (length (get_all_words db) < 4)%nat ->
  generate_word_date fuel date_str offset db =
    Some (Raise (ValueError "Sample larger than population or is negative")).
Proof.
  intros Henc Hlt. unfold generate_word_date, offset_seed, random.sample.
  rewrite Henc. cbn [bind].
  now rewrite (proj2 (Nat.ltb_lt _ _) Hlt).
Qed.

Lemma generate_word_date_small_store_witness :
  generate_word_date 0 date_2024_01_01 2 (insert_all (concat sample_results) empty_db) =
    Some (Raise (ValueError "Sample larger than population or is negative")).
Proof.
  apply (generate_word_date_small_store 0 date_2024_01_01 2
           (insert_all (concat sample_results) empty_db)
           [50; 48; 50; 52; 45; 48; 49; 45; 48; 49]).
  - reflexivity.
  - vm_compute. lia.
Defined.

(* ------------------------------------------------------------------ *)
(** ** draw.py: the semicolon nearest to the middle *)

Lemma char_at_range (string : str) (i : Z) (c : char) :
  char_at string i = Some c -> 0 <= i < Z.of_nat (length string).
Proof.
  unfold char_at. destruct (Z.ltb_spec i 0) as [Hneg|Hpos]; [discriminate|].
  intros Hc.
  assert (Hlt : (Z.to_nat i < length string)%nat)
    by (apply (proj1 (nth_error_Some string (Z.to_nat i))); rewrite Hc; discriminate).
  lia.
Qed.

Lemma is_semicolon_true (c : option char) :
  is_semicolon c = true <-> c = Some 59.
Proof.
  destruct c as [c|]; simpl.
  - rewrite Z.eqb_eq. split; [intros ->; reflexivity|intros H; now inversion H].
  - split; discriminate.
Qed.

Lemma semicolon_loop_spec (string : str) (fuel : nat) :
  forall k : Z,
  0 <= k <= middle string ->
  middle string - k < Z.of_nat fuel ->
  (forall q, char_at string q = Some 59 -> k < Z.abs (q - middle string)) ->
  exists p, semicolon_loop fuel string k = Some p /\
    ((p = -1 /\ forall q, char_at string q <> Some 59) \/
     nearest_semicolon string p).
Proof.
  induction fuel as [|fuel IH]; intros k Hk Hfuel Hfar; [simpl in Hfuel; lia|].
  cbn [semicolon_loop]. fold (middle string).
  assert (Hmid : Z.of_nat (length string) <= 2 * middle string + 1).
  { unfold middle. pose proof (Z.div_mod (Z.of_nat (length string)) 2).
    pose proof (Z.mod_pos_bound (Z.of_nat (length string)) 2). lia. }
  destruct ((0 <=? middle string - (k + 1)) &&
            is_semicolon (char_at string (middle string - (k + 1)))) eqn:Hleft.
  { apply andb_prop in Hleft as [_ Hleft]. apply is_semicolon_true in Hleft.
    eexists; split; [reflexivity|]. right. split; [exact Hleft|].
    intros q Hq. specialize (Hfar q Hq). lia. }
  destruct ((middle string + (k + 1) <? Z.of_nat (length string)) &&
            is_semicolon (char_at string (middle string + (k + 1)))) eqn:Hright.
  { apply andb_prop in Hright as [_ Hright]. apply is_semicolon_true in Hright.
    eexists; split; [reflexivity|]. right. split; [exact Hright|].
    intros q Hq. pose proof (Hfar q Hq) as Hd.
    destruct (Z.eq_dec q (middle string - (k + 1))) as [->|Hne]; [|lia].
    pose proof (char_at_range _ _ _ Hq) as Hin.
    apply is_semicolon_true in Hq. rewrite Hq, andb_true_r in Hleft.
    apply Z.leb_gt in Hleft. lia. }
  assert (Hnone : forall q, char_at string q = Some 59 ->
                            k + 1 < Z.abs (q - middle string)).
  { intros q Hq. pose proof (Hfar q Hq) as Hd.
    pose proof (char_at_range _ _ _ Hq) as Hin.
    pose proof Hq as Hs. apply is_semicolon_true in Hs.
    destruct (Z.eq_dec q (middle string - (k + 1))) as [->|Hl].
    { rewrite Hs, andb_true_r in Hleft. apply Z.leb_gt in Hleft. lia. }
    destruct (Z.eq_dec q (middle string + (k + 1))) as [->|Hr]; [|lia].
    rewrite Hs, andb_true_r in Hright. apply Z.ltb_ge in Hright. lia. }
  destruct ((middle string - (k + 1) <? 0) &&
            (Z.of_nat (length string) <=? middle string + (k + 1))) eqn:Hout.
  { apply andb_prop in Hout as [Hl Hr].
    apply Z.ltb_lt in Hl. apply Z.leb_le in Hr.
    eexists; split; [reflexivity|]. left. split; [reflexivity|].
    intros q Hq. pose proof (Hnone q Hq). pose proof (char_at_range _ _ _ Hq). lia. }
  apply IH; [|lia|exact Hnone].
  apply andb_false_iff in Hout as [Hl|Hr].
  - apply Z.ltb_ge in Hl. lia.
  - apply Z.leb_gt in Hr. lia.
Qed.

(** X1: [get_center_semicolon_pos] raises [IndexError] on the empty
    string; on any other string it returns, and what it returns is -1
    when the string has no semicolon and otherwise the index of a
    semicolon that is nearest to the middle index [len(string) // 2],
    the left one of two at the same distance. *)
Theorem get_center_semicolon_pos_nearest (string : str) :
  match string with
  | [] => get_center_semicolon_pos string = Some (Raise IndexError)
  | _ :: _ =>
      exists p, get_center_semicolon_pos string = Some (Ok p) /\
        ((p = -1 /\ no_semicolon string) \/ nearest_semicolon string p)
  end.
Proof.
  destruct string as [|c0 rest]; [reflexivity|].
  set (string := c0 :: rest).
  assert (Hlen : 0 < Z.of_nat (length string)) by (simpl; lia).
  assert (Hm : 0 <= middle string < Z.of_nat (length string)).
  { unfold middle. split; [apply Z.div_pos; lia|apply Z.div_lt; lia]. }
  unfold get_center_semicolon_pos. fold (middle string).
  destruct (char_at string (middle string)) as [c|] eqn:Hc.
  2:{ unfold char_at in Hc. destruct (Z.ltb_spec (middle string) 0); [lia|].
      apply nth_error_None in Hc. lia. }
  destruct (Z.eqb_spec c 59) as [->|Hne].
  { eexists; split; [reflexivity|]. right. split; [exact Hc|]. intros q _. lia. }
  destruct (semicolon_loop_spec string (S (length string)) 0) as (p & Hp & Hspec).
  - lia.
  - lia.
  - intros q Hq.
    destruct (Z.eq_dec q (middle string)) as [->|Hq']; [congruence|lia].
  - rewrite Hp. eexists; split; [reflexivity|].
    destruct Hspec as [[-> Hno]|Hnear]; [left|right; exact Hnear].
    split; [reflexivity|]. intros Hin.
    apply In_nth_error in Hin as (i & Hi).
    apply (Hno (Z.of_nat i)). unfold char_at.
    destruct (Z.ltb_spec (Z.of_nat i) 0); [lia|]. now rewrite Nat2Z.id.
Qed.

(* ------------------------------------------------------------------ *)
(** ** draw.py: the search for a font size *)

Lemma font_size_loop_spec (fits : Z -> bool) (initial_size min_size : Z) (fuel : nat) :
  forall font_size : Z,
  font_size <= initial_size ->
  (forall s, font_size < s <= initial_size -> fits s = false) ->
  font_size = initial_size \/ min_size <= font_size ->
  (0 < fuel)%nat -> font_size - min_size < Z.of_nat fuel ->
  exists r, font_size_loop fuel fits font_size min_size = Some r /\
            largest_fitting fits initial_size min_size r.
Proof.
  induction fuel as [|fuel IH]; intros font_size Hle Habove Hpos Hfuel0 Hfuel; [lia|].
  cbn [font_size_loop].
  destruct (fits font_size) eqn:Hfits.
  { eexists; split; [reflexivity|]. repeat split; auto. }
  assert (Habove' : forall s, font_size - 1 < s <= initial_size -> fits s = false).
  { intros s Hs. destruct (Z.eq_dec s font_size) as [->|Hne]; [exact Hfits|].
    apply Habove. lia. }
  destruct (Z.ltb_spec (font_size - 1) min_size) as [Hlow|Hhigh].
  { eexists; split; [reflexivity|]. repeat split; [lia|exact Habove'|]. right. lia. }
  apply IH; [lia|exact Habove'|right; exact Hhigh|lia|lia].
Qed.

(** X2: both searches for a font size return, and never more than
    [initial_size].  The result is the largest size from [initial_size]
    downwards that passes the test, provided that size is [initial_size]
    itself or not below [min_size]; when no such size passes, the result
    is [min(initial_size, min_size) - 1], a size below [min_size] that was
    never measured. *)
Theorem get_font_size_constraint_largest (fits : Z -> bool) (initial_size min_size : Z) :
  (exists r, get_font_size_constraint_width fits initial_size min_size = Some r /\
             largest_fitting fits initial_size min_size r) /\
  (exists r, get_font_size_constraint_height fits initial_size min_size = Some r /\
             largest_fitting fits initial_size min_size r).
Proof.
  assert (H : exists r,
             font_size_loop (S (Z.to_nat (initial_size - min_size))) fits
               initial_size min_size = Some r /\
             largest_fitting fits initial_size min_size r).
  { apply font_size_loop_spec; [lia|intros s Hs; lia|now left|lia|lia]. }
  split; exact H.
Qed.

(* ------------------------------------------------------------------ *)
(** ** draw.py: the rows of [get_all_words] *)

Lemma get_all_words_unfold (db : database) :
  get_all_words db = order_by word_order_leb (gloss_word_pairs db).
Proof. reflexivity. Qed.

Lemma word_order_leb_spec (a b : word_dict) :
  word_order_leb a b = true <-> by_word_then_id a b.
Proof.
  unfold word_order_leb, by_word_then_id.
  rewrite orb_true_iff, andb_true_iff, Z.ltb_lt, Z.eqb_eq, Z.leb_le. reflexivity.
Qed.

Lemma word_order_leb_total (a b : word_dict) :
  word_order_leb a b = true \/ word_order_leb b a = true.
Proof. rewrite !word_order_leb_spec. unfold by_word_then_id. lia. Qed.

Lemma word_order_leb_trans (a b c : word_dict) :
  word_order_leb a b = true -> word_order_leb b c = true -> word_order_leb a c = true.
Proof. rewrite !word_order_leb_spec. unfold by_word_then_id. lia. Qed.

Lemma StronglySorted_weaken {T} (before after : T -> T -> Prop) (rows : list T) :
  (forall u v, before u v -> after u v) ->
  StronglySorted before rows -> StronglySorted after rows.
Proof.
  intros Himp Hs. induction Hs as [|u rows Hs IH Hall]; constructor; [exact IH|].
  eapply Forall_impl; [|exact Hall]. intros v. apply Himp.
Qed.

Lemma gloss_word_pairs_in (db : database) (r : word_dict) :
  In r (gloss_word_pairs db) <->
  exists g w, In g (meaning_wrappers db) /\ In w (words db) /\
              mw_word_id g = w_id w /\ r = word_dict_of g w.
Proof.
  unfold gloss_word_pairs. rewrite in_flat_map. split.
  - intros (g & Hg & Hr). apply in_flat_map in Hr as (w & Hw & Hr).
    destruct (Z.eqb_spec (mw_word_id g) (w_id w)) as [Heq|Hne]; [|destruct Hr].
    destruct Hr as [<-|[]]. now exists g, w.
  - intros (g & w & Hg & Hw & Heq & ->). exists g. split; [exact Hg|].
    apply in_flat_map. exists w. split; [exact Hw|].
    rewrite (proj2 (Z.eqb_eq _ _) Heq). now left.
Qed.

(** X3: [get_all_words] returns exactly the dicts of the pairs of a
    gloss and a word with [mw.word_id = w.id] (a gloss whose word is
    missing gives none), and returns them in ascending order of
    [word_id] and, within a word, of the gloss id. *)
Theorem get_all_words_rows (db : database) :
  (forall r, In r (get_all_words db) <->
     exists g w, In g (meaning_wrappers db) /\ In w (words db) /\
                 mw_word_id g = w_id w /\ r = word_dict_of g w) /\
  StronglySorted by_word_then_id (get_all_words db).
Proof.
  rewrite get_all_words_unfold. split.
  - intros r. rewrite order_by_in. apply gloss_word_pairs_in.
  - eapply StronglySorted_weaken;
      [|apply (order_by_sorted word_order_leb
                 word_order_leb_total word_order_leb_trans)].
    intros u v. apply word_order_leb_spec.
Qed.

Lemma word_join_none (g : mw_row) (ws : list word_row) :
  ~ In (mw_word_id g) (map w_id ws) ->
  flat_map (fun w => if mw_word_id g =? w_id w then [word_dict_of g w] else []) ws = [].
Proof.
  induction ws as [|w ws IH]; intros Hnot; simpl; [reflexivity|].
  destruct (Z.eqb_spec (mw_word_id g) (w_id w)) as [Heq|Hne].
  - exfalso. apply Hnot. left. now symmetry.
  - apply IH. intros Hin. apply Hnot. now right.
Qed.

Lemma word_join_one (g : mw_row) (ws : list word_row) :
  NoDup (map w_id ws) -> In (mw_word_id g) (map w_id ws) ->
  exists w, In w ws /\ w_id w = mw_word_id g /\
    flat_map (fun w => if mw_word_id g =? w_id w then [word_dict_of g w] else []) ws
    = [word_dict_of g w].
Proof.
  induction ws as [|w ws IH]; intros Hnd Hin; [destruct Hin|].
  inversion Hnd as [|? ? Hnot Hnd']; subst. cbn [flat_map].
  destruct (Z.eqb_spec (mw_word_id g) (w_id w)) as [Heq|Hne].
  - exists w. split; [now left|]. split; [now symmetry|].
    rewrite word_join_none; [reflexivity|]. now rewrite Heq.
  - destruct Hin as [Hin|Hin]; [congruence|].
    destruct (IH Hnd' Hin) as (w' & Hw' & Hid & Hrows).
    exists w'. split; [now right|]. split; [exact Hid|exact Hrows].
Qed.

Lemma get_all_words_gloss_ids (db : database) :
  NoDup (map w_id (words db)) -> foreign_key_ok db ->
  Permutation (map wd_meaning_wrapper_id (get_all_words db))
              (map mw_id (meaning_wrappers db)).
Proof.
  intros Hw Hfk.
  assert (Hids : map wd_meaning_wrapper_id (gloss_word_pairs db)
                 = map mw_id (meaning_wrappers db)).
  { unfold gloss_word_pairs. unfold foreign_key_ok in Hfk.
    induction (meaning_wrappers db) as [|g gs IH]; [reflexivity|].
    cbn [flat_map]. rewrite map_app.
    destruct (word_join_one g (words db) Hw (Hfk g (or_introl eq_refl)))
      as (w & _ & _ & ->).
    simpl. f_equal. apply IH. intros g' Hg'. apply Hfk. now right. }
  rewrite get_all_words_unfold, <- Hids.
  apply Permutation_map, Permutation_sym, order_by_perm.
Qed.

(** X4: on tables that meet the schema's constraints (no word id
    twice, every gloss with its word) [get_all_words] returns every
    gloss exactly once: the gloss ids of its rows are the gloss ids of
    [meaning_wrappers], each as often as the table holds it, and there
    are as many rows as glosses. *)
Theorem get_all_words_every_gloss_once (db : database) :
  primary_keys db -> foreign_key_ok db ->
  Permutation (map wd_meaning_wrapper_id (get_all_words db))
              (map mw_id (meaning_wrappers db)) /\
  length (get_all_words db) = length (meaning_wrappers db).
Proof.
  intros [Hw _] Hfk.
  pose proof (get_all_words_gloss_ids db Hw Hfk) as Hperm.
  split; [exact Hperm|].
  apply Permutation_length in Hperm. now rewrite !length_map in Hperm.
Qed.

Lemma get_all_words_every_gloss_once_witness :
  Permutation (map wd_meaning_wrapper_id (get_all_words three_words))
              (map mw_id (meaning_wrappers three_words)) /\
  length (get_all_words three_words) = length (meaning_wrappers three_words).
Proof.
  apply (get_all_words_every_gloss_once three_words).
  - split; vm_compute; repeat constructor; simpl; intuition discriminate.
  - intros g Hg. vm_compute in Hg. vm_compute.
    repeat (destruct Hg as [<-|Hg]; [tauto|]). destruct Hg.
Defined.

(* ------------------------------------------------------------------ *)
(** ** From the store to [get_all_words] *)

Section OrderByAppend.
Context {A : Type} (leb : A -> A -> bool).

Lemma insert_sorted_below (x : A) (sorted later : list A) :
  (forall y, In y later -> leb x y = true) ->
  insert_sorted leb x (sorted ++ later) = insert_sorted leb x sorted ++ later.
Proof.
  intros Hlater. induction sorted as [|s sorted IH]; simpl.
  - destruct later as [|y later]; [reflexivity|].
    simpl. now rewrite (Hlater y (or_introl eq_refl)).
  - destruct (leb x s); [reflexivity|]. now rewrite IH.
Qed.

Lemma order_by_of_sorted (later : list A) :
  StronglySorted (fun a b => leb a b = true) later -> order_by leb later = later.
Proof.
  induction 1 as [|y later Hs IH Hall]; simpl; [reflexivity|].
  rewrite IH. destruct later as [|z later]; [reflexivity|].
  simpl. inversion Hall as [|? ? Hyz _]; subst. now rewrite Hyz.
Qed.

(** Rows that sort after all earlier ones, and are in order among
    themselves, stay at the end. *)
Lemma order_by_append (earlier later : list A) :
  StronglySorted (fun a b => leb a b = true) later ->
  (forall x y, In x earlier -> In y later -> leb x y = true) ->
  order_by leb (earlier ++ later) = order_by leb earlier ++ later.
Proof.
  intros Hs Hle. induction earlier as [|x earlier IH]; simpl.
  - now apply order_by_of_sorted.
  - rewrite IH by (intros u v Hu; apply Hle; now right).
    apply insert_sorted_below. intros y Hy. apply Hle; [now left|exact Hy].
Qed.
End OrderByAppend.

(** The ids [add_wrappers] hands out: ascending, and above every id
    the table held. *)
Lemma add_wrappers_ids (word_id : Z) (wrappers : list html) (d : database) :
  exists gs,
    words (add_wrappers word_id wrappers d) = words d /\
    meaning_wrappers (add_wrappers word_id wrappers d) = meaning_wrappers d ++ gs /\
    map wrapper_html gs = wrappers /\
    Forall (fun g => mw_word_id g = word_id) gs /\
    StronglySorted Z.lt (map mw_id gs) /\
    Forall (fun g => forall g0, In g0 (meaning_wrappers d) -> mw_id g0 < mw_id g) gs.
Proof.
  revert d. induction wrappers as [|h hs IH]; intros d.
  - exists []. simpl. rewrite app_nil_r. repeat split; constructor.
  - destruct (IH (snd (add_meaning_wrapper word_id h d)))
      as (gs & Hw & Hg & Hm & Hf & Hs & Hab).
    unfold add_wrappers in *. cbn [fold_left].
    set (g1 := mkMw (next_id (seq_meaning_wrappers d) (map mw_id (meaning_wrappers d)))
                    word_id h).
    assert (Hnew : forall g0, In g0 (meaning_wrappers d) -> mw_id g0 < mw_id g1).
    { intros g0 Hg0. simpl. unfold next_id.
      pose proof (max_id_ge (map mw_id (meaning_wrappers d)) (mw_id g0)
                    (in_map mw_id _ _ Hg0)). lia. }
    exists (g1 :: gs). rewrite Hw, Hg. simpl.
    rewrite <- app_assoc. simpl. rewrite Hm.
    rewrite Forall_forall in Hab.
    repeat split; try reflexivity.
    + constructor; [reflexivity|exact Hf].
    + constructor; [exact Hs|]. apply Forall_forall. intros i Hi.
      apply in_map_iff in Hi as (g & <- & Hgin).
      apply (Hab g Hgin g1). simpl. apply in_or_app. right. now left.
    + constructor; [exact Hnew|]. apply Forall_forall. intros g Hgin g0 Hg0.
      apply (Hab g Hgin g0). simpl. apply in_or_app. now left.
Qed.

Lemma add_entry_ids (d : database) (e : entry) :
  exists w gs,
    words (add_entry d e) = words d ++ [w] /\
    representation_html w = entry_representation e /\
    w_id w = next_id (seq_words d) (map w_id (words d)) /\
    meaning_wrappers (add_entry d e) = meaning_wrappers d ++ gs /\
    map wrapper_html gs = entry_meaning_wrappers e /\
    Forall (fun g => mw_word_id g = w_id w) gs /\
    StronglySorted Z.lt (map mw_id gs) /\
    Forall (fun g => forall g0, In g0 (meaning_wrappers d) -> mw_id g0 < mw_id g) gs.
Proof.
  unfold add_entry, add_word.
  match goal with
  | |- context [add_wrappers ?i ?ws ?d1] =>
      destruct (add_wrappers_ids i ws d1) as (gs & Hw & Hg & Hm & Hf & Hs & Hab)
  end.
  simpl in *. eexists. exists gs. rewrite Hw, Hg. repeat split; auto.
Qed.

Lemma rows_of_word_sorted (w : word_row) (gs : list mw_row) :
  StronglySorted Z.lt (map mw_id gs) ->
  Forall (fun g => mw_word_id g = w_id w) gs ->
  StronglySorted (fun a b => word_order_leb a b = true)
                 (map (fun g => word_dict_of g w) gs).
Proof.
  induction gs as [|g gs IH]; intros Hs Hf; simpl; [constructor|].
  inversion Hs as [|? ? Hs' Hlt]; subst. inversion Hf as [|? ? Hg Hf']; subst.
  constructor; [now apply IH|].
  apply Forall_forall. intros r Hr. apply in_map_iff in Hr as (g' & <- & Hg').
  apply word_order_leb_spec. right. simpl.
  rewrite Forall_forall in Hlt, Hf'.
  pose proof (Hlt _ (in_map mw_id _ _ Hg')). pose proof (Hf' _ Hg'). lia.
Qed.

Lemma add_entry_get_all_words (d : database) (e : entry) :
  foreign_key_ok d ->
  foreign_key_ok (add_entry d e) /\
  exists rows,
    get_all_words (add_entry d e) = get_all_words d ++ rows /\
    map pair_of rows =
      map (fun h => (entry_representation e, h)) (entry_meaning_wrappers e).
Proof.
  intros Hfk.
  destruct (add_entry_ids d e) as (w & gs & Hw & Hr & Hid & Hg & Hm & Hf & Hs & _).
  assert (Hfresh : ~ In (w_id w) (map w_id (words d)))
    by (rewrite Hid; apply next_id_fresh).
  rewrite Forall_forall in Hf.
  split.
  { intros g Hin. rewrite Hg in Hin. rewrite Hw, map_app.
    apply in_app_or in Hin as [Hin|Hin]; apply in_or_app.
    - left. now apply Hfk.
    - right. left. symmetry. now apply Hf. }
  exists (map (fun g => word_dict_of g w) gs). split.
  - rewrite !get_all_words_unfold.
    assert (Hpairs : gloss_word_pairs (add_entry d e)
                     = gloss_word_pairs d ++ map (fun g => word_dict_of g w) gs).
    { unfold gloss_word_pairs. rewrite Hw, Hg, flat_map_app. f_equal.
      - unfold foreign_key_ok in Hfk. clear Hg.
        induction (meaning_wrappers d) as [|g0 gs0 IH]; [reflexivity|].
        cbn [flat_map]. rewrite IH by (intros g' Hg'; apply Hfk; now right).
        f_equal. rewrite flat_map_app. cbn [flat_map].
        destruct (Z.eqb_spec (mw_word_id g0) (w_id w)) as [Heq|Hne].
        + exfalso. apply Hfresh. rewrite <- Heq. apply Hfk. now left.
        + now rewrite !app_nil_r.
      - clear Hs Hm Hg. induction gs as [|g gs IH]; [reflexivity|].
        cbn [flat_map map]. rewrite IH by (intros g' Hg'; apply Hf; now right).
        rewrite flat_map_app, word_join_none
          by (rewrite (Hf g (or_introl eq_refl)); exact Hfresh).
        cbn [flat_map].
        rewrite (proj2 (Z.eqb_eq _ _) (Hf g (or_introl eq_refl))). reflexivity. }
    rewrite Hpairs. apply order_by_append.
    + apply rows_of_word_sorted; [exact Hs|now apply Forall_forall].
    + intros x y Hx Hy. apply word_order_leb_spec. left.
      apply gloss_word_pairs_in in Hx as (g0 & w0 & _ & Hw0 & Heq & ->).
      apply in_map_iff in Hy as (g & <- & Hgin). simpl.
      rewrite Heq, (Hf g Hgin), Hid. unfold next_id.
      pose proof (max_id_ge (map w_id (words d)) (w_id w0) (in_map w_id _ _ Hw0)).
      lia.
  - rewrite map_map, <- Hm, map_map. apply map_ext. intros g.
    unfold pair_of. simpl. now rewrite Hr.
Qed.

Lemma insert_all_get_all_words (entries : list entry) (d : database) :
  foreign_key_ok d ->
  exists rows,
    get_all_words (insert_all entries d) = get_all_words d ++ rows /\
    map pair_of rows = batch_pairs entries.
Proof.
  revert d. induction entries as [|e es IH]; intros d Hfk.
  - exists []. simpl. now rewrite app_nil_r.
  - destruct (add_entry_get_all_words d e Hfk) as (Hfk' & rows & Hrows & Hpairs).
    destruct (IH (add_entry d e) Hfk') as (rows' & Hrows' & Hpairs').
    exists (rows ++ rows'). unfold insert_all in *. cbn [fold_left].
    rewrite Hrows', Hrows, <- app_assoc. split; [reflexivity|].
    rewrite map_app, Hpairs, Hpairs'. reflexivity.
Qed.

(** X5: on a table in which every gloss has its word, a batch that
    [store_extracted_results] commits shows up in [get_all_words] as
    new rows after all the rows it returned before, so that no earlier
    row changes its index; the new rows carry the representation and the
    gloss markup of the batch, gloss by gloss in the order of the batch. *)
Theorem store_extracted_results_appends (results : list (list entry))
    (db db' : database) (fs : list (option exn)) :
  foreign_key_ok db ->
  store_extracted_results results db fs = (Ok tt, db') ->
  exists rows,
    get_all_words db' = get_all_words db ++ rows /\
    map pair_of rows = batch_pairs (concat results).
Proof.
  intros Hfk Hstore.
  destruct (store_extracted_results_cases results db fs) as [H|(e & H & _)];
    rewrite H in Hstore; [|discriminate].
  inversion Hstore; subst db'. now apply insert_all_get_all_words.
Qed.

Lemma store_extracted_results_appends_witness :
  exists rows,
    get_all_words (snd (store_extracted_results sample_results empty_db []))
    = get_all_words empty_db ++ rows /\
    map pair_of rows = batch_pairs (concat sample_results).
Proof.
  apply (store_extracted_results_appends sample_results empty_db _ []).
  - intros g [].
  - reflexivity.
Defined.

(* ------------------------------------------------------------------ *)
(** ** The ids of a batch *)

Lemma StronglySorted_append {T} (before : T -> T -> Prop) (front back : list T) :
  StronglySorted before front -> StronglySorted before back ->
  (forall u v, In u front -> In v back -> before u v) ->
  StronglySorted before (front ++ back).
Proof.
  intros Hf Hb Hfb. induction Hf as [|u front Hf IH Hall]; simpl; [exact Hb|].
  constructor.
  - apply IH. intros a b Ha. apply Hfb. now right.
  - apply Forall_app. split; [exact Hall|].
    apply Forall_forall. intros v Hv. apply Hfb; [now left|exact Hv].
Qed.

Lemma insert_all_ids (entries : list entry) (d : database) :
  exists ws gs,
    words (insert_all entries d) = words d ++ ws /\
    meaning_wrappers (insert_all entries d) = meaning_wrappers d ++ gs /\
    StronglySorted Z.lt (map w_id ws) /\
    StronglySorted Z.lt (map mw_id gs) /\
    (forall w0 w, In w0 (words d) -> In w ws -> w_id w0 < w_id w) /\
    (forall g0 g, In g0 (meaning_wrappers d) -> In g gs -> mw_id g0 < mw_id g).
Proof.
  revert d. induction entries as [|e es IH]; intros d.
  - exists [], []. simpl. rewrite !app_nil_r.
    repeat split; try constructor; intros ? ? _ [].
  - destruct (add_entry_ids d e) as (w & gs & Hw & _ & Hid & Hg & _ & _ & Hs & Hab).
    destruct (IH (add_entry d e)) as (ws' & gs' & Hw' & Hg' & Hsw & Hsg & Hwn & Hgn).
    unfold insert_all in *. cbn [fold_left].
    exists (w :: ws'), (gs ++ gs'). rewrite Hw', Hg', Hw, Hg, <- !app_assoc.
    rewrite Hw in Hwn. rewrite Hg in Hgn. rewrite Forall_forall in Hab.
    assert (Hw0 : forall w0, In w0 (words d) -> w_id w0 < w_id w).
    { intros w0 Hin. rewrite Hid. unfold next_id.
      pose proof (max_id_ge (map w_id (words d)) (w_id w0) (in_map w_id _ _ Hin)).
      lia. }
    repeat split.
    + cbn [map]. constructor; [exact Hsw|]. apply Forall_forall. intros i Hi.
      apply in_map_iff in Hi as (w' & <- & Hin').
      apply Hwn; [apply in_or_app; right; now left|exact Hin'].
    + rewrite map_app. apply StronglySorted_append; [exact Hs|exact Hsg|].
      intros i j Hi Hj.
      apply in_map_iff in Hi as (g1 & <- & Hg1).
      apply in_map_iff in Hj as (g2 & <- & Hg2).
      apply Hgn; [apply in_or_app; now right|exact Hg2].
    + intros w0 w' Hin [<-|Hin']; [now apply Hw0|].
      apply Hwn; [apply in_or_app; now left|exact Hin'].
    + intros g0 g Hin Hin'. apply in_app_or in Hin' as [Hin'|Hin'].
      * now apply (Hab g Hin' g0).
      * apply Hgn; [apply in_or_app; now left|exact Hin'].
Qed.

(** X7: a committed batch leaves the rows that were in the tables where
    they were and adds its rows after them; the ids the new rows get
    ([AUTOINCREMENT]) are above every id the table held before and
    ascend in the order of insertion, for words and for glosses alike. *)
Theorem store_extracted_results_fresh_ids (results : list (list entry))
    (db db' : database) (fs : list (option exn)) :
  store_extracted_results results db fs = (Ok tt, db') ->
  exists ws gs,
    words db' = words db ++ ws /\
    meaning_wrappers db' = meaning_wrappers db ++ gs /\
    StronglySorted Z.lt (map w_id ws) /\
    StronglySorted Z.lt (map mw_id gs) /\
    (forall w0 w, In w0 (words db) -> In w ws -> w_id w0 < w_id w) /\
    (forall g0 g, In g0 (meaning_wrappers db) -> In g gs -> mw_id g0 < mw_id g).
Proof.
  intros Hstore.
  destruct (store_extracted_results_cases results db fs) as [H|(e & H & _)];
    rewrite H in Hstore; [|discriminate].
  inversion Hstore; subst db'. apply insert_all_ids.
Qed.

Lemma store_extracted_results_fresh_ids_witness :
  exists ws gs,
    words (insert_all (concat sample_results) three_words) = words three_words ++ ws /\
    meaning_wrappers (insert_all (concat sample_results) three_words)
      = meaning_wrappers three_words ++ gs /\
    StronglySorted Z.lt (map w_id ws) /\
    StronglySorted Z.lt (map mw_id gs) /\
    (forall w0 w, In w0 (words three_words) -> In w ws -> w_id w0 < w_id w) /\
    (forall g0 g, In g0 (meaning_wrappers three_words) -> In g gs -> mw_id g0 < mw_id g).
Proof.
  apply (store_extracted_results_fresh_ids sample_results three_words _ []).
  reflexivity.
Defined.

(* ------------------------------------------------------------------ *)
(** ** No word without a gloss *)

Lemma extract_entry_nonempty (word_entry : node) (e : entry) :
  In e (extract_entry word_entry) -> entry_meaning_wrappers e <> [].
Proof.
  unfold extract_entry.
  destruct (find word_entry "div" (Some "concept_light-representation"%string));
    [|intros []].
  destruct (map clean_wrapper (sentence_wrappers word_entry)) as [|h hs];
    [intros []|].
  intros [<-|[]]. discriminate.
Qed.

Lemma insert_all_every_word_has_gloss (entries : list entry) (d : database) :
  Forall (fun e => entry_meaning_wrappers e <> []) entries ->
  every_word_has_gloss d -> every_word_has_gloss (insert_all entries d).
Proof.
  revert d. induction entries as [|e es IH]; intros d Hne Hd; [exact Hd|].
  inversion Hne as [|? ? He Hes]; subst.
  unfold insert_all in *. cbn [fold_left]. apply IH; [exact Hes|].
  destruct (add_entry_rows d e) as (w & gs & Hw & _ & _ & Hg & Hm & Hf).
  intros w0 Hin. rewrite Hw in Hin. rewrite Hg.
  apply in_app_or in Hin as [Hin|[<-|[]]].
  - destruct (Hd w0 Hin) as (g & Hgin & Hgw).
    exists g. split; [apply in_or_app; now left|exact Hgw].
  - destruct gs as [|g gs]; [simpl in Hm; now rewrite <- Hm in He|].
    exists g. split; [apply in_or_app; right; now left|].
    now inversion Hf.
Qed.

(** X8: the scrape never stores a word without a gloss.  Every entry
    that [extract_words_with_sentences] returns has at least one gloss,
    and when each word of the tables has a gloss before such a batch is
    handed to [store_extracted_results], each word has one afterwards,
    whether the call commits or rolls back. *)
Theorem scraped_word_has_gloss (soups : list node) (db : database)
    (fs : list (option exn)) :
  every_word_has_gloss db ->
  Forall (fun e => entry_meaning_wrappers e <> [])
         (concat (map extract_words_with_sentences soups)) /\
  every_word_has_gloss
    (snd (store_extracted_results (map extract_words_with_sentences soups) db fs)).
Proof.
  intros Hdb.
  assert (Hne : Forall (fun e => entry_meaning_wrappers e <> [])
                       (concat (map extract_words_with_sentences soups))).
  { apply Forall_forall. intros e He.
    apply in_concat in He as (page & Hpage & He).
    apply in_map_iff in Hpage as (soup & <- & _).
    unfold extract_words_with_sentences in He.
    apply in_flat_map in He as (word_entry & _ & He).
    now apply (extract_entry_nonempty word_entry). }
  split; [exact Hne|].
  destruct (store_extracted_results_cases
              (map extract_words_with_sentences soups) db fs) as [H|(e & H & _)];
    rewrite H; simpl; [|exact Hdb].
  now apply insert_all_every_word_has_gloss.
Qed.

Lemma scraped_word_has_gloss_witness :
  Forall (fun e => entry_meaning_wrappers e <> [])
         (concat (map extract_words_with_sentences [sample_page])) /\
  every_word_has_gloss
    (snd (store_extracted_results (map extract_words_with_sentences [sample_page])
            empty_db [])).
Proof.
  apply (scraped_word_has_gloss [sample_page] empty_db []).
  intros w [].
Defined.

(* ------------------------------------------------------------------ *)
(** ** jishi scrape/main.py: what the cleaning removes *)



Section TagFilter.
(** A filter that looks at the name and the classes of a tag only. *)
Variable q : node -> bool.
Hypothesis q_string : forall s, q (NavigableString s) = false.
Hypothesis q_comment : forall s, q (Comment s) = false.
Hypothesis q_tag : forall nm cl cs cs', q (Tag nm cl cs) = q (Tag nm cl cs').











End TagFilter.




(* ------------------------------------------------------------------ *)
(** ** jishi scrape/main.py: no newline is stored *)








(* ------------------------------------------------------------------ *)
(** ** draw.py: the errors of [extract_representation] and the text it keeps *)




Lemma concat_combined_text (units : list TextBlock) :
  concat (combined_text units) = concat (map tb_char units).
Proof.
  induction units as [|u us IH]; [reflexivity|].
  unfold combined_text in *. cbn [flat_map map concat].
  rewrite concat_app, IH. f_equal.
  destruct (is_span u); simpl; [apply app_nil_r|].
  induction (tb_char u) as [|c s IHs]; simpl; [reflexivity|now rewrite IHs].
Qed.

(** X12: whichever way the readings were paired, whole units or single
    characters, the blocks that [extract_representation] returns are as
    many as the readings, and their [kanji] fields, read in order, spell
    the stripped display text of the units, all of it and nothing
    else. *)
Theorem extract_representation_spells_text (h : html) (concept_div : node)
    (readings : list str) (spans : list (option str)) (units : list TextBlock)
    (blocks : list RepresentationBlock) :
  find (BeautifulSoup h) "div" representation_container = Some concept_div ->
  furigana_region concept_div = Ok (readings, spans) ->
  text_region concept_div = Ok units ->
  extract_representation h = Ok blocks ->
  length blocks = length readings /\
  concat (map kanji blocks) = concat (map tb_char units).
Proof.
  intros Hfind Hfur Htext.
  pose proof (furigana_region_length _ _ _ Hfur) as Hlen.
  unfold extract_representation, representation_container in *.
  rewrite Hfind, Hfur. cbn [bind]. rewrite Htext. cbn [bind].
  unfold reconcile.
  destruct (Nat.eqb_spec (length readings) (length units)) as [Heq|Hne].
  - intros H. inversion H; subst blocks.
    destruct (zip_blocks_fields (map tb_char units) readings spans) as (Hk & Hf & _);
      [now rewrite length_map|assumption|].
    split; [now rewrite <- (length_map furigana), Hf|now rewrite Hk].
  - destruct (Nat.eqb_spec (length readings) (sum_len units)) as [Hsum|Hsum];
      [|discriminate].
    intros H. inversion H; subst blocks.
    destruct (zip_blocks_fields (combined_text units) readings spans) as (Hk & Hf & _);
      [now rewrite combined_text_length|assumption|].
    split; [now rewrite <- (length_map furigana), Hf|].
    rewrite Hk. apply concat_combined_text.
Qed.

Lemma extract_representation_spells_text_witness :
  length [mkRepresentationBlock [26085] [12395] None;
          mkRepresentationBlock [26412] [12411; 12435] None] = 2%nat /\
  [26085; 26412] = [26085; 26412].
Proof.
  exact
    (extract_representation_spells_text nihon_html
       (Tag "div" ["concept_light-representation"%string]
          [Tag "span" ["furigana"%string]
             [Tag "span" [] [NavigableString [12395]];
              Tag "span" [] [NavigableString [12411; 12435]]];
           Tag "span" ["text"%string] [NavigableString [26085; 26412]]])
       [[12395]; [12411; 12435]] [None; None]
       [mkTextBlock [26085; 26412] false]
       [mkRepresentationBlock [26085] [12395] None;
        mkRepresentationBlock [26412] [12411; 12435] None]
       eq_refl eq_refl eq_refl eq_refl).
Defined.

(* ------------------------------------------------------------------ *)
(** ** main.py: the rows of the daily selection *)

Lemma StronglySorted_map_rel {T U} (f : T -> U) (rel : U -> U -> Prop) (rows : list T) :
  StronglySorted (fun a b => rel (f a) (f b)) rows -> StronglySorted rel (map f rows).
Proof.
  induction 1 as [|a rows Hs IH Hall]; simpl; constructor; [exact IH|].
  apply Forall_forall. intros v Hv. apply in_map_iff in Hv as (b & <- & Hb).
  rewrite Forall_forall in Hall. now apply Hall.
Qed.

Lemma StronglySorted_le_lt (ids : list Z) :
  StronglySorted Z.le ids -> NoDup ids -> StronglySorted Z.lt ids.
Proof.
  induction 1 as [|a ids Hs IH Hall]; intros Hnd; constructor;
    inversion Hnd as [|? ? Hnot Hnd']; subst; [now apply IH|].
  apply Forall_forall. intros b Hb. rewrite Forall_forall in Hall.
  specialize (Hall b Hb). assert (a <> b) by (intros ->; contradiction). lia.
Qed.

(** X13: on a file that holds the two tables, the list that
    [get_daily_meaning_wrappers] returns is in strictly ascending order
    of [word_id]: the final [ORDER BY word_id], over rows of pairwise
    different words. *)
Theorem get_daily_meaning_wrappers_ascending {RT : RealText} (today date_str : str)
    (db : database) :
  match get_daily_meaning_wrappers today date_str db with
  | Ok rows => StronglySorted Z.lt (map word_id rows)
  | Raise _ => True
  end.
Proof.
  unfold get_daily_meaning_wrappers, date_seed. cbv zeta.
  destruct (encode (effective_date today date_str)) as [bytes|e]; cbn [bind];
    [|exact I].
  apply StronglySorted_le_lt; [|apply daily_query_words_NoDup].
  unfold daily_query. rewrite map_map. cbn [word_id].
  apply StronglySorted_map_rel.
  eapply StronglySorted_weaken; [|apply order_by_sorted].
  - intros u v H. apply Z.leb_le. exact H.
  - intros a b. destruct (Z.leb_spec (sw_word_id (fst a)) (sw_word_id (fst b)));
      [now left|right]. apply Z.leb_le. lia.
  - intros a b c H1 H2. apply Z.leb_le in H1, H2. apply Z.leb_le. lia.
Qed.

Lemma joined_in (db : database) (dw : list Z) (x : selected_wrapper) :
  In x (joined db dw) <->
  exists g w, In g (meaning_wrappers db) /\ In w (words db) /\
              mw_word_id g = w_id w /\ In (mw_word_id g) dw /\
              x = mkSelected (mw_id g) (wrapper_html g) (mw_word_id g)
                             (representation_html w).
Proof.
  unfold joined. rewrite in_flat_map. split.
  - intros (g & Hg & Hx). apply in_flat_map in Hx as (w & Hw & Hx).
    apply in_flat_map in Hx as (d & Hd & Hx).
    destruct ((mw_word_id g =? w_id w) && (mw_word_id g =? d)) eqn:E; [|destruct Hx].
    apply andb_prop in E as [E1 E2]. apply Z.eqb_eq in E1, E2.
    destruct Hx as [<-|[]]. exists g, w.
    repeat split; auto. now rewrite E2.
  - intros (g & w & Hg & Hw & Heq & Hd & ->). exists g. split; [exact Hg|].
    apply in_flat_map. exists w. split; [exact Hw|].
    apply in_flat_map. exists (mw_word_id g). split; [exact Hd|].
    rewrite (proj2 (Z.eqb_eq _ _) Heq), Z.eqb_refl. now left.
Qed.

Lemma order_by_key_first {T} (key : T -> string) (rows rest : list T) (x : T) :
  order_by (key_leb key) rows = x :: rest ->
  In x rows /\ forall y, In y rows -> String.leb (key x) (key y) = true.
Proof.
  intros E.
  assert (Hs : StronglySorted (fun a b => key_leb key a b = true)
                 (order_by (key_leb key) rows)).
  { apply order_by_sorted.
    - intros a b. apply String.leb_total.
    - intros a b c. apply string_leb_trans. }
  rewrite E in Hs. inversion Hs as [|? ? _ Hall]; subst.
  split; [apply (order_by_in (key_leb key)); rewrite E; now left|].
  intros y Hy. apply (order_by_in (key_leb key)) in Hy. rewrite E in Hy.
  destruct Hy as [<-|Hy].
  - now destruct (String.leb_total (key x) (key x)).
  - rewrite Forall_forall in Hall. now apply Hall.
Qed.

Lemma rn1_first {T} (part : T -> Z) (key : T -> string) (rows : list T)
    (rn : T * nat) :
  In rn (filter (fun rn => Nat.eqb (snd rn) 1) (row_number_over part key rows)) ->
  In (fst rn) rows /\
  forall y, In y rows -> part y = part (fst rn) ->
            String.leb (key (fst rn)) (key y) = true.
Proof.
  unfold row_number_over. rewrite filter_flat_map. intros Hrn.
  apply in_flat_map in Hrn as (p & _ & Hrn). rewrite numbered_first in Hrn.
  destruct (order_by (key_leb key) (filter (fun r => part r =? p) rows))
    as [|x rest] eqn:E; [destruct Hrn|].
  destruct Hrn as [<-|[]]. cbn [fst].
  destruct (order_by_key_first key _ _ _ E) as [Hx Hmin].
  apply filter_In in Hx as [Hx Hp]. apply Z.eqb_eq in Hp.
  split; [exact Hx|]. intros y Hy Hpart. apply Hmin, filter_In.
  split; [exact Hy|]. apply Z.eqb_eq. congruence.
Qed.

Lemma daily_query_first_gloss {RT : RealText} (seed : Z) (db : database) :
  Forall (first_gloss_of seed db) (daily_query seed db).
Proof.
  apply Forall_forall. intros r Hr. unfold daily_query in Hr.
  apply in_map_iff in Hr as (rn & <- & Hrn).
  apply order_by_in in Hrn. apply rn1_first in Hrn as [Hin Hmin].
  apply joined_in in Hin as (g & w & Hg & Hw & Heq & Hd & Hx).
  rewrite Hx in Hmin. cbn [sw_id sw_word_id] in Hmin.
  exists g, w. rewrite Hx. cbn. repeat split; auto.
  intros g' Hg' Hword.
  apply (Hmin (mkSelected (mw_id g') (wrapper_html g') (mw_word_id g')
                          (representation_html w))).
  - apply joined_in. exists g', w. rewrite Hword. repeat split; auto.
  - exact Hword.
Qed.

(** X14: every row that [get_daily_meaning_wrappers] returns is made
    of a stored gloss and the stored word the gloss belongs to (markup
    of the one, markup and id of the other), and the gloss is one whose
    sort key, the first 15 characters of [id * seed], is as text not
    after the key of any other gloss of that word: [rn = 1]. *)
Theorem get_daily_meaning_wrappers_first_gloss {RT : RealText}
    (today date_str : str) (db : database) :
  match get_daily_meaning_wrappers today date_str db with
  | Ok rows =>
      exists seed, date_seed (effective_date today date_str) = Ok seed /\
                   Forall (first_gloss_of seed db) rows
  | Raise _ => True
  end.
Proof.
  unfold get_daily_meaning_wrappers. cbv zeta.
  destruct (date_seed (effective_date today date_str)) as [seed|e]; cbn [bind];
    [|exact I].
  exists seed. split; [reflexivity|apply daily_query_first_gloss].
Qed.

Lemma StronglySorted_app_order {T} (rel : T -> T -> Prop) (front back : list T) :
  StronglySorted rel (front ++ back) ->
  forall u v, In u front -> In v back -> rel u v.
Proof.
  induction front as [|a front IH]; simpl; intros Hs u v Hu Hv; [destruct Hu|].
  inversion Hs as [|? ? Hs' Hall]; subst.
  destruct Hu as [<-|Hu]; [|now apply IH].
  rewrite Forall_forall in Hall. apply Hall, in_or_app. now right.
Qed.

Lemma daily_words_smallest {RT : RealText} (seed : Z) (db : database) (w u : Z) :
  In w (daily_words seed db) -> In u (qualifying_word_ids db) ->
  ~ In u (daily_words seed db) ->
  String.leb (sort_key seed w) (sort_key seed u) = true.
Proof.
  unfold daily_words, qualifying_word_ids.
  set (sorted := order_by (key_leb (sort_key seed))
                          (distinct (map mw_word_id (meaning_wrappers db)))).
  intros Hw Hu Hnot.
  assert (Hs : StronglySorted (fun a b => key_leb (sort_key seed) a b = true) sorted).
  { apply order_by_sorted.
    - intros a b. apply String.leb_total.
    - intros a b c. apply string_leb_trans. }
  rewrite <- (firstn_skipn 4 sorted) in Hs.
  apply (StronglySorted_app_order _ _ _ Hs w u Hw).
  apply (order_by_in (key_leb (sort_key seed))) in Hu. fold sorted in Hu.
  rewrite <- (firstn_skipn 4 sorted) in Hu.
  apply in_app_or in Hu as [Hu|Hu]; [contradiction|exact Hu].
Qed.

(** X15: on tables in which every gloss has its word, the words of the
    rows that [get_daily_meaning_wrappers] returns are those with the
    smallest sort keys: the key of a word of the result, the first 15
    characters of [word_id * seed], is as text not after the key of any
    word that has a gloss and is not in the result. *)
Theorem get_daily_meaning_wrappers_smallest_keys {RT : RealText} (today date_str : str)
    (db : database) :
  foreign_key_ok db ->
  match get_daily_meaning_wrappers today date_str db with
  | Ok rows =>
      exists seed,
        date_seed (effective_date today date_str) = Ok seed /\
        forall w u,
          In w (map word_id rows) -> In u (qualifying_word_ids db) ->
          ~ In u (map word_id rows) ->
          String.leb (sort_key seed w) (sort_key seed u) = true
  | Raise _ => True
  end.
Proof.
  intros Hfk. unfold get_daily_meaning_wrappers. cbv zeta.
  destruct (date_seed (effective_date today date_str)) as [seed|e]; cbn [bind];
    [|exact I].
  exists seed. split; [reflexivity|]. intros w u Hw Hu Hnot.
  apply (daily_words_smallest seed db w u).
  - now apply (daily_query_words seed db w Hfk).
  - exact Hu.
  - intros Hin. apply Hnot. now apply (daily_query_words seed db u Hfk).
Qed.

Lemma get_daily_meaning_wrappers_smallest_keys_witness :
  match get_daily_meaning_wrappers (RT := no_real) [] date_2024_01_01 five_words with
  | Ok rows =>
      exists seed,
        date_seed (effective_date [] date_2024_01_01) = Ok seed /\
        forall w u,
          In w (map word_id rows) -> In u (qualifying_word_ids five_words) ->
          ~ In u (map word_id rows) ->
          String.leb (sort_key (RT := no_real) seed w) (sort_key (RT := no_real) seed u) = true
  | Raise _ => True
  end.
Proof.
  apply (get_daily_meaning_wrappers_smallest_keys (RT := no_real) [] date_2024_01_01 five_words).
  intros g Hg. simpl in Hg. simpl.
  repeat (destruct Hg as [<-|Hg]; [simpl; tauto|]). destruct Hg.
Defined.

(* ------------------------------------------------------------------ *)
(** ** draw.py: [generate_word] after a batch *)

Lemma list_index_nth {T} (data : list T) (i : Z) (d : T) :
  0 <= i -> nth_error data (Z.to_nat i) = Some d -> list_index data i = Ok d.
Proof.
  intros Hi Hd. unfold list_index.
  assert (Hlt : (Z.to_nat i < length data)%nat)
    by (apply (proj1 (nth_error_Some data (Z.to_nat i))); rewrite Hd; discriminate).
  destruct (Z.ltb_spec i 0) as [Hneg|_]; [lia|].
  destruct (Z.ltb_spec i 0) as [Hneg|_]; [lia|].
  destruct (Z.leb_spec (Z.of_nat (length data)) i) as [Hge|_]; [lia|].
  cbn [orb]. now rewrite Hd.
Qed.

Lemma list_index_out_of_range {T} (data : list T) (i : Z) :
  Z.of_nat (length data) <= i \/ i < - Z.of_nat (length data) ->
  list_index data i = Raise IndexError.
Proof.
  intros Hi. unfold list_index.
  destruct (Z.ltb_spec i 0) as [Hneg|Hpos].
  - destruct (Z.ltb_spec (i + Z.of_nat (length data)) 0) as [_|Hge];
      [reflexivity|lia].
  - destruct (Z.ltb_spec i 0) as [Hneg|_]; [lia|].
    destruct (Z.leb_spec (Z.of_nat (length data)) i) as [_|Hlt]; [reflexivity|lia].
Qed.

(** X17: what [generate_word] takes for a word id is a position in the
    list of [get_all_words], one entry per gloss.  After a batch is
    committed to empty tables, [generate_word(word_id=i)] for [i >= 0]
    hands on the dict of the [i]-th gloss of the batch, counted over all
    its entries, with the representation of the entry that gloss belongs
    to; from the number of glosses on, and below its negation, it raises
    [IndexError]. *)
Theorem generate_word_after_batch (results : list (list entry)) (db' : database)
    (fs : list (option exn)) :
  store_extracted_results results empty_db fs = (Ok tt, db') ->
  (forall i p, 0 <= i ->
     nth_error (batch_pairs (concat results)) (Z.to_nat i) = Some p ->
     exists d, generate_word i db' = Ok d /\ pair_of d = p) /\
  (forall i,
     Z.of_nat (length (batch_pairs (concat results))) <= i \/
     i < - Z.of_nat (length (batch_pairs (concat results))) ->
     generate_word i db' = Raise IndexError).
Proof.
  intros Hstore.
  destruct (store_extracted_results_cases results empty_db fs) as [H|(e & H & _)];
    rewrite H in Hstore; [|discriminate].
  inversion Hstore; subst db'. clear Hstore H.
  destruct (insert_all_get_all_words (concat results) empty_db) as (rows & Hrows & Hpairs);
    [intros g []|].
  change (get_all_words empty_db) with (@nil word_dict) in Hrows. simpl in Hrows.
  unfold generate_word. rewrite Hrows, <- Hpairs. split.
  - intros i p Hi Hp. rewrite nth_error_map in Hp.
    destruct (nth_error rows (Z.to_nat i)) as [d|] eqn:Hd; [|discriminate].
    exists d. split; [now apply list_index_nth|]. now inversion Hp.
  - intros i Hi. rewrite length_map in Hi. now apply list_index_out_of_range.
Qed.

Lemma generate_word_after_batch_witness :
  (forall i p, 0 <= i ->
     nth_error (batch_pairs (concat sample_results)) (Z.to_nat i) = Some p ->
     exists d, generate_word i (insert_all (concat sample_results) empty_db) = Ok d /\
               pair_of d = p) /\
  (forall i,
     Z.of_nat (length (batch_pairs (concat sample_results))) <= i \/
     i < - Z.of_nat (length (batch_pairs (concat sample_results))) ->
     generate_word i (insert_all (concat sample_results) empty_db) = Raise IndexError).
Proof.
  apply (generate_word_after_batch sample_results _ []). reflexivity.
Defined.

(* ------------------------------------------------------------------ *)
(** ** draw.py: the four entries of a day differ *)

Lemma randbelow_lt (fuel : nat) (n : Z) (s s' : random.state) (j : Z) :
  random.randbelow fuel n s = Some (j, s') -> j < n.
Proof.
  revert s. induction fuel as [|fuel IH]; intros s H; [discriminate|].
  cbn [random.randbelow] in H.
  destruct (random.getrandbits (random.bit_length n) s) as [r s1].
  destruct (Z.leb_spec n r) as [Hge|Hlt]; [now apply (IH s1)|].
  inversion H; subst. exact Hlt.
Qed.

Lemma firstn_snoc_nth {T} (m : nat) (items : list T) (last : T) :
  nth_error items m = Some last -> firstn (S m) items = firstn m items ++ [last].
Proof.
  revert items. induction m as [|m IH]; intros [|a items] H; try discriminate.
  - simpl in H. inversion H. reflexivity.
  - simpl in H. change (firstn (S (S m)) (a :: items))
      with (a :: firstn (S m) items).
    rewrite (IH items H). reflexivity.
Qed.

(** Taking item [j] out of the first [n] and moving the last of them
    into its place leaves the other [n - 1]. *)
Lemma set_nth_takes_out {T} (j : nat) :
  forall (n : nat) (pool : list T) (x last : T),
  (j < n)%nat ->
  nth_error pool j = Some x -> nth_error pool (n - 1) = Some last ->
  Permutation (x :: firstn (n - 1) (random.set_nth j last pool)) (firstn n pool).
Proof.
  induction j as [|j IH]; intros n pool x last Hj Hx Hlast.
  - destruct pool as [|a pool]; [discriminate|]. simpl in Hx. inversion Hx; subst a.
    destruct n as [|[|m]]; [lia|reflexivity|].
    replace (S (S m) - 1)%nat with (S m) in * by lia.
    change (Permutation (x :: last :: firstn m pool) (x :: firstn (S m) pool)).
    apply perm_skip. simpl in Hlast.
    rewrite (firstn_snoc_nth m pool last Hlast). apply Permutation_cons_append.
  - destruct pool as [|a pool]; [discriminate|]. simpl in Hx.
    destruct n as [|n]; [lia|]. replace (S n - 1)%nat with n in * by lia.
    destruct n as [|m]; [lia|]. simpl in Hlast.
    change (Permutation (x :: a :: firstn m (random.set_nth j last pool))
                        (a :: firstn (S m) pool)).
    eapply perm_trans; [apply perm_swap|]. apply perm_skip.
    replace m with (S m - 1)%nat at 1 by lia.
    apply IH; [lia|exact Hx|]. now replace (S m - 1)%nat with m by lia.
Qed.

Lemma sample_pool_NoDup {T} (fuel k : nat) :
  forall (n : nat) (pool : list T) (s s' : random.state) (r : list T),
  (k <= n)%nat -> NoDup (firstn n pool) ->
  random.sample_pool fuel k n pool s = Some (r, s') ->
  NoDup r /\ forall y, In y r -> In y (firstn n pool).
Proof.
  induction k as [|k IH]; intros n pool s s' r Hk Hnd H; cbn [random.sample_pool] in H.
  - inversion H; subst. split; [constructor|intros y []].
  - destruct (random.randbelow fuel (Z.of_nat n) s) as [[j s1]|] eqn:Ej; [|discriminate].
    destruct (nth_error pool (Z.to_nat j)) as [x|] eqn:Ex; [|discriminate].
    destruct (nth_error pool (n - 1)) as [last|] eqn:El; [|discriminate].
    destruct (random.sample_pool fuel k (n - 1)
                (random.set_nth (Z.to_nat j) last pool) s1) as [[r0 s2]|] eqn:E2;
      [|discriminate].
    inversion H; subst. clear H.
    apply randbelow_lt in Ej.
    assert (Hperm := set_nth_takes_out (Z.to_nat j) n pool x last ltac:(lia) Ex El).
    assert (Hnd' : NoDup (x :: firstn (n - 1) (random.set_nth (Z.to_nat j) last pool)))
      by (eapply Permutation_NoDup; [apply Permutation_sym, Hperm|exact Hnd]).
    inversion Hnd' as [|? ? Hnot Hrest]; subst.
    assert (Hk' : (k <= n - 1)%nat) by lia.
    destruct (IH _ _ _ _ _ Hk' Hrest E2) as [Hr0 Hin0].
    split.
    + constructor; [|exact Hr0]. intros Hin. apply Hnot. now apply Hin0.
    + intros y [<-|Hy]; (eapply Permutation_in; [exact Hperm|]);
        [now left|right; now apply Hin0].
Qed.

Lemma set_nth_Forall {T} (P : T -> Prop) (i : nat) (x : T) (items : list T) :
  Forall P items -> P x -> Forall P (random.set_nth i x items).
Proof.
  intros Hall Hx. revert i.
  induction Hall as [|a items Ha Hall IH]; intros [|i]; cbn [random.set_nth];
    constructor; auto.
Qed.

Lemma nth_nonneg (i : nat) (v : list Z) :
  Forall (fun x => 0 <= x) v -> 0 <= nth i v 0.
Proof.
  intros Hall. destruct (nth_in_or_default i v 0) as [Hin | Hd]; [|rewrite Hd; lia].
  rewrite Forall_forall in Hall. now apply Hall.
Qed.

Lemma u32_nonneg (x : Z) : 0 <= random.u32 x.
Proof. unfold random.u32. apply Z.land_nonneg. right. lia. Qed.

Lemma twist_nonneg (n kk : nat) (v : list Z) :
  Forall (fun x => 0 <= x) v -> Forall (fun x => 0 <= x) (random.twist n kk v).
Proof.
  revert kk v. induction n as [|n IH]; intros kk v Hv; cbn [random.twist]; [exact Hv|].
  apply IH. apply set_nth_Forall; [exact Hv|].
  apply Z.lxor_nonneg. split; intros _.
  - destruct (Z.odd _); lia.
  - apply Z.lxor_nonneg. split; intros _.
    + apply Z.shiftr_nonneg, Z.lor_nonneg.
      split; apply Z.land_nonneg; right; lia.
    + now apply nth_nonneg.
Qed.

Lemma temper_nonneg (y : Z) : 0 <= y -> 0 <= random.temper y.
Proof.
  intros Hy. unfold random.temper.
  assert (H1 : 0 <= Z.lxor y (Z.shiftr y 11)).
  { apply Z.lxor_nonneg. split; intros _; [now apply Z.shiftr_nonneg|exact Hy]. }
  set (y1 := Z.lxor y (Z.shiftr y 11)) in *.
  assert (H2 : 0 <= Z.lxor y1 (Z.land (Z.shiftl y1 7) 2636928640)).
  { apply Z.lxor_nonneg. split; intros _; [apply Z.land_nonneg; right; lia|exact H1]. }
  set (y2 := Z.lxor y1 (Z.land (Z.shiftl y1 7) 2636928640)) in *.
  assert (H3 : 0 <= Z.lxor y2 (Z.land (Z.shiftl y2 15) 4022730752)).
  { apply Z.lxor_nonneg. split; intros _; [apply Z.land_nonneg; right; lia|exact H2]. }
  set (y3 := Z.lxor y2 (Z.land (Z.shiftl y2 15) 4022730752)) in *.
  apply Z.lxor_nonneg. split; intros _; [now apply Z.shiftr_nonneg|exact H3].
Qed.

Lemma genrand_uint32_nonneg (s : random.state) :
  words_nonneg s ->
  0 <= fst (random.genrand_uint32 s) /\ words_nonneg (snd (random.genrand_uint32 s)).
Proof.
  unfold words_nonneg, random.genrand_uint32. intros Hs.
  pose proof (twist_nonneg random.N 0 (random.mt s) Hs) as Ht.
  set (v := random.twist random.N 0 (random.mt s)) in *.
  destruct (random.N <=? random.mti s)%nat; cbn [fst snd random.mt random.mti].
  - split; [|exact Ht]. now apply temper_nonneg, nth_nonneg.
  - split; [|exact Hs]. now apply temper_nonneg, nth_nonneg.
Qed.

Lemma getrandbits_nonneg (k : Z) (s s' : random.state) (r : Z) :
  words_nonneg s -> random.getrandbits k s = (r, s') -> 0 <= r /\ words_nonneg s'.
Proof.
  intros Hs. unfold random.getrandbits.
  pose proof (genrand_uint32_nonneg s Hs) as Hg.
  destruct (random.genrand_uint32 s) as [r0 s0]. cbn [fst snd] in Hg.
  intros H. injection H as <- <-.
  split; [now apply Z.shiftr_nonneg|tauto].
Qed.

Lemma randbelow_range (fuel : nat) (n : Z) (s s' : random.state) (j : Z) :
  words_nonneg s -> random.randbelow fuel n s = Some (j, s') ->
  0 <= j < n /\ words_nonneg s'.
Proof.
  revert s. induction fuel as [|fuel IH]; intros s Hs H; [discriminate|].
  cbn [random.randbelow] in H.
  destruct (random.getrandbits (random.bit_length n) s) as [r s1] eqn:Eg.
  destruct (getrandbits_nonneg _ _ _ _ Hs Eg) as [Hr Hs1].
  destruct (Z.leb_spec n r) as [Hge|Hlt]; [now apply (IH s1)|].
  inversion H; subst. auto.
Qed.

Lemma fresh_index_range (fuel : nat) (n : Z) (selected : list Z)
    (s s' : random.state) (j : Z) :
  words_nonneg s -> random.fresh_index fuel n selected s = Some (j, s') ->
  0 <= j < n /\ ~ In j selected /\ words_nonneg s'.
Proof.
  revert s. induction fuel as [|fuel IH]; intros s Hs H; [discriminate|].
  cbn [random.fresh_index] in H.
  destruct (random.randbelow (S fuel) n s) as [[r s1]|] eqn:Er; [|discriminate].
  destruct (randbelow_range _ _ _ _ _ Hs Er) as [Hr Hs1].
  destruct (existsb (Z.eqb r) selected) eqn:Esel; [now apply (IH s1)|].
  inversion H; subst. repeat split; try tauto.
  intros Hin. assert (Ht : existsb (Z.eqb j) selected = true).
  { apply existsb_exists. exists j. split; [exact Hin|apply Z.eqb_refl]. }
  congruence.
Qed.

Lemma init_genrand_from_nonneg (n : nat) (i prev : Z) :
  Forall (fun x => 0 <= x) (random.init_genrand_from n i prev).
Proof.
  revert i prev. induction n as [|n IH]; intros i prev;
    cbn [random.init_genrand_from]; constructor; [apply u32_nonneg|apply IH].
Qed.

Lemma mix_key_nonneg (k : nat) (key : list Z) :
  forall (i j : nat) (v : list Z),
  Forall (fun x => 0 <= x) v ->
  Forall (fun x => 0 <= x) (fst (random.mix_key k key i j v)).
Proof.
  induction k as [|k IH]; intros i j v Hv; cbn [random.mix_key]; [exact Hv|].
  apply IH.
  match goal with
  | |- context [random.set_nth i ?val v] =>
      assert (H1 : Forall (fun z => 0 <= z) (random.set_nth i val v))
        by (apply set_nth_Forall; [exact Hv|apply u32_nonneg]);
      set (v1 := random.set_nth i val v) in *
  end.
  destruct (random.N <=? S i)%nat; [|exact H1].
  apply set_nth_Forall; [exact H1|now apply nth_nonneg].
Qed.

Lemma mix_index_nonneg (k : nat) :
  forall (i : nat) (v : list Z),
  Forall (fun x => 0 <= x) v ->
  Forall (fun x => 0 <= x) (random.mix_index k i v).
Proof.
  induction k as [|k IH]; intros i v Hv; cbn [random.mix_index]; [exact Hv|].
  apply IH.
  match goal with
  | |- context [random.set_nth i ?val v] =>
      assert (H1 : Forall (fun z => 0 <= z) (random.set_nth i val v))
        by (apply set_nth_Forall; [exact Hv|apply u32_nonneg]);
      set (v1 := random.set_nth i val v) in *
  end.
  destruct (random.N <=? S i)%nat; [|exact H1].
  apply set_nth_Forall; [exact H1|now apply nth_nonneg].
Qed.

Lemma seed_nonneg (a : Z) : words_nonneg (random.seed a).
Proof.
  unfold random.seed, random.init_by_array, words_nonneg.
  match goal with
  | |- context [random.mix_key ?k ?key 1 0 ?v0] =>
      pose proof (mix_key_nonneg k key 1 0 v0) as Hmix;
      destruct (random.mix_key k key 1 0 v0) as [v i]
  end.
  cbn [fst random.mt] in *.
  apply set_nth_Forall; [|lia]. apply mix_index_nonneg, Hmix.
  unfold random.init_genrand. constructor; [apply u32_nonneg|].
  apply init_genrand_from_nonneg.
Qed.

Lemma sample_set_NoDup {T} (fuel k : nat) (population : list T) :
  NoDup population ->
  forall (selected : list Z) (s s' : random.state) (r : list T),
  words_nonneg s ->
  random.sample_set fuel k population selected s = Some (r, s') ->
  NoDup r /\
  forall y, In y r ->
    exists j, 0 <= j /\ ~ In j selected /\ nth_error population (Z.to_nat j) = Some y.
Proof.
  intros Hnd. induction k as [|k IH]; intros selected s s' r Hs H;
    cbn [random.sample_set] in H.
  - inversion H; subst. split; [constructor|intros y []].
  - destruct (random.fresh_index fuel (Z.of_nat (length population)) selected s)
      as [[j s1]|] eqn:Ej; [|discriminate].
    destruct (fresh_index_range _ _ _ _ _ _ Hs Ej) as (Hj & Hfresh & Hs1).
    destruct (nth_error population (Z.to_nat j)) as [x|] eqn:Ex; [|discriminate].
    destruct (random.sample_set fuel k population (j :: selected) s1)
      as [[r0 s2]|] eqn:E2; [|discriminate].
    inversion H; subst. clear H.
    destruct (IH _ _ _ _ Hs1 E2) as [Hr0 Hin0].
    split.
    + constructor; [|exact Hr0]. intros Hin.
      destruct (Hin0 x Hin) as (j' & Hj' & Hnot & Ex').
      assert (Heq : Z.to_nat j = Z.to_nat j').
      { apply (proj1 (NoDup_nth_error population) Hnd); [|congruence].
        apply nth_error_Some. rewrite Ex. discriminate. }
      apply Hnot. left. lia.
    + intros y [<-|Hy].
      * exists j. repeat split; [lia|exact Hfresh|exact Ex].
      * destruct (Hin0 y Hy) as (j' & Hj' & Hnot & Ey).
        exists j'. repeat split; [exact Hj'| |exact Ey].
        intros Hin. apply Hnot. now right.
Qed.

Lemma sample_NoDup {T} (fuel k : nat) (population : list T)
    (s s' : random.state) (r : list T) :
  NoDup population -> words_nonneg s ->
  random.sample fuel population k s = Some (Ok (r, s')) -> NoDup r.
Proof.
  intros Hnd Hs. unfold random.sample.
  destruct (Nat.ltb_spec (length population) k) as [Hlt|Hge]; [discriminate|].
  destruct (length population <=? 21)%nat; intros H.
  - destruct (random.sample_pool fuel k (length population) population s)
      as [[r0 s0]|] eqn:E; [|discriminate].
    inversion H; subst.
    apply (sample_pool_NoDup fuel k _ _ _ _ _ Hge) in E; [tauto|].
    now rewrite firstn_all.
  - destruct (random.sample_set fuel k population [] s) as [[r0 s0]|] eqn:E;
      [|discriminate].
    inversion H; subst.
    now apply (sample_set_NoDup fuel k population Hnd [] _ _ _ Hs) in E.
Qed.

(** X18: the entries of one day differ.  On tables that meet the
    schema's constraints, two calls of [generate_word_date] for the same
    date whose offsets differ modulo 4 return dicts of different
    glosses: [random.sample] draws without replacement. *)
Theorem generate_word_date_distinct (fuel : nat) (date_str : str) (o1 o2 : Z)
    (db : database) (r1 r2 : word_dict) :
  primary_keys db -> foreign_key_ok db ->
  generate_word_date fuel date_str o1 db = Some (Ok r1) ->
  generate_word_date fuel date_str o2 db = Some (Ok r2) ->
  o1 mod 4 <> o2 mod 4 ->
  wd_meaning_wrapper_id r1 <> wd_meaning_wrapper_id r2.
Proof.
  intros [Hw Hg] Hfk H1 H2 Hoff.
  assert (Hids : NoDup (map wd_meaning_wrapper_id (get_all_words db))).
  { eapply Permutation_NoDup;
      [apply Permutation_sym, (get_all_words_gloss_ids db Hw Hfk)|exact Hg]. }
  unfold generate_word_date in H1, H2.
  destruct (offset_seed date_str) as [seed|e]; [|discriminate].
  destruct (random.sample fuel (get_all_words db) 4 (random.seed seed))
    as [[[data_rand rng]|e]|] eqn:Es; try discriminate.
  destruct (nth_error data_rand (Z.to_nat (o1 mod 4))) as [d1|] eqn:E1;
    [|discriminate].
  destruct (nth_error data_rand (Z.to_nat (o2 mod 4))) as [d2|] eqn:E2;
    [|discriminate].
  inversion H1; subst d1. inversion H2; subst d2. clear H1 H2.
  pose proof (sample_NoDup _ _ _ _ _ _ (NoDup_map_inv _ _ Hids) (seed_nonneg seed) Es)
    as Hrand.
  destruct (sample_in _ _ _ _ _ _ Es) as [_ Hin].
  intros Heq.
  assert (Hsame : r1 = r2).
  { apply (NoDup_map_inj wd_meaning_wrapper_id (get_all_words db)); auto.
    - apply Hin. eapply nth_error_In; exact E1.
    - apply Hin. eapply nth_error_In; exact E2. }
  subst r2.
  assert (Hpos : Z.to_nat (o1 mod 4) = Z.to_nat (o2 mod 4)).
  { apply (proj1 (NoDup_nth_error data_rand) Hrand); [|congruence].
    apply nth_error_Some. rewrite E1. discriminate. }
  pose proof (Z.mod_pos_bound o1 4 ltac:(lia)).
  pose proof (Z.mod_pos_bound o2 4 ltac:(lia)).
  lia.
Qed.

Lemma generate_word_date_distinct_witness :
  wd_meaning_wrapper_id (mkWordDict (plain "g3") (plain "w3") 3 3) <>
  wd_meaning_wrapper_id (mkWordDict (plain "g5") (plain "w5") 5 5).
Proof.
  apply (generate_word_date_distinct 64 date_2024_01_01 0 2 five_words).
  - split; simpl; nodup_tac.
  - intros g Hg. simpl in Hg. simpl.
    repeat (destruct Hg as [<-|Hg]; [simpl; tauto|]). destruct Hg.
  - vm_compute. reflexivity.
  - vm_compute. reflexivity.
  - vm_compute. discriminate.
Defined.

(* ------------------------------------------------------------------ *)
(** ** main.py: one delivery a day *)

Lemma str_eqb_eq (a b : str) : str_eqb a b = true <-> a = b.
Proof.
  revert b. induction a as [|x a IH]; intros [|y b]; simpl;
    try (split; [discriminate|discriminate]); [tauto|].
  rewrite andb_true_iff, Z.eqb_eq, IH. split.
  - intros [-> ->]. reflexivity.
  - intros H. inversion H. auto.
Qed.

Lemma sent_on_contains (d : str) :
  json_contains last_datatime (JObject [(last_datatime, JString d)]) = Some true /\
  json_subscript last_datatime (JObject [(last_datatime, JString d)])
    = Some (JString d).
Proof. split; reflexivity. Qed.

Section DeliveryFacts.
Context {body : Type} {RT : RealText} (payload_of : list html -> body).

Lemma send_to_trmnl_sent_today (d today key : str) (db : database)
    (post : str -> body -> option Z) (writable : bool) :
  send_to_trmnl payload_of d today (Some key) (sent_on d) db post writable
  = (Pass, sent_on d).
Proof.
  unfold send_to_trmnl, sent_on.
  destruct (sent_on_contains d) as [-> ->]. cbn [is_string].
  now rewrite (proj2 (str_eqb_eq d d) eq_refl).
Qed.

Lemma send_to_trmnl_sent_other_day (d day today key : str) (db : database)
    (post : str -> body -> option Z) (writable : bool) :
  day <> d ->
  fst (send_to_trmnl payload_of day today (Some key) (sent_on d) db post writable)
  <> Pass.
Proof.
  intros Hday. unfold send_to_trmnl, sent_on.
  destruct (sent_on_contains d) as [-> ->]. cbn [is_string].
  destruct (str_eqb d day) eqn:E; [apply str_eqb_eq in E; congruence|].
  destruct (get_4_daily_words today db) as [words|e]; [|discriminate].
  destruct (post key (payload_of words)) as [status_code|]; [|discriminate].
  destruct (status_code =? 200); [destruct writable|]; discriminate.
Qed.

(** X19: one delivery a day.  [send_to_trmnl] changes the history file
    only when the service answered 200, and then to the record of the
    date of the call.  With that record in the file, every further call
    on the same date makes no request (it logs PASS) and leaves the
    file as it is, whatever the tables and the network do; a call on
    another date does not pass.  When the call returns after a request,
    the body was built from [get_4_daily_words]; every other way out,
    the exceptions included, leaves the file untouched, so that the
    next call tries again. *)
Theorem send_to_trmnl_once_a_day (today_str today : str) (api_key : option str)
    (history : history_file) (db : database)
    (post : str -> body -> option Z) (writable : bool) :
  match send_to_trmnl payload_of today_str today api_key history db post writable with
  | (Posted payload status_code, history') =>
      (exists words,
         get_4_daily_words today db = Ok words /\ payload = payload_of words) /\
      if status_code =? 200 then
        history' = sent_on today_str /\
        (forall today2 db2 post2 writable2,
           send_to_trmnl payload_of today_str today2 api_key history' db2 post2
             writable2 = (Pass, history')) /\
        (forall day today2 db2 post2 writable2,
           day <> today_str ->
           fst (send_to_trmnl payload_of day today2 api_key history' db2 post2
                  writable2) <> Pass)
      else history' = history
  | (_, history') => history' = history
  end.
Proof.
  unfold send_to_trmnl at 1.
  destruct api_key as [key|]; [|reflexivity].
  assert (Hsend :
    match
      match get_4_daily_words today db with
      | Raise e => (Payload_raised e, history)
      | Ok words =>
          match post key (payload_of words) with
          | None => (Post_raised (payload_of words), history)
          | Some status_code =>
              if status_code =? 200 then
                if writable then (Posted (payload_of words) status_code,
                                  sent_on today_str)
                else (Write_raised (payload_of words), history)
              else (Posted (payload_of words) status_code, history)
          end
      end
    with
    | (Posted payload status_code, history') =>
        (exists words,
           get_4_daily_words today db = Ok words /\ payload = payload_of words) /\
        if status_code =? 200 then
          history' = sent_on today_str /\
          (forall today2 db2 post2 writable2,
             send_to_trmnl payload_of today_str today2 (Some key) history' db2 post2
               writable2 = (Pass, history')) /\
          (forall day today2 db2 post2 writable2,
             day <> today_str ->
             fst (send_to_trmnl payload_of day today2 (Some key) history' db2 post2
                    writable2) <> Pass)
        else history' = history
    | (_, history') => history' = history
    end).
  { destruct (get_4_daily_words today db) as [words|e]; [|reflexivity].
    destruct (post key (payload_of words)) as [status_code|]; [|reflexivity].
    destruct (status_code =? 200) eqn:E200.
    - destruct writable; [|reflexivity].
      split; [exists words; auto|]. rewrite E200.
      split; [reflexivity|]. split.
      + intros. apply send_to_trmnl_sent_today.
      + intros. now apply send_to_trmnl_sent_other_day.
    - split; [exists words; auto|]. now rewrite E200. }
  destruct (json_contains last_datatime
              match history with Loaded v => v | Unreadable => JObject [] end)
    as [[|]|]; [|exact Hsend|reflexivity].
  destruct (json_subscript last_datatime
              match history with Loaded v => v | Unreadable => JObject [] end)
    as [v|]; [|reflexivity].
  destruct (is_string today_str v); [reflexivity|exact Hsend].
Qed.
End DeliveryFacts.

(* ------------------------------------------------------------------ *)
(** ** From the scrape to the extractor and to the daily selection *)

(** X20: the representation of every entry that
    [extract_words_with_sentences] returns has the container that
    [extract_representation] looks for: the search of the stored markup
    finds a [div] of class [concept_light-representation], and it is
    the first node of the markup.  The empty result for markup without
    the container is not what a scraped word gets. *)
Theorem scraped_representation_has_container (soup : node) :
  Forall (fun e =>
            exists concept_div,
              find (BeautifulSoup (entry_representation e)) "div"
                   representation_container = Some concept_div /\
              hd_error (entry_representation e) = Some concept_div /\
              name_of concept_div = Some "div"%string)
         (extract_words_with_sentences soup).
Proof.
  apply Forall_forall. intros e He.
  unfold extract_words_with_sentences in He.
  apply in_flat_map in He as (word_entry & _ & He).
  unfold extract_entry in He.
  destruct (find word_entry "div" (Some "concept_light-representation"%string))
    as [representation_div|] eqn:Hrep; [|destruct He].
  destruct (map clean_wrapper (sentence_wrappers word_entry)) as [|h0 hs];
    [destruct He|].
  destruct He as [<-|[]]. cbn [entry_representation].
  unfold find in Hrep.
  destruct (find_all word_entry "div" (Some "concept_light-representation"%string))
    as [|d ds] eqn:Hall; [discriminate|].
  inversion Hrep; subst d.
  assert (Hin : In representation_div
                  (find_all word_entry "div"
                     (Some "concept_light-representation"%string)))
    by (rewrite Hall; now left).
  unfold find_all in Hin. apply filter_In in Hin as [_ Hm].
  destruct representation_div as [s|s|nm cl cs]; try discriminate.
  unfold str_without_newlines. cbn [remove_newlines reparse merge_strings].
  eexists. split; [|split; [reflexivity|]].
  - unfold find, find_all, representation_container.
    cbn [BeautifulSoup descendants flat_map app filter].
    change (matches "div" (Some "concept_light-representation"%string)
              (Tag nm cl (merge_strings (map reparse (map remove_newlines cs)))))
      with (matches "div" (Some "concept_light-representation"%string)
              (Tag nm cl cs)).
    rewrite Hm. reflexivity.
  - simpl in Hm. apply andb_prop in Hm as [Hnm _].
    apply String.eqb_eq in Hnm. now subst nm.
Qed.

Lemma qualifying_words_length (db : database) :
  primary_keys db -> foreign_key_ok db -> every_word_has_gloss db ->
  length (qualifying_word_ids db) = length (words db).
Proof.
  intros [Hw _] Hfk Hgloss. rewrite <- (length_map w_id (words db)).
  apply Permutation_length, NoDup_Permutation; [apply distinct_NoDup|exact Hw|].
  intros i. unfold qualifying_word_ids. rewrite distinct_in, !in_map_iff. split.
  - intros (g & <- & Hg). apply in_map_iff. now apply Hfk.
  - intros (w & <- & Hin). destruct (Hgloss w Hin) as (g & Hg & Heq).
    now exists g.
Qed.

(** X21: on tables as the scrape leaves them (the schema's constraints
    met, no word without a gloss), [get_daily_meaning_wrappers] returns
    [min(4, n)] rows for [n] stored words, for every date that can be
    encoded: four rows as soon as four words are stored. *)
Theorem get_daily_meaning_wrappers_counts_words {RT : RealText} (today date_str : str)
    (db : database) (bytes : list Z) :
  primary_keys db -> foreign_key_ok db -> every_word_has_gloss db ->
  encode (effective_date today date_str) = Ok bytes ->
  exists rows,
    get_daily_meaning_wrappers today date_str db = Ok rows /\
    length rows = Nat.min 4 (length (words db)).
Proof.
  intros Hpk Hfk Hgloss Henc.
  unfold get_daily_meaning_wrappers, date_seed. cbv zeta. rewrite Henc. cbn [bind].
  eexists. split; [reflexivity|].
  rewrite (daily_query_length _ db Hfk). f_equal.
  now apply qualifying_words_length.
Qed.

Lemma get_daily_meaning_wrappers_counts_words_witness :
  exists rows,
    get_daily_meaning_wrappers (RT := no_real) [] date_2024_01_01 five_words = Ok rows /\
    length rows = Nat.min 4 (length (words five_words)).
Proof.
  apply (get_daily_meaning_wrappers_counts_words (RT := no_real) [] date_2024_01_01 five_words
           [50; 48; 50; 52; 45; 48; 49; 45; 48; 49]).
  - split; simpl; nodup_tac.
  - intros g Hg. simpl in Hg. simpl.
    repeat (destruct Hg as [<-|Hg]; [simpl; tauto|]). destruct Hg.
  - intros w Hw. simpl in Hw.
    destruct Hw as [<-|[<-|[<-|[<-|[<-|[]]]]]];
      [exists (mkMw 1 1 (plain "g1"))|exists (mkMw 2 2 (plain "g2"))
      |exists (mkMw 3 3 (plain "g3"))|exists (mkMw 4 4 (plain "g4"))
      |exists (mkMw 5 5 (plain "g5"))]; simpl; tauto.
  - reflexivity.
Defined.

(* ------------------------------------------------------------------ *)
(** ** main.py: the selection is a function of the date and the rows *)

Section OrderByStable.
(** The sort keeps rows that compare equal in the order in which they
    came: if the rows came in an order [earlier], the sorted rows are in
    the order of the keys and, among equal keys, of [earlier]. *)
Context {A : Type} (leb : A -> A -> bool) (earlier : A -> A -> Prop).
Hypothesis leb_total : forall a b, leb a b = true \/ leb b a = true.
Hypothesis leb_trans : forall a b c, leb a b = true -> leb b c = true -> leb a c = true.

Let before (a b : A) : Prop := leb a b = true /\ (leb b a = true -> earlier a b).

Lemma insert_sorted_stable (x : A) (sorted : list A) :
  StronglySorted before sorted -> Forall (earlier x) sorted ->
  StronglySorted before (insert_sorted leb x sorted).
Proof.
  induction sorted as [|a sorted IH]; intros Hs Hx; simpl.
  - repeat constructor.
  - inversion Hs as [|? ? Hs' Ha]; subst. inversion Hx as [|? ? Hxa Hx']; subst.
    destruct (leb x a) eqn:Hxa'.
    + constructor; [exact Hs|]. constructor; [split; auto|].
      rewrite Forall_forall in Ha, Hx'. apply Forall_forall. intros y Hy.
      split; [|intros _; now apply Hx'].
      apply (leb_trans x a y Hxa'). now apply Ha.
    + constructor; [now apply IH|].
      eapply Permutation_Forall; [apply insert_sorted_perm|].
      constructor; [|exact Ha]. split.
      * destruct (leb_total a x) as [H|H]; [exact H|congruence].
      * intros H. congruence.
Qed.

Lemma order_by_stable (rows : list A) :
  StronglySorted earlier rows -> StronglySorted before (order_by leb rows).
Proof.
  induction 1 as [|x rows Hs IH Hx]; simpl; [constructor|].
  apply insert_sorted_stable; [exact IH|].
  apply Forall_forall. intros y Hy. apply order_by_in in Hy.
  rewrite Forall_forall in Hx. now apply Hx.
Qed.

Lemma order_by_stable_first (rows rest : list A) (x : A) :
  StronglySorted earlier rows -> earlier x x ->
  order_by leb rows = x :: rest ->
  In x rows /\ forall y, In y rows -> before x y.
Proof.
  intros Hs Hrefl E. pose proof (order_by_stable rows Hs) as Hb.
  rewrite E in Hb. inversion Hb as [|? ? _ Hall]; subst.
  split; [apply (order_by_in leb); rewrite E; now left|].
  intros y Hy. apply (order_by_in leb) in Hy. rewrite E in Hy.
  destruct Hy as [<-|Hy].
  - split; [|intros _; exact Hrefl]. now destruct (leb_total x x).
  - rewrite Forall_forall in Hall. now apply Hall.
Qed.
End OrderByStable.

Lemma StronglySorted_filter_keeps {T} (rel : T -> T -> Prop) (keep : T -> bool)
    (rows : list T) :
  StronglySorted rel rows -> StronglySorted rel (filter keep rows).
Proof.
  induction 1 as [|a rows Hs IH Hall]; simpl; [constructor|].
  destruct (keep a); [|exact IH]. constructor; [exact IH|].
  apply Forall_forall. intros b Hb. apply filter_In in Hb as [Hb _].
  rewrite Forall_forall in Hall. now apply Hall.
Qed.

Lemma StronglySorted_weaken_in {T} (before after : T -> T -> Prop) (rows : list T) :
  (forall u v, In u rows -> In v rows -> before u v -> after u v) ->
  StronglySorted before rows -> StronglySorted after rows.
Proof.
  intros Himp Hs. induction Hs as [|u rows Hs IH Hall]; constructor.
  - apply IH. intros a b Ha Hb. apply Himp; now right.
  - rewrite Forall_forall in Hall. apply Forall_forall. intros v Hv.
    apply Himp; [now left|now right|now apply Hall].
Qed.

Lemma StronglySorted_all_pairs {T} (rel : T -> T -> Prop) (rows : list T) :
  (forall u v, In u rows -> In v rows -> rel u v) -> StronglySorted rel rows.
Proof.
  induction rows as [|a rows IH]; intros Hall; constructor.
  - apply IH. intros u v Hu Hv. apply Hall; now right.
  - apply Forall_forall. intros v Hv. apply Hall; [now left|now right].
Qed.

Lemma StronglySorted_flat_map {T U} (rel : T -> T -> Prop) (rel' : U -> U -> Prop)
    (each : T -> list U) (rows : list T) :
  (forall x u v, In u (each x) -> In v (each x) -> rel' u v) ->
  (forall x y u v, rel x y -> In u (each x) -> In v (each y) -> rel' u v) ->
  StronglySorted rel rows -> StronglySorted rel' (flat_map each rows).
Proof.
  intros Hsame Hacross. induction 1 as [|x rows Hs IH Hall]; simpl; [constructor|].
  apply StronglySorted_append; [|exact IH|].
  - apply StronglySorted_all_pairs. apply Hsame.
  - intros u v Hu Hv. apply in_flat_map in Hv as (y & Hy & Hv).
    rewrite Forall_forall in Hall. apply (Hacross x y); auto.
Qed.

Lemma distinct_sorted (ids : list Z) :
  StronglySorted Z.le ids -> StronglySorted Z.le (distinct ids).
Proof.
  induction 1 as [|a ids Hs IH Hall]; simpl; [constructor|].
  constructor; [now apply StronglySorted_filter_keeps|].
  apply Forall_forall. intros b Hb. apply filter_In in Hb as [Hb _].
  apply (proj1 (distinct_in ids b)) in Hb.
  rewrite Forall_forall in Hall. now apply Hall.
Qed.

Lemma rowid_leb_total (a b : word_row) : rowid_leb a b = true \/ rowid_leb b a = true.
Proof. unfold rowid_leb. rewrite !Z.leb_le. lia. Qed.

Lemma rowid_leb_trans (a b c : word_row) :
  rowid_leb a b = true -> rowid_leb b c = true -> rowid_leb a c = true.
Proof. unfold rowid_leb. rewrite !Z.leb_le. lia. Qed.

Lemma idx_word_id_leb_spec (a b : mw_row) :
  idx_word_id_leb a b = true <->
  mw_word_id a < mw_word_id b \/ (mw_word_id a = mw_word_id b /\ mw_id a <= mw_id b).
Proof.
  unfold idx_word_id_leb.
  rewrite orb_true_iff, andb_true_iff, Z.ltb_lt, Z.eqb_eq, Z.leb_le. reflexivity.
Qed.

Lemma idx_word_id_leb_total (a b : mw_row) :
  idx_word_id_leb a b = true \/ idx_word_id_leb b a = true.
Proof. rewrite !idx_word_id_leb_spec. lia. Qed.

Lemma idx_word_id_leb_trans (a b c : mw_row) :
  idx_word_id_leb a b = true -> idx_word_id_leb b c = true ->
  idx_word_id_leb a c = true.
Proof. rewrite !idx_word_id_leb_spec. lia. Qed.

Lemma as_read_in (db : database) :
  (forall w, In w (words (as_read db)) <-> In w (words db)) /\
  (forall g, In g (meaning_wrappers (as_read db)) <-> In g (meaning_wrappers db)).
Proof. split; intros x; apply order_by_in. Qed.

Lemma as_read_meaning_wrappers_sorted (db : database) :
  StronglySorted (fun a b => idx_word_id_leb a b = true)
                 (meaning_wrappers (as_read db)).
Proof.
  apply order_by_sorted; [apply idx_word_id_leb_total|apply idx_word_id_leb_trans].
Qed.

(** The candidates of [daily_words] arrive in ascending order of id. *)
Lemma as_read_candidates_sorted (db : database) :
  StronglySorted Z.le (qualifying_word_ids (as_read db)).
Proof.
  unfold qualifying_word_ids. apply distinct_sorted, StronglySorted_map_rel.
  eapply StronglySorted_weaken; [|apply as_read_meaning_wrappers_sorted].
  intros a b H. apply idx_word_id_leb_spec in H. lia.
Qed.

Lemma daily_words_key_then_id {RT : RealText} (seed : Z) (db : database) (w u : Z) :
  In w (daily_words seed (as_read db)) -> In u (qualifying_word_ids db) ->
  ~ In u (daily_words seed (as_read db)) ->
  key_then_id seed w u.
Proof.
  unfold daily_words. fold (qualifying_word_ids (as_read db)).
  set (sorted := order_by (key_leb (sort_key seed)) (qualifying_word_ids (as_read db))).
  intros Hw Hu Hnot.
  assert (Hs : StronglySorted
                 (fun a b => key_leb (sort_key seed) a b = true /\
                             (key_leb (sort_key seed) b a = true -> a <= b))
                 sorted).
  { apply order_by_stable; [|intros a b c; apply string_leb_trans
                            |apply as_read_candidates_sorted].
    intros a b. apply String.leb_total. }
  rewrite <- (firstn_skipn 4 sorted) in Hs.
  apply (StronglySorted_app_order _ _ _ Hs w u Hw).
  assert (Hin : In u sorted).
  { apply (order_by_in (key_leb (sort_key seed))).
    unfold qualifying_word_ids in *.
    apply (proj2 (distinct_in _ u)). apply (proj1 (distinct_in _ u)) in Hu.
    apply in_map_iff in Hu as (g & <- & Hg). apply in_map.
    now apply (proj2 (as_read_in db)). }
  rewrite <- (firstn_skipn 4 sorted) in Hin.
  apply in_app_or in Hin as [Hin|Hin]; [contradiction|exact Hin].
Qed.

(** The rows of the join come by word and, within a word, by gloss id. *)
Lemma joined_sorted (db : database) (dw : list Z) :
  StronglySorted (fun a b => idx_word_id_leb a b = true) (meaning_wrappers db) ->
  StronglySorted
    (fun a b => sw_word_id a < sw_word_id b \/
                (sw_word_id a = sw_word_id b /\ sw_id a <= sw_id b))
    (joined db dw).
Proof.
  intros Hs. unfold joined.
  assert (Hrow : forall g r,
            In r (flat_map (fun w =>
                    flat_map (fun d =>
                      if (mw_word_id g =? w_id w) && (mw_word_id g =? d)
                      then [mkSelected (mw_id g) (wrapper_html g) (mw_word_id g)
                                       (representation_html w)]
                      else [])
                    dw)
                  (words db)) ->
            sw_id r = mw_id g /\ sw_word_id r = mw_word_id g).
  { intros g r Hr. apply in_flat_map in Hr as (w & _ & Hr).
    apply in_flat_map in Hr as (d & _ & Hr).
    destruct ((mw_word_id g =? w_id w) && (mw_word_id g =? d)); [|destruct Hr].
    destruct Hr as [<-|[]]. split; reflexivity. }
  eapply StronglySorted_flat_map; [| |exact Hs].
  - intros g u v Hu Hv. destruct (Hrow g u Hu) as [Hu1 Hu2].
    destruct (Hrow g v Hv) as [Hv1 Hv2]. cbv beta.
    rewrite Hu1, Hu2, Hv1, Hv2. right. split; [reflexivity|apply Z.le_refl].
  - intros g g' u v Hgg Hu Hv. destruct (Hrow g u Hu) as [Hu1 Hu2].
    destruct (Hrow g' v Hv) as [Hv1 Hv2].
    apply idx_word_id_leb_spec in Hgg. cbv beta.
    rewrite Hu1, Hu2, Hv1, Hv2. exact Hgg.
Qed.

Lemma joined_partition_sorted (db : database) (dw : list Z) (p : Z) :
  StronglySorted (fun a b => idx_word_id_leb a b = true) (meaning_wrappers db) ->
  StronglySorted (fun a b => sw_id a <= sw_id b)
                 (filter (fun r => sw_word_id r =? p) (joined db dw)).
Proof.
  intros Hs.
  pose proof (StronglySorted_filter_keeps _ (fun r => sw_word_id r =? p) _
                (joined_sorted db dw Hs)) as Hf.
  revert Hf. apply StronglySorted_weaken_in.
  intros u v Hu Hv H. apply filter_In in Hu as [_ Hu]. apply filter_In in Hv as [_ Hv].
  apply Z.eqb_eq in Hu, Hv. lia.
Qed.

Lemma rn1_stable_first {T} (part : T -> Z) (key : T -> string)
    (earlier : T -> T -> Prop) (rows : list T) (rn : T * nat) :
  (forall p, StronglySorted earlier (filter (fun r => part r =? p) rows)) ->
  (forall x, earlier x x) ->
  In rn (filter (fun rn => Nat.eqb (snd rn) 1) (row_number_over part key rows)) ->
  In (fst rn) rows /\
  forall y, In y rows -> part y = part (fst rn) ->
    String.leb (key (fst rn)) (key y) = true /\
    (String.leb (key y) (key (fst rn)) = true -> earlier (fst rn) y).
Proof.
  intros Hparts Hrefl. unfold row_number_over. rewrite filter_flat_map. intros Hrn.
  apply in_flat_map in Hrn as (p & _ & Hrn). rewrite numbered_first in Hrn.
  destruct (order_by (key_leb key) (filter (fun r => part r =? p) rows))
    as [|x rest] eqn:Hsorted; [destruct Hrn|].
  destruct Hrn as [<-|[]]. cbn [fst].
  destruct (order_by_stable_first (key_leb key) earlier
              (fun a b => String.leb_total (key a) (key b))
              (fun a b c => string_leb_trans (key a) (key b) (key c))
              _ _ _ (Hparts p) (Hrefl x) Hsorted) as [Hx Hmin].
  apply filter_In in Hx as [Hx Hp]. apply Z.eqb_eq in Hp.
  split; [exact Hx|]. intros y Hy Hpart. apply Hmin, filter_In.
  split; [exact Hy|]. apply Z.eqb_eq. congruence.
Qed.

Lemma daily_query_least_gloss {RT : RealText} (seed : Z) (db : database) :
  Forall (least_gloss_of seed db) (daily_query seed (as_read db)).
Proof.
  apply Forall_forall. intros r Hr. unfold daily_query in Hr.
  apply in_map_iff in Hr as (rn & <- & Hrn).
  apply order_by_in in Hrn.
  apply (rn1_stable_first sw_word_id (fun r => sort_key seed (sw_id r))
           (fun a b => sw_id a <= sw_id b)) in Hrn as [Hin Hmin].
  2:{ intros p. apply joined_partition_sorted, as_read_meaning_wrappers_sorted. }
  2:{ intros x. lia. }
  apply joined_in in Hin as (g & w & Hg & Hw & Heq & Hd & Hx).
  rewrite Hx in Hmin. cbn [sw_id sw_word_id] in Hmin.
  exists g, w. rewrite Hx. cbn.
  split; [now apply (proj2 (as_read_in db))|].
  split; [now apply (proj1 (as_read_in db))|].
  repeat split; auto.
  - apply (Hmin (mkSelected (mw_id g') (wrapper_html g') (mw_word_id g')
                            (representation_html w))); [|assumption].
    apply joined_in. exists g', w.
    split; [now apply (proj2 (as_read_in db))|].
    split; [exact Hw|]. split; [congruence|]. split; [congruence|reflexivity].
  - apply (Hmin (mkSelected (mw_id g') (wrapper_html g') (mw_word_id g')
                            (representation_html w))); [|assumption].
    apply joined_in. exists g', w.
    split; [now apply (proj2 (as_read_in db))|].
    split; [exact Hw|]. split; [congruence|]. split; [congruence|reflexivity].
Qed.

Lemma as_read_same_rows (db1 db2 : database) :
  primary_keys db1 -> same_rows db1 db2 ->
  words (as_read db1) = words (as_read db2) /\
  meaning_wrappers (as_read db1) = meaning_wrappers (as_read db2).
Proof.
  intros [Hw Hg] [Hpw Hpg]. unfold as_read. cbn [words meaning_wrappers]. split.
  - apply order_by_perm_eq;
      [apply rowid_leb_total|apply rowid_leb_trans|exact Hpw|].
    intros a b Ha Hb H1 H2. apply (NoDup_map_inj w_id (words db1)); auto.
    unfold rowid_leb in H1, H2. apply Z.leb_le in H1, H2. lia.
  - apply order_by_perm_eq;
      [apply idx_word_id_leb_total|apply idx_word_id_leb_trans|exact Hpg|].
    intros a b Ha Hb H1 H2. apply (NoDup_map_inj mw_id (meaning_wrappers db1)); auto.
    apply idx_word_id_leb_spec in H1, H2. lia.
Qed.

Lemma daily_query_rows {RT : RealText} (seed : Z) (db1 db2 : database) :
  words db1 = words db2 -> meaning_wrappers db1 = meaning_wrappers db2 ->
  daily_query seed db1 = daily_query seed db2.
Proof.
  intros Hw Hg. unfold daily_query, daily_words, joined. now rewrite Hw, Hg.
Qed.

(** C1: the daily selection is a function of the date and of the rows
    of the tables.  For a date given explicitly (or, the date left
    out, on one and the same day) and tables that meet their schema (no
    id twice in a table, every gloss with its word), read as the engine
    reads them on the schema of the code, two calls return the same
    entries in the same order, whatever the clock of the calling
    process shows and in whatever order the same rows are listed, that
    is, were inserted.  Rows whose sort keys collide are told apart by
    id: a word of the result comes before every candidate that is left
    out, and the gloss of a row before every other gloss of its word,
    by key and, the keys being equal, by id. *)
Theorem get_daily_meaning_wrappers_by_contents {RT : RealText}
    (today1 today2 date_str : str) (db1 db2 : database) :
  date_str <> [] \/ today1 = today2 ->
  primary_keys db1 -> foreign_key_ok db1 -> same_rows db1 db2 ->
  get_daily_meaning_wrappers today1 date_str (as_read db1) =
  get_daily_meaning_wrappers today2 date_str (as_read db2) /\
  match get_daily_meaning_wrappers today1 date_str (as_read db1) with
  | Ok rows =>
      exists seed,
        date_seed (effective_date today1 date_str) = Ok seed /\
        Forall (least_gloss_of seed db1) rows /\
        forall w u,
          In w (map word_id rows) -> In u (qualifying_word_ids db1) ->
          ~ In u (map word_id rows) ->
          key_then_id seed w u
  | Raise _ => True
  end.
Proof.
  intros Hdate Hpk Hfk Hsame.
  destruct (as_read_same_rows db1 db2 Hpk Hsame) as [Hw Hg].
  assert (Heff : effective_date today1 date_str = effective_date today2 date_str).
  { unfold effective_date. destruct date_str as [|c rest]; [|reflexivity].
    destruct Hdate as [Hne|Heq]; [congruence|exact Heq]. }
  unfold get_daily_meaning_wrappers. cbv zeta. rewrite <- Heff.
  destruct (date_seed (effective_date today1 date_str)) as [seed|e]; cbn [bind];
    [|split; [reflexivity|exact I]].
  split; [f_equal; now apply daily_query_rows|].
  exists seed. split; [reflexivity|]. split; [apply daily_query_least_gloss|].
  assert (Hfk' : foreign_key_ok (as_read db1)).
  { intros g Hgin. apply (proj1 (proj2 (as_read_in db1) g)) in Hgin.
    specialize (Hfk g Hgin). apply in_map_iff in Hfk as (w & Heq & Hin).
    apply in_map_iff. exists w. split; [exact Heq|].
    now apply (proj2 (proj1 (as_read_in db1) w)). }
  intros w u Hwin Hu Hnot.
  apply (daily_words_key_then_id seed db1 w u).
  - now apply (daily_query_words seed (as_read db1) w Hfk').
  - exact Hu.
  - intros Hin. apply Hnot. now apply (daily_query_words seed (as_read db1) u Hfk').
Qed.

(** The tables of five words with colliding keys, listed by gloss id
    and listed by word id, are read alike; of the words 10^15 + 3 and
    10^15 + 4, whose keys are equal, the one with the smaller id is
    taken. *)
Example daily_tied_words {RT : RealText} :
  as_read tied_words = tied_words_indexed /\
  as_read tied_words_indexed = tied_words_indexed /\
  get_daily_meaning_wrappers [] date_2054_08_18 (as_read tied_words) =
    Ok [mkDaily (plain "g3") (plain "w0") 1000000000000000;
        mkDaily (plain "g4") (plain "w1") 1000000000000001;
        mkDaily (plain "g5") (plain "w2") 1000000000000002;
        mkDaily (plain "g2") (plain "w3") 1000000000000003].
Proof. vm_compute. auto. Qed.

Lemma get_daily_meaning_wrappers_by_contents_witness :
  get_daily_meaning_wrappers (RT := no_real) [] date_2054_08_18 (as_read tied_words) =
  get_daily_meaning_wrappers (RT := no_real) [] date_2054_08_18
    (as_read tied_words_indexed) /\
  match get_daily_meaning_wrappers (RT := no_real) [] date_2054_08_18
          (as_read tied_words) with
  | Ok rows =>
      exists seed,
        date_seed (effective_date [] date_2054_08_18) = Ok seed /\
        Forall (least_gloss_of (RT := no_real) seed tied_words) rows /\
        forall w u,
          In w (map word_id rows) -> In u (qualifying_word_ids tied_words) ->
          ~ In u (map word_id rows) ->
          key_then_id (RT := no_real) seed w u
  | Raise _ => True
  end.
Proof.
  apply (get_daily_meaning_wrappers_by_contents (RT := no_real) [] []
           date_2054_08_18 tied_words tied_words_indexed).
  - left. discriminate.
  - split; simpl; nodup_tac.
  - intros g Hg. simpl in Hg.
    repeat (destruct Hg as [<-|Hg]; [simpl; tauto|]). destruct Hg.
  - split; [reflexivity|].
    apply NoDup_Permutation; [simpl; nodup_tac..|].
    intros g. simpl. tauto.
Defined.

(** A product outside the 64-bit range.  With the seed 1884493844 of
    2024-01-01 the key of word 10^10 is cut from the text of a REAL;
    on an engine that writes it ['1.884493844e+19'] that key sorts, as
    text, before the decimal keys of the words 6 to 9, and the word is
    selected with 6, 7 and 8. *)
Example daily_overflow_words :
  sort_key (RT := fun _ _ => "1.884493844e+19"%string) 1884493844 10000000000
    = "1.884493844e+19"%string /\
  sort_key (RT := fun _ _ => "1.884493844e+19"%string) 1884493844 9
    = "16960444596"%string /\
  option_map (map word_id)
    (match get_daily_meaning_wrappers (RT := fun _ _ => "1.884493844e+19"%string)
             [] date_2024_01_01 (as_read overflow_words) with
     | Ok rows => Some rows
     | Raise _ => None
     end) = Some [6; 7; 8; 10000000000].
Proof. vm_compute. auto. Qed.
